(** * Stock-Assistant: the orchestration graph of [src/agent/agent.py]

    The program wires three tool loops (stock-name resolution, fundamental
    analysis, technical analysis), a parallel join and a final decision call
    into graphs that a graph runtime executes.  This file embeds the node
    functions, the graphs and the small part of the runtime they rely on
    (message reducer, tool node, routing condition, step-wise execution), and
    proves the properties the specification states about them.

    External collaborators are parameters: the chat models are sequences of
    canned outcomes indexed by invocation number, the tool server is a
    function from a tool call to its outcome, and the order in which the two
    concurrent analysis tasks advance is a schedule. *)

From Stdlib Require Import String Ascii List Arith Bool Lia.
Import ListNotations.
Local Open Scope string_scope.
Local Open Scope list_scope.

(** ** Errors and results *)

(** Exceptions that the modelled code can raise or let through.
    [GraphRecursionError] is what the graph runtime raises when a run has
    not ended within its step limit.  [NotModelled] marks library behaviour
    outside the fragment embedded here; the program's own inputs never reach
    it. *)
Inductive error : Type :=
| KeyError (key : string)
| ValueError (what : string)
| IndexError (what : string)
| ModelError (what : string)
| ToolError (what : string)
| GraphRecursionError
| NotModelled (what : string).

(** Result of running effectful code: a value, an exception, or no answer
    within the step budget of the model (a call that has not returned). *)
Inductive result (A : Type) : Type :=
| Ok (a : A)
| Raise (e : error)
| Unfinished.

Arguments Ok {A} a.
Arguments Raise {A} e.
Arguments Unfinished {A}.

Definition rbind {A B} (r : result A) (k : A -> result B) : result B :=
  match r with
  | Ok a => k a
  | Raise e => Raise e
  | Unfinished => Unfinished
  end.

Definition is_ok {A} (r : result A) : bool :=
  match r with Ok _ => true | _ => false end.

(** ** Messages *)

Module Msg.

(** A tool-call request inside a model response. *)
Record ToolCall : Type := mkToolCall {
  call_name : string;
  call_args : string;
  call_id : string
}.

(** The message classes; only a model response has the [tool_calls]
    attribute, only a tool result names the call it answers. *)
Inductive kind : Type :=
| System
| Human
| AI (tool_calls : list ToolCall)
| Tool (name : string) (tool_call_id : string).

(** [id] is [None] for a message built without one (prompt dictionaries,
    tool results): the reducer gives such a message a fresh identifier. *)
Record message : Type := mkMessage {
  role : kind;
  id : option string;
  content : string
}.

(** [getattr(m, "tool_calls")], [None] when [hasattr] is false. *)
Definition tool_calls_attr (m : message) : option (list ToolCall) :=
  match role m with
  | AI calls => Some calls
  | _ => None
  end.

(** [not hasattr(response, "tool_calls") or len(response.tool_calls) == 0] *)
Definition no_tool_calls (m : message) : bool :=
  match tool_calls_attr m with
  | None => true
  | Some [] => true
  | Some (_ :: _) => false
  end.

(** The calls a response requests (none without the attribute). *)
Definition requested (m : message) : list ToolCall :=
  match tool_calls_attr m with
  | Some calls => calls
  | None => []
  end.

Definition has_id (i : string) (m : message) : bool :=
  match id m with
  | Some j => String.eqb i j
  | None => false
  end.

(** Identifiers present in a stored list. *)
Fixpoint ids (l : list message) : list string :=
  match l with
  | [] => []
  | m :: t =>
      match id m with
      | Some i => i :: ids t
      | None => ids t
      end
  end.

(** [{"role": "system", "content": c}] and [{"role": "user", "content": c}] *)
Definition system (c : string) : message := mkMessage System None c.
Definition user (c : string) : message := mkMessage Human None c.

End Msg.
Import Msg.

(** ** The [add_messages] reducer

    The [messages] channel of every state is declared
    [Annotated[list, add_messages]]: an update is merged into the stored
    list message by message; a message whose identifier is already stored
    replaces the stored one at its index (the last index with that
    identifier), any other message is appended. *)

Fixpoint replace_last (i : string) (m : message) (l : list message)
  : option (list message) :=
  match l with
  | [] => None
  | x :: t =>
      match replace_last i m t with
      | Some t' => Some (x :: t')
      | None => if has_id i x then Some (m :: t) else None
      end
  end.

Definition add_message (l : list message) (m : message) : list message :=
  match id m with
  | None => l ++ [m]
  | Some i =>
      match replace_last i m l with
      | Some l' => l'
      | None => l ++ [m]
      end
  end.

Definition add_messages (left right : list message) : list message :=
  fold_left add_message right left.

(** A batch of messages is fresh for a stored list when none of its
    identifiers is stored or repeated: the provider and the reducer hand out
    unique identifiers. *)
Fixpoint fresh_ids (seen : list string) (batch : list message) : Prop :=
  match batch with
  | [] => True
  | m :: t =>
      match id m with
      | None => fresh_ids seen t
      | Some i => ~ In i seen /\ fresh_ids (i :: seen) t
      end
  end.

(** ** [str.format] with keyword arguments

    The fragment used by the decision prompt: literal text, the escapes
    [{{] and [}}], and replacement fields [{name}] looked up among the
    keyword arguments.  A field with an empty or numeric name asks for a
    positional argument, of which there is none. *)

Module Fmt.

Definition lbrace : ascii := "{"%char.
Definition rbrace : ascii := "}"%char.

(** Characters that start a conversion, a format spec, an attribute or an
    index inside a replacement field. *)
Definition field_operator (c : ascii) : bool :=
  existsb (Ascii.eqb c) ["!"; ":"; "."; "["; "]"; "{"]%char.

Definition is_digit (c : ascii) : bool :=
  existsb (Ascii.eqb c) ["0"; "1"; "2"; "3"; "4"; "5"; "6"; "7"; "8"; "9"]%char.

Fixpoint all_digits (s : string) : bool :=
  match s with
  | EmptyString => true
  | String c t => is_digit c && all_digits t
  end.

Fixpoint lookup (k : string) (kwargs : list (string * string)) : option string :=
  match kwargs with
  | [] => None
  | (k', v) :: t => if String.eqb k k' then Some v else lookup k t
  end.

Definition get_value (name : string) (kwargs : list (string * string))
  : result string :=
  if all_digits name
  then Raise (IndexError "Replacement index out of range for positional args tuple")
  else match lookup name kwargs with
       | Some v => Ok v
       | None => Raise (KeyError name)
       end.

(** [scan s field kwargs]: [field] is [Some acc] while the scanner is
    inside a replacement field whose name read so far is [acc]. *)
Fixpoint scan (s : string) (field : option string)
         (kwargs : list (string * string)) : result string :=
  match s with
  | EmptyString =>
      match field with
      | None => Ok EmptyString
      | Some _ => Raise (ValueError "expected '}' before end of string")
      end
  | String c t =>
      match field with
      | Some acc =>
          if Ascii.eqb c rbrace then
            rbind (get_value acc kwargs) (fun v =>
            rbind (scan t None kwargs) (fun rest => Ok (v ++ rest)%string))
          else if field_operator c then
            Raise (NotModelled "conversion, format spec, attribute or index in a field")
          else scan t (Some (acc ++ String c EmptyString)%string) kwargs
      | None =>
          if Ascii.eqb c lbrace then
            match t with
            | String c2 t2 =>
                if Ascii.eqb c2 lbrace
                then rbind (scan t2 None kwargs) (fun rest => Ok (String lbrace rest))
                else scan t (Some EmptyString) kwargs
            | EmptyString => Raise (ValueError "Single '{' encountered in format string")
            end
          else if Ascii.eqb c rbrace then
            match t with
            | String c2 t2 =>
                if Ascii.eqb c2 rbrace
                then rbind (scan t2 None kwargs) (fun rest => Ok (String rbrace rest))
                else Raise (ValueError "Single '}' encountered in format string")
            | EmptyString => Raise (ValueError "Single '}' encountered in format string")
            end
          else rbind (scan t None kwargs) (fun rest => Ok (String c rest))
      end
  end.

(** [template.format(...)] with the keyword arguments [kwargs] *)
Definition format (template : string) (kwargs : list (string * string))
  : result string :=
  scan template None kwargs.

(** Substring test, [needle in hay]. *)
Fixpoint contains (needle hay : string) : bool :=
  if String.prefix needle hay then true
  else match hay with
       | EmptyString => false
       | String _ t => contains needle t
       end.

Definition occurs (needle hay : string) : Prop :=
  exists pre post, hay = (pre ++ needle ++ post)%string.

End Fmt.

(** ** Prompts *)

Definition nl : string := String (ascii_of_nat 10) EmptyString.

Definition FUNDAMENTAL_ANALYSIS_SYSTEM_PROMPT : string :=
  "Perform a fundamental analysis of the stock. Provide a detailed analysis including financial ratios, earnings reports, and other relevant information. Use the ask perplexity tool to search for the fundamental analysis.".

Definition TECHNICAL_ANALYSIS_SYSTEM_PROMPT : string :=
  "Perform a technical analysis of the stock. Analyze charts, trends, and technical indicators. Use the ask perplexity tool to search for technical analysis.".

Definition STOCK_NAME_SYSTEM_PROMPT : string :=
  "Get the name of the stock to analyze. Only return the name in the format 'Company Name (Ticker)'. Eg: 'Tata Motors Ltd. (NSE:TATAMOTORS)' and nothing else. Only fetch the ticker symbol for NSE. Use the ask perplexity tool to search for the stock ticker.".

(** The triple-quoted template, line by line. *)
Definition DECISION_SYSTEM_PROMPT : string :=
  (nl ++
   "    Based on the fundamental analysis: {fundamental_analysis}" ++ nl ++
   "    And technical analysis: {technical_analysis}" ++ nl ++
   "    " ++ nl ++
   "    Make a buy, sell, or hold decision for {stock_name}." ++ nl ++
   "    ")%string.

(** ** State

    [State], [FundamentalAnalysisState] and [TechnicalAnalysisState] are
    typed dictionaries: at run time a state is a dictionary that holds a
    subset of the declared keys.  One record with optional fields stands for
    all three; a key outside a schema is never present in a state of that
    schema.  [decision] is declared [Literal["buy", "sell", "hold"]], which
    nothing checks at run time: the field holds a string.  A partial update
    returned by a node is a dictionary of the same shape. *)

Record State : Type := mkState {
  messages : list message;
  stock_name : option string;
  fundamental_analysis : option string;
  technical_analysis : option string;
  decision : option string
}.

Definition FundamentalAnalysisState (s : State) : Prop :=
  technical_analysis s = None /\ decision s = None.

Definition TechnicalAnalysisState (s : State) : Prop :=
  fundamental_analysis s = None /\ decision s = None.

(** The values of the declared type of [decision]. *)
Definition decision_literal : list string := ["buy"; "sell"; "hold"].

Definition empty_state : State := mkState [] None None None None.

(** [state[key]] *)
Definition subscript {A} (key : string) (field : option A) : result A :=
  match field with
  | Some v => Ok v
  | None => Raise (KeyError key)
  end.

(** [state.get(key, default)] *)
Definition get {A} (field : option A) (default : A) : A :=
  match field with
  | Some v => v
  | None => default
  end.

(** A channel without reducer keeps the last value written. *)
Definition last_value {A} (old new : option A) : option A :=
  match new with
  | Some v => Some v
  | None => old
  end.

(** Applying a node's update to the state, channel by channel. *)
Definition apply_update (s u : State) : State :=
  {| messages := add_messages (messages s) (messages u);
     stock_name := last_value (stock_name s) (stock_name u);
     fundamental_analysis := last_value (fundamental_analysis s) (fundamental_analysis u);
     technical_analysis := last_value (technical_analysis s) (technical_analysis u);
     decision := last_value (decision s) (decision u) |}.

(** ** Effects: calls to the models

    The world records, per model object, the inputs it was invoked with; a
    model's answer to its [n]-th invocation is the [n]-th canned outcome. *)

Record World : Type := mkWorld {
  llm_log : list (list message);
  reasoning_log : list (list message)
}.

Definition fresh_world : World := mkWorld [] [].

Definition M (A : Type) : Type := World -> result (A * World).

Definition ret {A} (a : A) : M A := fun w => Ok (a, w).

Definition bind {A B} (c : M A) (k : A -> M B) : M B :=
  fun w => rbind (c w) (fun aw => k (fst aw) (snd aw)).

Definition lift {A} (r : result A) : M A :=
  fun w => rbind r (fun a => Ok (a, w)).

Notation "x <- c ;; k" := (bind c (fun x => k))
  (at level 61, c at next level, right associativity).

(** The three tool loops of the program. *)
Inductive loop : Type :=
| NameResolution
| FundamentalAnalysis
| TechnicalAnalysis.

Definition START : string := "__start__".
Definition END : string := "__end__".

Fixpoint assoc {A} (k : string) (l : list (string * A)) : option A :=
  match l with
  | [] => None
  | (k', v) :: t => if String.eqb k k' then Some v else assoc k t
  end.

Fixpoint last_message (l : list message) : option message :=
  match l with
  | [] => None
  | [m] => Some m
  | _ :: t => last_message t
  end.

(** ** Graphs and their execution

    A graph is what the builder calls record: named nodes, edges, and
    conditional edges (a routing function with a map from its answers to
    node names).  Every node of the program's graphs has one way out, so one
    node is active at a time: a step runs the active node, applies its update
    through the reducers, and follows the edge, the routing function reading
    the updated state. *)

Record Graph : Type := mkGraph {
  nodes : list (string * (State -> M State));
  edges : list (string * string);
  conditional_edges : list (string * ((State -> result string) * list (string * string)))
}.

(** A running graph: the node to run next, the state values, the world, and the
    updates applied so far with the node that returned each. *)
Record Config : Type := mkConfig {
  at_node : string;
  values : State;
  world : World;
  trail : list (string * State)
}.

Definition route (g : Graph) (node : string) (s : State) : result string :=
  match assoc node (conditional_edges g) with
  | Some (path, path_map) =>
      rbind (path s) (fun answer =>
      match assoc answer path_map with
      | Some target => Ok target
      | None => Raise (KeyError answer)
      end)
  | None =>
      match assoc node (edges g) with
      | Some target => Ok target
      | None => Ok END
      end
  end.

Definition step (g : Graph) (c : Config) : result Config :=
  match assoc (at_node c) (nodes g) with
  | None => Raise (KeyError (at_node c))
  | Some node =>
      rbind (node (values c) (world c)) (fun uw =>
      let s' := apply_update (values c) (fst uw) in
      rbind (route g (at_node c) s') (fun target =>
      Ok {| at_node := target;
            values := s';
            world := snd uw;
            trail := trail c ++ [(at_node c, fst uw)] |}))
  end.

Definition finished (c : Config) : bool := String.eqb (at_node c) END.

(** [n] steps, stopping early at node [stop]. *)
Fixpoint steps_until (stop : string) (n : nat) (g : Graph) (c : Config)
  : result Config :=
  match n with
  | 0 => Ok c
  | S n' =>
      if String.eqb (at_node c) stop then Ok c
      else rbind (step g c) (steps_until stop n' g)
  end.

(** Running to [END] within a step budget: [Unfinished] says that the run
    has not ended within these steps, not what the runtime does then (see
    [run_within]). *)
Fixpoint run (fuel : nat) (g : Graph) (c : Config) : result Config :=
  if finished c then Ok c
  else match fuel with
       | 0 => Unfinished
       | S fuel' => rbind (step g c) (run fuel' g)
       end.

(** The configuration a graph starts in: the input is written to the empty
    channels and the edge out of [START] is followed.  The input is a state
    of the graph's schema: it holds no key outside it. *)
Definition start (g : Graph) (input : State) (w : World) : result Config :=
  match assoc START (edges g) with
  | Some entry =>
      Ok {| at_node := entry;
            values := apply_update empty_state input;
            world := w;
            trail := [] |}
  | None => Raise (ValueError "Graph must have an entrypoint")
  end.

(** [graph.ainvoke(input)] *)
Definition graph_ainvoke (fuel : nat) (g : Graph) (input : State) (w : World)
  : result Config :=
  rbind (start g input w) (run fuel g).

(** [asyncio.gather(f, t)] over two graph runs: the schedule says which task
    advances next ([true] for the first); a turn given to a task that is done,
    or that waits for a call that never returns, passes; the first exception
    ends the wait; the results come in argument order. *)
Fixpoint gather (gf gt : Graph) (schedule : list bool) (cf ct : Config)
  : result (Config * Config) :=
  if finished cf && finished ct then Ok (cf, ct)
  else match schedule with
       | [] => Unfinished
       | true :: rest =>
           if finished cf then gather gf gt rest cf ct
           else match step gf cf with
                | Ok cf' => gather gf gt rest cf' ct
                | Raise e => Raise e
                | Unfinished => gather gf gt rest cf ct
                end
       | false :: rest =>
           if finished ct then gather gf gt rest cf ct
           else match step gt ct with
                | Ok ct' => gather gf gt rest cf ct'
                | Raise e => Raise e
                | Unfinished => gather gf gt rest cf ct
                end
       end.

(** The turns a schedule gives to a task. *)
Definition turns (b : bool) (schedule : list bool) : nat :=
  count_occ bool_dec schedule b.

(** *** The step limit of the runtime

    [run] and [gather] above describe the steps of a run and leave open what
    happens when the budget ends.  The runtime itself counts the steps of
    every invocation and ends one that has not reached [END] within its
    limit with [GraphRecursionError].  [limit] is the number of steps the
    invocation may take; the runtime derives it from the configuration key
    [recursion_limit], 25 for a caller that sets none. *)
Fixpoint run_within (limit : nat) (g : Graph) (c : Config) : result Config :=
  if finished c then Ok c
  else match limit with
       | 0 => Raise GraphRecursionError
       | S limit' => rbind (step g c) (run_within limit' g)
       end.

(** [graph.ainvoke(input)] under the step limit. *)
Definition graph_ainvoke_within (limit : nat) (g : Graph) (input : State)
           (w : World) : result Config :=
  rbind (start g input w) (run_within limit g).

(** [asyncio.gather(f, t)] over two invocations with the step limits
    [limit_f] and [limit_t]: a task whose turn comes when its limit is used
    up raises [GraphRecursionError]. *)
Fixpoint gather_within (gf gt : Graph) (schedule : list bool)
         (limit_f limit_t : nat) (cf ct : Config) : result (Config * Config) :=
  if finished cf && finished ct then Ok (cf, ct)
  else match schedule with
       | [] => Unfinished
       | true :: rest =>
           if finished cf then gather_within gf gt rest limit_f limit_t cf ct
           else match limit_f with
                | 0 => Raise GraphRecursionError
                | S limit_f' =>
                    match step gf cf with
                    | Ok cf' => gather_within gf gt rest limit_f' limit_t cf' ct
                    | Raise e => Raise e
                    | Unfinished => gather_within gf gt rest limit_f limit_t cf ct
                    end
                end
       | false :: rest =>
           if finished ct then gather_within gf gt rest limit_f limit_t cf ct
           else match limit_t with
                | 0 => Raise GraphRecursionError
                | S limit_t' =>
                    match step gt ct with
                    | Ok ct' => gather_within gf gt rest limit_f limit_t' cf ct'
                    | Raise e => Raise e
                    | Unfinished => gather_within gf gt rest limit_f limit_t cf ct
                    end
                end
       end.

(** ** The agent *)

Section Agent.

(** [llms_with_tools who n]: what the tool-bound model answers to the
    [n]-th invocation made by loop [who]. *)
Variable llms_with_tools : loop -> nat -> result message.
Variable reasoning_llm : nat -> result message.
(** The tool server: the text a tool call returns, or the error it raises. *)
Variable tools : ToolCall -> result string.

Definition ainvoke (who : loop) (input : list message) : M message :=
  fun w =>
    rbind (llms_with_tools who (length (llm_log w))) (fun response =>
    Ok (response, {| llm_log := llm_log w ++ [input];
                     reasoning_log := reasoning_log w |})).

Definition reasoning_ainvoke (input : list message) : M message :=
  fun w =>
    rbind (reasoning_llm (length (reasoning_log w))) (fun response =>
    Ok (response, {| llm_log := llm_log w;
                     reasoning_log := reasoning_log w ++ [input] |})).

Definition get_fundamental_analysis (state : State) : M State :=
  name <- lift (subscript "stock_name" (stock_name state)) ;;
  let messages_with_prompt :=
    system FUNDAMENTAL_ANALYSIS_SYSTEM_PROMPT
    :: user ("The stock to analyze is " ++ name)%string
    :: messages state in
  response <- ainvoke FundamentalAnalysis messages_with_prompt ;;
  if no_tool_calls response then
    ret {| messages := [response];
           stock_name := None;
           fundamental_analysis := Some (content response);
           technical_analysis := None;
           decision := None |}
  else
    ret {| messages := [response];
           stock_name := None;
           fundamental_analysis := None;
           technical_analysis := None;
           decision := None |}.

Definition get_technical_analysis (state : State) : M State :=
  name <- lift (subscript "stock_name" (stock_name state)) ;;
  let messages_with_prompt :=
    system TECHNICAL_ANALYSIS_SYSTEM_PROMPT
    :: user ("The stock to analyze is " ++ name)%string
    :: messages state in
  response <- ainvoke TechnicalAnalysis messages_with_prompt ;;
  if no_tool_calls response then
    ret {| messages := [response];
           stock_name := None;
           fundamental_analysis := None;
           technical_analysis := Some (content response);
           decision := None |}
  else
    ret {| messages := [response];
           stock_name := None;
           fundamental_analysis := None;
           technical_analysis := None;
           decision := None |}.

Definition get_stock_name (state : State) : M State :=
  let messages_with_prompt :=
    system STOCK_NAME_SYSTEM_PROMPT :: messages state in
  response <- ainvoke NameResolution messages_with_prompt ;;
  if no_tool_calls response then
    ret {| messages := [response];
           stock_name := Some (content response);
           fundamental_analysis := None;
           technical_analysis := None;
           decision := None |}
  else
    ret {| messages := [response];
           stock_name := None;
           fundamental_analysis := None;
           technical_analysis := None;
           decision := None |}.

(** *** The prebuilt tool node and routing condition *)

(** One tool call: the result becomes a tool message answering the call. *)
Definition run_tool (call : ToolCall) : result message :=
  rbind (tools call) (fun out =>
  Ok {| role := Tool (call_name call) (call_id call);
        id := None;
        content := out |}).

Fixpoint run_tools (calls : list ToolCall) : result (list message) :=
  match calls with
  | [] => Ok []
  | call :: rest =>
      rbind (run_tool call) (fun m =>
      rbind (run_tools rest) (fun ms => Ok (m :: ms)))
  end.

(** [ToolNode(tools=tools)]: runs every call requested by the last message
    and returns the results, in the order of the calls, as new messages. *)
Definition ToolNode (state : State) : M State :=
  match last_message (messages state) with
  | None => lift (Raise (ValueError "No message found in input"))
  | Some m =>
      match tool_calls_attr m with
      | None => lift (Raise (ValueError "Last message is not an AIMessage"))
      | Some calls =>
          outputs <- lift (run_tools calls) ;;
          ret {| messages := outputs;
                 stock_name := None;
                 fundamental_analysis := None;
                 technical_analysis := None;
                 decision := None |}
      end
  end.

(** [tools_condition]: ["tools"] when the last message requests tool
    calls, ["__end__"] otherwise. *)
Definition tools_condition (state : State) : result string :=
  match last_message (messages state) with
  | None => Raise (ValueError "No messages found in input state to tool_edge")
  | Some ai_message =>
      if no_tool_calls ai_message then Ok "__end__" else Ok "tools"
  end.

(** *** The two analysis graphs *)

Definition fsubgraph : Graph :=
  {| nodes := [("fundamental_analysis", get_fundamental_analysis);
               ("fundamental_analysis_tools", ToolNode)];
     edges := [(START, "fundamental_analysis");
               ("fundamental_analysis_tools", "fundamental_analysis")];
     conditional_edges :=
       [("fundamental_analysis",
         (tools_condition,
          [("tools", "fundamental_analysis_tools"); ("__end__", END)]))] |}.

Definition tsubgraph : Graph :=
  {| nodes := [("technical_analysis", get_technical_analysis);
               ("technical_analysis_tools", ToolNode)];
     edges := [(START, "technical_analysis");
               ("technical_analysis_tools", "technical_analysis")];
     conditional_edges :=
       [("technical_analysis",
         (tools_condition,
          [("tools", "technical_analysis_tools"); ("__end__", END)]))] |}.

(** *** The join and the decision *)

(** The input both analysis graphs are invoked with. *)
Definition analysis_input (name : string) : State :=
  {| messages := [];
     stock_name := Some name;
     fundamental_analysis := None;
     technical_analysis := None;
     decision := None |}.

(** Each analysis run counts the invocations of its own loop from zero, and
    its record of them ends with the run: the join leaves the caller's
    world as it is. *)
Definition continue_to_analyses (schedule : list bool) (state : State) : M State :=
  name <- lift (subscript "stock_name" (stock_name state)) ;;
  fundamental_task <- lift (start fsubgraph (analysis_input name) fresh_world) ;;
  technical_task <- lift (start tsubgraph (analysis_input name) fresh_world) ;;
  results <- lift (gather fsubgraph tsubgraph schedule fundamental_task technical_task) ;;
  let fundamental_result := values (fst results) in
  let technical_result := values (snd results) in
  let messages := messages fundamental_result ++ messages technical_result in
  fa <- lift (subscript "fundamental_analysis" (fundamental_analysis fundamental_result)) ;;
  ta <- lift (subscript "technical_analysis" (technical_analysis technical_result)) ;;
  ret {| messages := messages;
         stock_name := None;
         fundamental_analysis := Some fa;
         technical_analysis := Some ta;
         decision := None |}.

Definition decision_prompt (state : State) : result string :=
  Fmt.format DECISION_SYSTEM_PROMPT
    [("fundamental_analysis", get (fundamental_analysis state) "Not available");
     ("technical_analysis", get (technical_analysis state) "Not available");
     ("stock_name", get (stock_name state) "Unknown")].

Definition make_decision (state : State) : M State :=
  prompt <- lift (decision_prompt state) ;;
  response <- reasoning_ainvoke [user prompt] ;;
  ret {| messages := [response];
         stock_name := None;
         fundamental_analysis := None;
         technical_analysis := None;
         decision := Some (content response) |}.

(** *** The top-level graph *)

Definition stock_graph (schedule : list bool) : Graph :=
  {| nodes := [("stock_name", get_stock_name);
               ("stock_name_tools", ToolNode);
               ("continue_to_analyses", continue_to_analyses schedule);
               ("make_decision", make_decision)];
     edges := [(START, "stock_name");
               ("stock_name_tools", "stock_name");
               ("continue_to_analyses", "make_decision");
               ("make_decision", END)];
     conditional_edges :=
       [("stock_name",
         (tools_condition,
          [("tools", "stock_name_tools"); ("__end__", "continue_to_analyses")]))] |}.

(** *** The join and the workflow under the step limit

    [continue_to_analyses] invokes both analysis graphs; each invocation
    has the step limit [limit] of its own. *)

Definition continue_to_analyses_within (limit : nat) (schedule : list bool)
           (state : State) : M State :=
  name <- lift (subscript "stock_name" (stock_name state)) ;;
  fundamental_task <- lift (start fsubgraph (analysis_input name) fresh_world) ;;
  technical_task <- lift (start tsubgraph (analysis_input name) fresh_world) ;;
  results <- lift (gather_within fsubgraph tsubgraph schedule limit limit
                                 fundamental_task technical_task) ;;
  let fundamental_result := values (fst results) in
  let technical_result := values (snd results) in
  let messages := messages fundamental_result ++ messages technical_result in
  fa <- lift (subscript "fundamental_analysis" (fundamental_analysis fundamental_result)) ;;
  ta <- lift (subscript "technical_analysis" (technical_analysis technical_result)) ;;
  ret {| messages := messages;
         stock_name := None;
         fundamental_analysis := Some fa;
         technical_analysis := Some ta;
         decision := None |}.

Definition stock_graph_within (limit : nat) (schedule : list bool) : Graph :=
  {| nodes := [("stock_name", get_stock_name);
               ("stock_name_tools", ToolNode);
               ("continue_to_analyses", continue_to_analyses_within limit schedule);
               ("make_decision", make_decision)];
     edges := [(START, "stock_name");
               ("stock_name_tools", "stock_name");
               ("continue_to_analyses", "make_decision");
               ("make_decision", END)];
     conditional_edges :=
       [("stock_name",
         (tools_condition,
          [("tools", "stock_name_tools"); ("__end__", "continue_to_analyses")]))] |}.

End Agent.


(** ** Vocabulary of the tool loops

    Each loop is a model node and a tool node of one of the graphs; it is
    left through the [__end__] answer of the routing condition. *)

(** A round: a response that requests tools, and the tool results. *)
Abbreviation round := (message * list message)%type.

Section Loops.

Variable llms_with_tools : loop -> nat -> result message.
Variable reasoning_llm : nat -> result message.
Variable tools : ToolCall -> result string.

Definition loop_graph (schedule : list bool) (k : loop) : Graph :=
  match k with
  | NameResolution => stock_graph llms_with_tools reasoning_llm tools schedule
  | FundamentalAnalysis => fsubgraph llms_with_tools tools
  | TechnicalAnalysis => tsubgraph llms_with_tools tools
  end.

Definition loop_node (k : loop) : string :=
  match k with
  | NameResolution => "stock_name"
  | FundamentalAnalysis => "fundamental_analysis"
  | TechnicalAnalysis => "technical_analysis"
  end.

Definition loop_tools (k : loop) : string :=
  match k with
  | NameResolution => "stock_name_tools"
  | FundamentalAnalysis => "fundamental_analysis_tools"
  | TechnicalAnalysis => "technical_analysis_tools"
  end.

Definition loop_exit (k : loop) : string :=
  match k with
  | NameResolution => "continue_to_analyses"
  | FundamentalAnalysis => END
  | TechnicalAnalysis => END
  end.

(** The output field of a loop. *)
Definition loop_output (k : loop) (s : State) : option string :=
  match k with
  | NameResolution => stock_name s
  | FundamentalAnalysis => fundamental_analysis s
  | TechnicalAnalysis => technical_analysis s
  end.

(** What a loop puts in front of the stored messages when it invokes the
    model; [name] is the stock the analysis loops are told to analyse. *)
Definition prompt_prefix (k : loop) (name : string) : list message :=
  match k with
  | NameResolution => [system STOCK_NAME_SYSTEM_PROMPT]
  | FundamentalAnalysis =>
      [system FUNDAMENTAL_ANALYSIS_SYSTEM_PROMPT;
       user ("The stock to analyze is " ++ name)%string]
  | TechnicalAnalysis =>
      [system TECHNICAL_ANALYSIS_SYSTEM_PROMPT;
       user ("The stock to analyze is " ++ name)%string]
  end.

(** The analysis loops read the stock name from their state. *)
Definition knows_stock (k : loop) (name : string) (s : State) : Prop :=
  match k with
  | NameResolution => True
  | _ => stock_name s = Some name
  end.

(** The update of a model node whose response requests tools ... *)
Definition asks (r : message) : State :=
  {| messages := [r];
     stock_name := None;
     fundamental_analysis := None;
     technical_analysis := None;
     decision := None |}.

(** ... and of one whose response requests none. *)
Definition concludes (k : loop) (r : message) : State :=
  match k with
  | NameResolution => mkState [r] (Some (content r)) None None None
  | FundamentalAnalysis => mkState [r] None (Some (content r)) None None
  | TechnicalAnalysis => mkState [r] None None (Some (content r)) None
  end.

(** The update of a tool node. *)
Definition tool_update (outputs : list message) : State :=
  {| messages := outputs;
     stock_name := None;
     fundamental_analysis := None;
     technical_analysis := None;
     decision := None |}.


Definition round_ok (rd : round) : Prop :=
  no_tool_calls (fst rd) = false /\
  run_tools tools (requested (fst rd)) = Ok (snd rd).

Definition round_messages (rd : round) : list message := fst rd :: snd rd.

Definition round_entries (k : loop) (rd : round) : list (string * State) :=
  [(loop_node k, asks (fst rd)); (loop_tools k, tool_update (snd rd))].

Definition transcript (rounds : list round) : list message :=
  flat_map round_messages rounds.

(** Where a loop stands after its completed rounds. *)
Inductive phase : Type :=
| awaiting_model
| awaiting_tools (r : message)
| done (r : message).

Definition phase_node (k : loop) (ph : phase) : string :=
  match ph with
  | awaiting_model => loop_node k
  | awaiting_tools _ => loop_tools k
  | done _ => loop_exit k
  end.

Definition phase_messages (ph : phase) : list message :=
  match ph with
  | awaiting_model => []
  | awaiting_tools r => [r]
  | done r => [r]
  end.

Definition phase_entries (k : loop) (ph : phase) : list (string * State) :=
  match ph with
  | awaiting_model => []
  | awaiting_tools r => [(loop_node k, asks r)]
  | done r => [(loop_node k, concludes k r)]
  end.

Definition phase_ok (ph : phase) : Prop :=
  match ph with
  | awaiting_model => True
  | awaiting_tools r => no_tool_calls r = false
  | done r => no_tool_calls r = true
  end.

(** The inputs of the model invocations made while the stored list grew
    from [stored] by the given batches of messages: each input is the
    prompt prefix followed by what was stored at the time. *)
Fixpoint model_inputs (prefix stored : list message)
         (batches : list (list message)) : list (list message) :=
  match batches with
  | [] => []
  | batch :: rest =>
      (prefix ++ stored) :: model_inputs prefix (stored ++ batch) rest
  end.

(** The model's answers from invocation [base] on are [rs]. *)
Definition answers (model : nat -> result message) (base : nat)
           (rs : list message) : Prop :=
  forall i r, nth_error rs i = Some r -> model (base + i) = Ok r.

Definition requests_tools (r : message) : Prop := no_tool_calls r = false.

(** The model hands out unique identifiers: every sequence of answers a
    loop can see, all but the last requesting tools, is fresh for the
    stored identifiers [seen]. *)
Definition fresh_model (model : nat -> result message) (base : nat)
           (seen : list string) : Prop :=
  forall rs r,
    Forall requests_tools rs ->
    answers model base (rs ++ [r]) ->
    fresh_ids seen (rs ++ [r]).

(** The state of a loop that started from [s0], has completed [rounds]
    and stands in phase [ph]: the messages grew by the transcript, the
    output field is set once the loop is done, nothing else changed. *)
Definition phase_update (k : loop) (ph : phase) : State :=
  match ph with
  | done r => concludes k r
  | _ => empty_state
  end.

Definition loop_values (k : loop) (s0 : State) (rounds : list round) (ph : phase)
  : State :=
  let u := phase_update k ph in
  {| messages := messages s0 ++ transcript rounds ++ phase_messages ph;
     stock_name := last_value (stock_name s0) (stock_name u);
     fundamental_analysis := last_value (fundamental_analysis s0) (fundamental_analysis u);
     technical_analysis := last_value (technical_analysis s0) (technical_analysis u);
     decision := decision s0 |}.

(** The batches of messages that followed each model invocation. *)
Definition batches (rounds : list round) (ph : phase) : list (list message) :=
  map round_messages rounds ++ map (fun r => [r]) (phase_messages ph).

(** Configuration [c] is what loop [k], started in [c0], is after the
    given rounds and phase. *)
Record loop_inv (k : loop) (name : string) (c0 c : Config)
       (rounds : list round) (ph : phase) : Prop := mkLoopInv {
  inv_rounds : Forall round_ok rounds;
  inv_phase : phase_ok ph;
  inv_node : at_node c = phase_node k ph;
  inv_values : values c = loop_values k (values c0) rounds ph;
  inv_trail : trail c = trail c0 ++ flat_map (round_entries k) rounds
                                 ++ phase_entries k ph;
  inv_log : llm_log (world c) =
            llm_log (world c0)
            ++ model_inputs (prompt_prefix k name) (messages (values c0))
                 (batches rounds ph);
  inv_reasoning : reasoning_log (world c) = reasoning_log (world c0);
  inv_answers : answers (llms_with_tools k) (length (llm_log (world c0)))
                  (map fst rounds ++ phase_messages ph)
}.

(** Running a loop: steps of its graph until its exit. *)
Definition loop_steps (schedule : list bool) (k : loop) (n : nat) (c : Config)
  : result Config :=
  steps_until (loop_exit k) n (loop_graph schedule k) c.

(** How many updates of a trail came from a given node, and how many set
    the output field of a loop. *)
Definition visits (node : string) (t : list (string * State)) : nat :=
  length (filter (fun e => String.eqb (fst e) node) t).

Definition writes (k : loop) (t : list (string * State)) : nat :=
  length (filter (fun e => match loop_output k (snd e) with
                           | Some _ => true
                           | None => false
                           end) t).

End Loops.

(** ** The end-to-end scenario and sample environments

    Canned responses are model messages built without identifier and
    without tool calls. *)

Definition canned (text : string) : message :=
  {| role := AI []; id := None; content := text |}.

Definition scenario_name : string := "Reliance Industries Ltd. (NSE:RELIANCE)".

Definition scenario_llm (fa ta : string) (who : loop) (n : nat) : result message :=
  match who with
  | NameResolution => Ok (canned scenario_name)
  | FundamentalAnalysis => Ok (canned fa)
  | TechnicalAnalysis => Ok (canned ta)
  end.

Definition scenario_reasoning (n : nat) : result message := Ok (canned "buy").

Definition scenario_input : State :=
  {| messages := [user "Analyze Reliance Industries"];
     stock_name := None;
     fundamental_analysis := None;
     technical_analysis := None;
     decision := None |}.

(** A model that asks for one search before it answers, a tool server that
    always answers, and a model whose calls fail. *)
Definition sample_call (who : loop) : ToolCall :=
  {| call_name := "perplexity_ask";
     call_args := "{}";
     call_id := match who with
                | NameResolution => "call-n"
                | FundamentalAnalysis => "call-f"
                | TechnicalAnalysis => "call-t"
                end |}.

Definition sample_request (who : loop) : message :=
  {| role := AI [sample_call who];
     id := Some match who with
                | NameResolution => "run-n0"
                | FundamentalAnalysis => "run-f0"
                | TechnicalAnalysis => "run-t0"
                end;
     content := "" |}.

Definition sample_answer (who : loop) : message :=
  {| role := AI [];
     id := Some match who with
                | NameResolution => "run-n1"
                | FundamentalAnalysis => "run-f1"
                | TechnicalAnalysis => "run-t1"
                end;
     content := match who with
                | NameResolution => "Tata Motors Ltd. (NSE:TATAMOTORS)"
                | FundamentalAnalysis => "Strong revenue growth"
                | TechnicalAnalysis => "Bullish breakout"
                end |}.

Definition sample_llm (who : loop) (n : nat) : result message :=
  match n with
  | 0 => Ok (sample_request who)
  | _ => Ok (sample_answer who)
  end.

Definition sample_tools (call : ToolCall) : result string :=
  Ok ("result of " ++ call_id call)%string.

Definition sample_tool_result (who : loop) : message :=
  {| role := Tool "perplexity_ask" (call_id (sample_call who));
     id := None;
     content := ("result of " ++ call_id (sample_call who))%string |}.

Definition failing_llm (who : loop) (n : nat) : result message :=
  match who with
  | FundamentalAnalysis => Raise (ModelError "quota exceeded")
  | _ => sample_llm who n
  end.

(** A loop about to call its model for the first time. *)
Definition sample_start (who : loop) : Config :=
  {| at_node := loop_node who;
     values := {| messages := match who with
                              | NameResolution => [user "Analyze Tata Motors"]
                              | _ => []
                              end;
                  stock_name := match who with
                                | NameResolution => None
                                | _ => Some "Tata Motors Ltd. (NSE:TATAMOTORS)"
                                end;
                  fundamental_analysis := None;
                  technical_analysis := None;
                  decision := None |};
     world := fresh_world;
     trail := [] |}.

(** ** Process-wide configuration

    Importing the module runs its top-level statements in order: the
    tool-bound model is built from the first environment variable, then the
    reasoning model from the second, then [get_tools] builds the client of
    the search server with the API key from the third and asks it for its
    tools.  Environment variables are read by subscript. *)

(** [os.environ], after the [.env] file is loaded. *)
Definition Environ : Type := list (string * string).

(** [os.environ[key]] *)
Definition environ_get (environ : Environ) (key : string) : result string :=
  subscript key (assoc key environ).

(** What [init_chat_model] is called with. *)
Record ChatModelConfig : Type := mkChatModelConfig {
  model : string;
  azure_deployment : string
}.

(** One entry of the servers handed to [MultiServerMCPClient]. *)
Record ServerConfig : Type := mkServerConfig {
  command : string;
  args : list string;
  env : list (string * string);
  transport : string
}.

Module Startup.

Section ModuleImport.

(** The model objects.  [init_chat_model] builds one at once: the library
    looks for the service's credentials in the environment and can raise. *)
Variable ChatModel : Type.
Variable init_chat_model : Environ -> ChatModelConfig -> result ChatModel.
(** [client.get_tools()]: the answer of the client built from the given
    servers. *)
Variable discover : list (string * ServerConfig) -> result (list string).

Definition llm (environ : Environ) : result ChatModel :=
  rbind (environ_get environ "AZURE_OPENAI_DEPLOYMENT_NAME") (fun deployment =>
  init_chat_model environ
    {| model := "azure_openai:gpt-4.1"; azure_deployment := deployment |}).

Definition reasoning_llm (environ : Environ) : result ChatModel :=
  rbind (environ_get environ "AZURE_OPENAI_REASONING_DEPLOYMENT_NAME") (fun deployment =>
  init_chat_model environ
    {| model := "azure_openai:o3"; azure_deployment := deployment |}).

(** The servers [get_tools] configures: one, named [perplexity]. *)
Definition get_tools_servers (environ : Environ)
  : result (list (string * ServerConfig)) :=
  rbind (environ_get environ "PERPLEXITY_API_KEY") (fun key =>
  Ok [("perplexity",
       {| command := "npx";
          args := ["chand45-perplexity-ask@latest"];
          env := [("PERPLEXITY_API_KEY", key)];
          transport := "stdio" |})]).

Definition get_tools (environ : Environ)
  : result (list string * list (string * ServerConfig)) :=
  rbind (get_tools_servers environ) (fun client =>
  rbind (discover client) (fun tools => Ok (tools, client))).

Record ModuleState : Type := mkModuleState {
  the_llm : ChatModel;
  the_reasoning_llm : ChatModel;
  the_tools : list string;
  mcp_client : list (string * ServerConfig)
}.

(** The module-level statements, in source order. *)
Definition import_module (environ : Environ) : result ModuleState :=
  rbind (llm environ) (fun llm =>
  rbind (reasoning_llm environ) (fun reasoning =>
  rbind (get_tools environ) (fun tc =>
  Ok {| the_llm := llm;
        the_reasoning_llm := reasoning;
        the_tools := fst tc;
        mcp_client := snd tc |}))).

End ModuleImport.

End Startup.

(** ** Freshness by identifiers *)

Fixpoint fresh_names (seen names : list string) : Prop :=
  match names with
  | [] => True
  | i :: t => ~ In i seen /\ fresh_names (i :: seen) t
  end.

(** What an error raised by the workflow can come from: an invocation of
    the tool-bound model, an invocation of the reasoning model, or a tool
    call. *)
Definition raised_outside
           (llms_with_tools : loop -> nat -> result message)
           (reasoning_llm : nat -> result message)
           (tools : ToolCall -> result string) (e : error) : Prop :=
  (exists k i, llms_with_tools k i = Raise e) \/
  (exists i, reasoning_llm i = Raise e) \/
  (exists call, tools call = Raise e).

(** More sample environments: a model that asks for a search on every
    invocation, one that fails after its first request, a tool server that
    is down, and a complete environment. *)
Definition eager_llm (who : loop) (n : nat) : result message :=
  Ok {| role := AI [sample_call who]; id := None; content := "" |}.

Definition flaky_llm (who : loop) (n : nat) : result message :=
  match n with
  | 0 => Ok (sample_request who)
  | _ => Raise (ModelError "timed out")
  end.

Definition broken_tools (call : ToolCall) : result string :=
  Raise (ToolError "server is down").

Definition sample_environ : Environ :=
  [("AZURE_OPENAI_DEPLOYMENT_NAME", "gpt41-prod");
   ("AZURE_OPENAI_API_KEY", "azure-key");
   ("PERPLEXITY_API_KEY", "pplx-key");
   ("AZURE_OPENAI_REASONING_DEPLOYMENT_NAME", "o3-prod")].

(** A model library that needs the key of the service in the environment and
    returns the configuration as the model object. *)
Definition sample_init_chat_model (environ : Environ) (config : ChatModelConfig)
  : result ChatModelConfig :=
  match assoc "AZURE_OPENAI_API_KEY" environ with
  | Some _ => Ok config
  | None => Raise (ValueError "missing credentials")
  end.

(** * Properties *)

Example format_demo :
  Fmt.format "a {{x}} {y}!" [("y", "b")] = Ok "a {x} b!".
Proof. reflexivity. Qed.

Example format_missing_key :
  Fmt.format "{x} and {y}" [("x", "a")] = Raise (KeyError "y").
Proof. reflexivity. Qed.

(** A message whose identifier is stored replaces the stored message; one
    without identifier is appended. *)
Example add_messages_by_id :
  add_messages [mkMessage Human (Some "1") "old"; mkMessage Human None "kept"]
               [mkMessage Human (Some "1") "new"; mkMessage Human None "added"]
  = [mkMessage Human (Some "1") "new"; mkMessage Human None "kept";
     mkMessage Human None "added"].
Proof. reflexivity. Qed.

(** ** The reducer on fresh identifiers *)

Lemma ids_app (l1 l2 : list message) : ids (l1 ++ l2) = ids l1 ++ ids l2.
Proof.
  induction l1 as [|m l1 IH]; simpl; [reflexivity|].
  destruct (id m); simpl; now rewrite IH.
Qed.

Lemma replace_last_fresh (i : string) (m : message) (l : list message) :
  ~ In i (ids l) -> replace_last i m l = None.
Proof.
  induction l as [|x l IH]; simpl; intros Hi; [reflexivity|].
  unfold has_id. destruct (id x) as [j|] eqn:Ex.
  - simpl in Hi. rewrite IH by tauto.
    destruct (String.eqb_spec i j); [subst; tauto | reflexivity].
  - now rewrite IH.
Qed.

Lemma fresh_ids_ext (seen seen' : list string) (batch : list message) :
  (forall x, In x seen' -> In x seen) ->
  fresh_ids seen batch -> fresh_ids seen' batch.
Proof.
  revert seen seen'. induction batch as [|m batch IH]; simpl; intros seen seen' Hsub H.
  - exact I.
  - destruct (id m) as [i|].
    + destruct H as [Hi H]. split; [auto|].
      apply (IH (i :: seen)); [|exact H].
      simpl. intros x [->|Hx]; auto.
    + eauto.
Qed.

Lemma fresh_ids_app (seen : list string) (b1 b2 : list message) :
  fresh_ids seen (b1 ++ b2) ->
  fresh_ids seen b1 /\ fresh_ids (seen ++ ids b1) b2.
Proof.
  revert seen. induction b1 as [|m b1 IH]; simpl; intros seen H.
  - split; [exact I|]. now rewrite app_nil_r.
  - destruct (id m) as [i|].
    + destruct H as [Hi H]. apply IH in H. destruct H as [H1 H2].
      repeat split; auto.
      eapply fresh_ids_ext; [|exact H2].
      intros x Hx. rewrite in_app_iff in *. simpl in *. tauto.
    + auto.
Qed.

Lemma add_messages_fresh (l batch : list message) :
  fresh_ids (ids l) batch -> add_messages l batch = l ++ batch.
Proof.
  unfold add_messages.
  revert l. induction batch as [|m batch IH]; simpl; intros l H.
  - now rewrite app_nil_r.
  - assert (Hadd : add_message l m = l ++ [m]).
    { unfold add_message. destruct (id m) as [i|]; [|reflexivity].
      destruct H as [Hi _]. now rewrite replace_last_fresh. }
    rewrite Hadd, IH; [now rewrite <- app_assoc|].
    rewrite ids_app. simpl. destruct (id m) as [i|].
    + destruct H as [_ H]. eapply fresh_ids_ext; [|exact H].
      intros x Hx. rewrite in_app_iff in Hx. simpl in *. tauto.
    + simpl. now rewrite app_nil_r.
Qed.

Lemma unnamed_ids (batch : list message) :
  Forall (fun m => id m = None) batch -> ids batch = [].
Proof.
  induction 1 as [|m batch Hm _ IH]; simpl; [reflexivity|]. now rewrite Hm.
Qed.

Lemma unnamed_fresh (seen : list string) (batch : list message) :
  Forall (fun m => id m = None) batch -> fresh_ids seen batch.
Proof.
  induction 1 as [|m batch Hm _ IH]; simpl; [exact I|]. now rewrite Hm.
Qed.

Lemma last_message_app (l : list message) (m : message) :
  last_message (l ++ [m]) = Some m.
Proof.
  induction l as [|x l IH]; [reflexivity|].
  simpl. destruct (l ++ [m]) eqn:E; [now destruct l | exact IH].
Qed.

(** ** One step of a tool loop *)

Section LoopSteps.

Variable llms_with_tools : loop -> nat -> result message.
Variable reasoning_llm : nat -> result message.
Variable tools : ToolCall -> result string.
Variable schedule : list bool.

Let G (k : loop) : Graph :=
  loop_graph llms_with_tools reasoning_llm tools schedule k.

Lemma run_tools_unnamed (calls : list ToolCall) (outs : list message) :
  run_tools tools calls = Ok outs -> Forall (fun m => id m = None) outs.
Proof.
  revert outs. induction calls as [|c calls IH]; simpl; intros outs H.
  - injection H as <-. constructor.
  - unfold run_tool in H. destruct (tools c); simpl in H; try discriminate.
    destruct (run_tools tools calls); simpl in H; try discriminate.
    injection H as <-. constructor; [reflexivity | now apply IH].
Qed.

Lemma run_tools_answers (calls : list ToolCall) (outs : list message) :
  run_tools tools calls = Ok outs ->
  map role outs = map (fun c => Tool (call_name c) (call_id c)) calls.
Proof.
  revert outs. induction calls as [|c calls IH]; simpl; intros outs H.
  - now injection H as <-.
  - unfold run_tool in H. destruct (tools c); simpl in H; try discriminate.
    destruct (run_tools tools calls); simpl in H; try discriminate.
    injection H as <-. simpl. f_equal. now apply IH.
Qed.

Lemma run_tools_length (calls : list ToolCall) (outs : list message) :
  run_tools tools calls = Ok outs -> length outs = length calls.
Proof.
  intros H. apply run_tools_answers in H.
  apply (f_equal (@length _)) in H. now rewrite !length_map in H.
Qed.

(** The model node of loop [k], then the routing condition. *)
Lemma step_model_form (k : loop) (c : Config) (name : string) :
  at_node c = loop_node k ->
  knows_stock k name (values c) ->
  step (G k) c =
  rbind (llms_with_tools k (length (llm_log (world c)))) (fun r =>
  let u := if no_tool_calls r then concludes k r else asks r in
  let s' := apply_update (values c) u in
  rbind (tools_condition s') (fun answer =>
  rbind (match assoc answer [("tools", loop_tools k); ("__end__", loop_exit k)] with
         | Some target => Ok target
         | None => Raise (KeyError answer)
         end) (fun target =>
  Ok {| at_node := target;
        values := s';
        world := {| llm_log := llm_log (world c)
                               ++ [prompt_prefix k name ++ messages (values c)];
                    reasoning_log := reasoning_log (world c) |};
        trail := trail c ++ [(loop_node k, u)] |}))).
Proof.
  intros Hat Hname. unfold step. rewrite Hat.
  destruct k; simpl in Hname |- *;
    unfold get_stock_name, get_fundamental_analysis, get_technical_analysis,
      bind, lift, ainvoke, ret; try rewrite Hname; simpl;
    destruct (llms_with_tools _ _) as [r| |]; simpl; try reflexivity;
    destruct (no_tool_calls r); simpl; unfold route; simpl;
    destruct (tools_condition _); reflexivity.
Qed.

(** The tool node of loop [k], then the edge back. *)
Lemma step_tools_form (k : loop) (c : Config) :
  at_node c = loop_tools k ->
  step (G k) c =
  match last_message (messages (values c)) with
  | None => Raise (ValueError "No message found in input")
  | Some m =>
      match tool_calls_attr m with
      | None => Raise (ValueError "Last message is not an AIMessage")
      | Some calls =>
          rbind (run_tools tools calls) (fun outs =>
          Ok {| at_node := loop_node k;
                values := apply_update (values c) (tool_update outs);
                world := world c;
                trail := trail c ++ [(loop_tools k, tool_update outs)] |})
      end
  end.
Proof.
  intros Hat. unfold step. rewrite Hat.
  destruct k; simpl; unfold ToolNode;
    destruct (last_message _) as [m|]; try reflexivity;
    destruct (tool_calls_attr m) as [calls|]; try reflexivity;
    unfold bind, lift, ret; simpl;
    destruct (run_tools tools calls); reflexivity.
Qed.

End LoopSteps.

(** ** Runs of a tool loop *)

Lemma steps_until_last (stop : string) (n : nat) (g : Graph) (c : Config) :
  steps_until stop (S n) g c =
  rbind (steps_until stop n g c) (fun c' =>
    if String.eqb (at_node c') stop then Ok c' else step g c').
Proof.
  revert c. induction n as [|n IH]; intros c.
  - simpl. destruct (String.eqb (at_node c) stop) eqn:E; simpl.
    + reflexivity.
    + destruct (step g c); reflexivity.
  - change (steps_until stop (S (S n)) g c)
      with (if String.eqb (at_node c) stop then Ok c
            else rbind (step g c) (steps_until stop (S n) g)).
    change (steps_until stop (S n) g c)
      with (if String.eqb (at_node c) stop then Ok c
            else rbind (step g c) (steps_until stop n g)).
    destruct (String.eqb (at_node c) stop) eqn:E.
    + simpl. now rewrite E.
    + destruct (step g c) as [c1| |]; simpl; [apply IH | reflexivity | reflexivity].
Qed.

Lemma steps_until_stopped (stop : string) (n : nat) (g : Graph) (c : Config) :
  at_node c = stop -> steps_until stop n g c = Ok c.
Proof.
  intros H. destruct n; simpl; [reflexivity|].
  now rewrite H, String.eqb_refl.
Qed.

Lemma steps_until_add (stop : string) (n m : nat) (g : Graph) (c : Config) :
  steps_until stop (n + m) g c =
  rbind (steps_until stop n g c) (steps_until stop m g).
Proof.
  revert c. induction n as [|n IH]; intros c; simpl.
  - reflexivity.
  - destruct (String.eqb (at_node c) stop) eqn:E; simpl.
    + symmetry. apply steps_until_stopped. now apply String.eqb_eq.
    + destruct (step g c); simpl; auto.
Qed.

Lemma model_inputs_app (prefix stored : list message) (b1 b2 : list (list message)) :
  model_inputs prefix stored (b1 ++ b2) =
  model_inputs prefix stored b1 ++ model_inputs prefix (stored ++ concat b1) b2.
Proof.
  revert stored. induction b1 as [|b b1 IH]; simpl; intros stored.
  - now rewrite app_nil_r.
  - now rewrite IH, <- app_assoc.
Qed.

Lemma model_inputs_length (prefix stored : list message) (b : list (list message)) :
  length (model_inputs prefix stored b) = length b.
Proof.
  revert stored. induction b as [|x b IH]; simpl; intros; [reflexivity|].
  now rewrite IH.
Qed.

Lemma answers_snoc (model : nat -> result message) (base : nat)
      (rs : list message) (r : message) :
  answers model base rs -> model (base + length rs) = Ok r ->
  answers model base (rs ++ [r]).
Proof.
  intros H Hr i x Hi.
  destruct (Nat.lt_ge_cases i (length rs)) as [Hlt|Hge].
  - rewrite nth_error_app1 in Hi by exact Hlt. now apply H.
  - rewrite nth_error_app2 in Hi by exact Hge.
    destruct (i - length rs) as [|d] eqn:Ed; simpl in Hi.
    + injection Hi as <-. replace i with (length rs) by lia. exact Hr.
    + now destruct d.
Qed.

Lemma answers_at (model : nat -> result message) (base : nat)
      (rs rs' : list message) (r : message) :
  answers model base (rs ++ r :: rs') -> model (base + length rs) = Ok r.
Proof.
  intros H. apply H. rewrite nth_error_app2 by lia.
  now rewrite Nat.sub_diag.
Qed.

Section LoopRuns.

Variable llms_with_tools : loop -> nat -> result message.
Variable reasoning_llm : nat -> result message.
Variable tools : ToolCall -> result string.
Variable schedule : list bool.

Let G (k : loop) : Graph :=
  loop_graph llms_with_tools reasoning_llm tools schedule k.

Let inv := loop_inv llms_with_tools tools.

Lemma transcript_app (r1 r2 : list round) :
  transcript (r1 ++ r2) = transcript r1 ++ transcript r2.
Proof. unfold transcript. apply flat_map_app. Qed.

Lemma transcript_ids (rounds : list round) :
  Forall (round_ok tools) rounds ->
  ids (transcript rounds) = ids (map fst rounds).
Proof.
  induction 1 as [|[r outs] rounds [_ Hrun] _ IH]; [reflexivity|].
  simpl in Hrun.
  change (transcript ((r, outs) :: rounds)) with ((r :: outs) ++ transcript rounds).
  change (map fst ((r, outs) :: rounds)) with ([r] ++ map fst rounds).
  rewrite !ids_app, IH. f_equal.
  change (r :: outs) with ([r] ++ outs). rewrite ids_app.
  rewrite (unnamed_ids _ (run_tools_unnamed _ _ _ Hrun)). apply app_nil_r.
Qed.

Lemma batches_length (rounds : list round) (ph : phase) :
  length (batches rounds ph) = length rounds + length (phase_messages ph).
Proof. unfold batches. now rewrite length_app, !length_map. Qed.

Lemma concat_rounds (rounds : list round) :
  concat (map round_messages rounds) = transcript rounds.
Proof. unfold transcript. symmetry. apply flat_map_concat_map. Qed.

Lemma State_ext (s1 s2 : State) :
  messages s1 = messages s2 ->
  stock_name s1 = stock_name s2 ->
  fundamental_analysis s1 = fundamental_analysis s2 ->
  technical_analysis s1 = technical_analysis s2 ->
  decision s1 = decision s2 ->
  s1 = s2.
Proof. destruct s1, s2; simpl; intros; subst; reflexivity. Qed.

Lemma model_inputs_snoc (prefix stored : list message) (rounds : list round)
      (batch : list message) :
  model_inputs prefix stored (map round_messages rounds ++ [batch]) =
  model_inputs prefix stored (map round_messages rounds)
  ++ [prefix ++ stored ++ transcript rounds].
Proof. now rewrite model_inputs_app, concat_rounds. Qed.

Lemma inv_start (k : loop) (name : string) (c0 : Config) :
  at_node c0 = loop_node k ->
  inv k name c0 c0 [] awaiting_model.
Proof.
  intros Hat. constructor; simpl; try easy.
  - unfold loop_values. simpl. rewrite app_nil_r. now destruct (values c0).
  - now rewrite app_nil_r.
  - now rewrite app_nil_r.
  - intros [|i] r Hi; discriminate.
Qed.

Lemma knows_stock_kept (k : loop) (name : string) (s0 : State)
      (rounds : list round) (ph : phase) :
  knows_stock k name s0 ->
  knows_stock k name (loop_values k s0 rounds ph).
Proof.
  intros H. destruct k; simpl in *; auto; now destruct ph.
Qed.

(** A model step from [awaiting_model]. *)
Lemma inv_model (k : loop) (name : string) (c0 c : Config)
      (rounds : list round) (r : message) :
  knows_stock k name (values c0) ->
  inv k name c0 c rounds awaiting_model ->
  llms_with_tools k (length (llm_log (world c0)) + length rounds) = Ok r ->
  fresh_ids (ids (messages (values c0))) (map fst rounds ++ [r]) ->
  exists c',
    step (G k) c = Ok c' /\
    inv k name c0 c' rounds (if no_tool_calls r then done r else awaiting_tools r).
Proof.
  intros Hname [Hrounds _ Hnode Hvalues Htrail Hlog Hreason Hans] Hr Hfresh.
  simpl in Hnode.
  assert (Hknows : knows_stock k name (values c)).
  { rewrite Hvalues. now apply knows_stock_kept. }
  unfold G. rewrite (step_model_form _ _ _ _ _ _ _ Hnode Hknows).
  assert (Hlen : length (llm_log (world c))
                 = length (llm_log (world c0)) + length rounds).
  { rewrite Hlog, length_app, model_inputs_length, batches_length. simpl. lia. }
  rewrite Hlen, Hr. cbn [rbind].
  set (u := if no_tool_calls r then concludes k r else asks r).
  assert (Hu : messages u = [r]).
  { unfold u. destruct (no_tool_calls r); [now destruct k | reflexivity]. }
  assert (Hmsgs : messages (apply_update (values c) u)
                  = messages (values c0) ++ transcript rounds ++ [r]).
  { simpl. rewrite Hu, add_messages_fresh.
    - rewrite Hvalues. simpl. now rewrite app_nil_r, <- app_assoc.
    - rewrite Hvalues. simpl. rewrite app_nil_r, ids_app, transcript_ids by exact Hrounds.
      apply fresh_ids_app in Hfresh. apply Hfresh. }
  assert (Hans' : answers (llms_with_tools k) (length (llm_log (world c0)))
                    (map fst rounds ++ [r])).
  { apply answers_snoc.
    - simpl in Hans. now rewrite app_nil_r in Hans.
    - now rewrite length_map. }
  unfold tools_condition. rewrite Hmsgs, !app_assoc, last_message_app.
  subst u. destruct (no_tool_calls r) eqn:Hno; simpl.
  - eexists. split; [reflexivity|].
    constructor; simpl; auto.
    + apply State_ext; [exact Hmsgs | ..]; rewrite Hvalues; now destruct k.
    + rewrite Htrail. simpl. now rewrite app_nil_r, <- app_assoc.
    + rewrite Hlog. unfold batches. simpl. rewrite app_nil_r, model_inputs_snoc.
      rewrite <- app_assoc. do 3 f_equal. rewrite Hvalues. simpl.
      now rewrite app_nil_r.
  - eexists. split; [reflexivity|].
    constructor; simpl; auto.
    + apply State_ext; [exact Hmsgs | ..]; rewrite Hvalues; reflexivity.
    + rewrite Htrail. simpl. now rewrite app_nil_r, <- app_assoc.
    + rewrite Hlog. unfold batches. simpl. rewrite app_nil_r, model_inputs_snoc.
      rewrite <- app_assoc. do 3 f_equal. rewrite Hvalues. simpl.
      now rewrite app_nil_r.
Qed.

(** A tool step from [awaiting_tools]. *)
Lemma inv_tools (k : loop) (name : string) (c0 c : Config)
      (rounds : list round) (r : message) (outs : list message) :
  inv k name c0 c rounds (awaiting_tools r) ->
  run_tools tools (requested r) = Ok outs ->
  exists c',
    step (G k) c = Ok c' /\
    inv k name c0 c' (rounds ++ [(r, outs)]) awaiting_model.
Proof.
  intros [Hrounds Hph Hnode Hvalues Htrail Hlog Hreason Hans] Hrun.
  simpl in Hnode, Hph.
  unfold G. rewrite (step_tools_form _ _ _ _ _ _ Hnode).
  assert (Hm : messages (values c)
               = (messages (values c0) ++ transcript rounds) ++ [r]).
  { rewrite Hvalues. simpl. now rewrite app_assoc. }
  rewrite Hm, last_message_app.
  assert (Hcalls : tool_calls_attr r = Some (requested r)).
  { unfold no_tool_calls, requested in *. now destruct (tool_calls_attr r). }
  rewrite Hcalls, Hrun. simpl.
  eexists. split; [reflexivity|].
  constructor; simpl; auto.
  - apply Forall_app. split; [exact Hrounds|]. constructor; [|constructor].
    split; [exact Hph | exact Hrun].
  - apply State_ext; simpl; try (rewrite Hvalues; reflexivity).
    rewrite add_messages_fresh.
    + rewrite Hm, transcript_app. simpl. rewrite !app_nil_r.
      rewrite <- !app_assoc. reflexivity.
    + apply unnamed_fresh. eapply run_tools_unnamed. exact Hrun.
  - rewrite Htrail, flat_map_app. simpl. rewrite !app_nil_r, <- !app_assoc.
    reflexivity.
  - rewrite Hlog. unfold batches. simpl.
    rewrite map_app, !app_nil_r. simpl. now rewrite !model_inputs_snoc.
  - now rewrite map_app, app_nil_r.
Qed.

Lemma inv_invocations (k : loop) (name : string) (c0 c : Config)
      (rounds : list round) (ph : phase) :
  inv k name c0 c rounds ph ->
  length (llm_log (world c)) =
  length (llm_log (world c0)) + length rounds + length (phase_messages ph).
Proof.
  intros H. rewrite (inv_log _ _ _ _ _ _ _ _ H).
  rewrite length_app, model_inputs_length, batches_length. lia.
Qed.

Lemma inv_knows (k : loop) (name : string) (c0 c : Config)
      (rounds : list round) (ph : phase) :
  knows_stock k name (values c0) ->
  inv k name c0 c rounds ph ->
  knows_stock k name (values c).
Proof.
  intros Hname H. rewrite (inv_values _ _ _ _ _ _ _ _ H).
  now apply knows_stock_kept.
Qed.

Lemma rounds_request_tools (rounds : list round) :
  Forall (round_ok tools) rounds -> Forall requests_tools (map fst rounds).
Proof.
  induction 1 as [|rd rounds [Hno _] _ IH]; simpl; constructor; auto.
Qed.

Lemma loop_exit_not_node (k : loop) : loop_node k <> loop_exit k.
Proof. destruct k; discriminate. Qed.

Lemma loop_exit_not_tools (k : loop) : loop_tools k <> loop_exit k.
Proof. destruct k; discriminate. Qed.

(** Any successful step of a loop that is not done is the model step or
    the tool step of the invariant, and appends to the stored messages. *)
Lemma inv_step (k : loop) (name : string) (c0 c c' : Config)
      (rounds : list round) (ph : phase) :
  knows_stock k name (values c0) ->
  fresh_model (llms_with_tools k) (length (llm_log (world c0)))
              (ids (messages (values c0))) ->
  inv k name c0 c rounds ph ->
  at_node c <> loop_exit k ->
  step (G k) c = Ok c' ->
  exists rounds' ph',
    inv k name c0 c' rounds' ph' /\
    ((exists r, ph = awaiting_model /\ rounds' = rounds /\
                (ph' = awaiting_tools r \/ ph' = done r) /\
                messages (values c') = messages (values c) ++ [r])
     \/
     (exists r outs, ph = awaiting_tools r /\ rounds' = rounds ++ [(r, outs)] /\
                     ph' = awaiting_model /\
                     messages (values c') = messages (values c) ++ outs)).
Proof.
  intros Hname Hfresh Hinv Hnot Hstep.
  destruct ph as [|r|r].
  - pose proof (inv_knows _ _ _ _ _ _ Hname Hinv) as Hknows.
    pose proof (inv_invocations _ _ _ _ _ _ Hinv) as Hlen. simpl in Hlen.
    pose proof Hstep as Hform. unfold G in Hform.
    rewrite (step_model_form _ _ _ _ _ _ _ (inv_node _ _ _ _ _ _ _ _ Hinv) Hknows)
      in Hform.
    rewrite Hlen, Nat.add_0_r in Hform.
    destruct (llms_with_tools k _) as [r| |] eqn:Hr; try discriminate.
    assert (Hans : answers (llms_with_tools k) (length (llm_log (world c0)))
                     (map fst rounds ++ [r])).
    { apply answers_snoc.
      - pose proof (inv_answers _ _ _ _ _ _ _ _ Hinv) as H. simpl in H.
        now rewrite app_nil_r in H.
      - now rewrite length_map. }
    destruct (inv_model k name c0 c rounds r Hname Hinv Hr) as [c1 [Hstep1 Hinv1]].
    { apply Hfresh; [|exact Hans].
      apply rounds_request_tools. exact (inv_rounds _ _ _ _ _ _ _ _ Hinv). }
    assert (c1 = c') by (unfold G in *; congruence). subst c1.
    exists rounds. eexists. split; [exact Hinv1|]. left. exists r.
    repeat split.
    + destruct (no_tool_calls r); auto.
    + rewrite (inv_values _ _ _ _ _ _ _ _ Hinv1), (inv_values _ _ _ _ _ _ _ _ Hinv).
      destruct (no_tool_calls r); simpl; now rewrite app_nil_r, <- app_assoc.
  - pose proof Hstep as Hform. unfold G in Hform.
    rewrite (step_tools_form _ _ _ _ _ _ (inv_node _ _ _ _ _ _ _ _ Hinv)) in Hform.
    assert (Hm : messages (values c)
                 = (messages (values c0) ++ transcript rounds) ++ [r]).
    { rewrite (inv_values _ _ _ _ _ _ _ _ Hinv). simpl. now rewrite app_assoc. }
    rewrite Hm, last_message_app in Hform.
    pose proof (inv_phase _ _ _ _ _ _ _ _ Hinv) as Hph. simpl in Hph.
    assert (Hcalls : tool_calls_attr r = Some (requested r)).
    { unfold no_tool_calls, requested in *. now destruct (tool_calls_attr r). }
    rewrite Hcalls in Hform.
    destruct (run_tools tools (requested r)) as [outs| |] eqn:Hrun; try discriminate.
    destruct (inv_tools k name c0 c rounds r outs Hinv Hrun) as [c1 [Hstep1 Hinv1]].
    assert (c1 = c') by (unfold G in *; congruence). subst c1.
    exists (rounds ++ [(r, outs)]), awaiting_model. split; [exact Hinv1|].
    right. exists r, outs. repeat split.
    rewrite (inv_values _ _ _ _ _ _ _ _ Hinv1), (inv_values _ _ _ _ _ _ _ _ Hinv).
    simpl. rewrite transcript_app. simpl. rewrite !app_nil_r, <- !app_assoc.
    reflexivity.
  - exfalso. apply Hnot. exact (inv_node _ _ _ _ _ _ _ _ Hinv).
Qed.

(** Every configuration a loop reaches from an invariant configuration
    satisfies the invariant, and its stored messages extend the earlier
    ones. *)
Lemma loop_invariant_from (k : loop) (name : string) (c0 : Config) (n : nat) :
  knows_stock k name (values c0) ->
  fresh_model (llms_with_tools k) (length (llm_log (world c0)))
              (ids (messages (values c0))) ->
  forall c c' rounds ph,
    inv k name c0 c rounds ph ->
    steps_until (loop_exit k) n (G k) c = Ok c' ->
    exists rounds' ph',
      inv k name c0 c' rounds' ph' /\
      exists suffix, messages (values c') = messages (values c) ++ suffix.
Proof.
  intros Hname Hfresh. induction n as [|n IH]; intros c c' rounds ph Hinv Hrun.
  - simpl in Hrun. injection Hrun as <-. exists rounds, ph. split; [exact Hinv|].
    exists []. now rewrite app_nil_r.
  - rewrite steps_until_last in Hrun.
    destruct (steps_until (loop_exit k) n (G k) c) as [c1| |] eqn:Hn;
      simpl in Hrun; try discriminate.
    destruct (IH _ _ _ _ Hinv Hn) as [rounds1 [ph1 [Hinv1 [suffix1 Hs1]]]].
    destruct (String.eqb_spec (at_node c1) (loop_exit k)) as [Hexit|Hexit].
    + injection Hrun as <-. exists rounds1, ph1. split; [exact Hinv1|].
      now exists suffix1.
    + destruct (inv_step _ _ _ _ _ _ _ Hname Hfresh Hinv1 Hexit Hrun)
        as [rounds2 [ph2 [Hinv2 Hgrow]]].
      exists rounds2, ph2. split; [exact Hinv2|].
      destruct Hgrow as [[r [_ [_ [_ Hm]]]] | [r [outs [_ [_ [_ Hm]]]]]];
        rewrite Hm, Hs1, <- app_assoc; eauto.
Qed.

Lemma loop_invariant (k : loop) (name : string) (c0 c : Config) (n : nat) :
  at_node c0 = loop_node k ->
  knows_stock k name (values c0) ->
  fresh_model (llms_with_tools k) (length (llm_log (world c0)))
              (ids (messages (values c0))) ->
  loop_steps llms_with_tools reasoning_llm tools schedule k n c0 = Ok c ->
  exists rounds ph, inv k name c0 c rounds ph.
Proof.
  intros Hat Hname Hfresh Hrun.
  destruct (loop_invariant_from k name c0 n Hname Hfresh c0 c [] awaiting_model
              (inv_start k name c0 Hat) Hrun) as [rounds [ph [H _]]].
  now exists rounds, ph.
Qed.

End LoopRuns.

(** ** Loops that finish *)

Lemma steps_until_step (stop : string) (n : nat) (g : Graph) (c c1 : Config) :
  at_node c <> stop -> step g c = Ok c1 ->
  steps_until stop (S n) g c = steps_until stop n g c1.
Proof.
  intros Hne Hstep. simpl.
  destruct (String.eqb_spec (at_node c) stop); [contradiction|].
  now rewrite Hstep.
Qed.

Lemma step_trail (g : Graph) (c c' : Config) :
  step g c = Ok c' -> length (trail c') = S (length (trail c)).
Proof.
  unfold step. destruct (assoc (at_node c) (nodes g)) as [node|]; [|discriminate].
  destruct (node (values c) (world c)) as [uw| |]; simpl; try discriminate.
  destruct (route g (at_node c) _); simpl; try discriminate.
  intros H. injection H as <-. simpl. rewrite length_app. simpl. lia.
Qed.

Lemma steps_until_trail (stop : string) (n : nat) (g : Graph) (c c' : Config) :
  steps_until stop n g c = Ok c' -> length (trail c') <= length (trail c) + n.
Proof.
  revert c. induction n as [|n IH]; simpl; intros c H.
  - injection H as <-. lia.
  - destruct (String.eqb (at_node c) stop).
    + injection H as <-. lia.
    + destruct (step g c) as [c1| |] eqn:Hstep; simpl in H; try discriminate.
      apply IH in H. apply step_trail in Hstep. lia.
Qed.

Lemma answers_tail (model : nat -> result message) (base : nat)
      (r : message) (rs : list message) :
  answers model base (r :: rs) -> answers model (S base) rs.
Proof.
  intros H i x Hi. replace (S base + i) with (base + S i) by lia. now apply H.
Qed.

Lemma answers_agree (model : nat -> result message) (base : nat)
      (l1 l2 : list message) :
  answers model base l1 -> answers model base l2 ->
  length l1 <= length l2 -> exists rest, l2 = l1 ++ rest.
Proof.
  revert base l2. induction l1 as [|x l1 IH]; intros base l2 H1 H2 Hlen.
  - now exists l2.
  - destruct l2 as [|y l2]; [simpl in Hlen; lia|].
    pose proof (H1 0 x eq_refl) as Hx. pose proof (H2 0 y eq_refl) as Hy.
    assert (x = y) by congruence. subst y.
    destruct (IH (S base) l2) as [rest Hrest].
    + eapply answers_tail; eauto.
    + eapply answers_tail; eauto.
    + simpl in Hlen. lia.
    + exists rest. simpl. now rewrite Hrest.
Qed.

(** Fresh identifiers along one finishing run are all the freshness a loop
    that sees this run needs. *)
Lemma fresh_model_of_run (model : nat -> result message) (base : nat)
      (seen : list string) (heads : list message) (r_last : message) :
  answers model base (heads ++ [r_last]) ->
  no_tool_calls r_last = true ->
  fresh_ids seen (heads ++ [r_last]) ->
  fresh_model model base seen.
Proof.
  intros Hall Hlast Hfresh rs r Hrs Hans.
  assert (Hlen : length rs <= length heads).
  { destruct (Nat.le_gt_cases (length rs) (length heads)) as [H|H]; [exact H|].
    exfalso.
    destruct (nth_error rs (length heads)) as [x|] eqn:Hx.
    - assert (Hreq : requests_tools x).
      { rewrite Forall_forall in Hrs. apply Hrs. eapply nth_error_In; eauto. }
      assert (model (base + length heads) = Ok x).
      { apply Hans. rewrite nth_error_app1 by exact H. exact Hx. }
      pose proof (answers_at model base heads [] r_last Hall).
      assert (x = r_last) by congruence. subst x.
      unfold requests_tools in Hreq. congruence.
    - apply nth_error_None in Hx. lia. }
  destruct (answers_agree model base (rs ++ [r]) (heads ++ [r_last]) Hans Hall)
    as [rest Hrest].
  { rewrite !length_app. simpl. lia. }
  rewrite Hrest in Hfresh. apply fresh_ids_app in Hfresh. apply Hfresh.
Qed.

Lemma visits_app (node : string) (t1 t2 : list (string * State)) :
  visits node (t1 ++ t2) = visits node t1 + visits node t2.
Proof. unfold visits. now rewrite filter_app, length_app. Qed.

Lemma visits_rounds_tools (k : loop) (rounds : list round) :
  visits (loop_tools k) (flat_map (round_entries k) rounds) = length rounds.
Proof.
  induction rounds as [|rd rounds IH]; [reflexivity|].
  change (flat_map (round_entries k) (rd :: rounds))
    with (round_entries k rd ++ flat_map (round_entries k) rounds).
  rewrite visits_app, IH. destruct k; reflexivity.
Qed.

Lemma visits_rounds_node (k : loop) (rounds : list round) :
  visits (loop_node k) (flat_map (round_entries k) rounds) = length rounds.
Proof.
  induction rounds as [|rd rounds IH]; [reflexivity|].
  change (flat_map (round_entries k) (rd :: rounds))
    with (round_entries k rd ++ flat_map (round_entries k) rounds).
  rewrite visits_app, IH. destruct k; reflexivity.
Qed.

Lemma rounds_entries_length (k : loop) (rounds : list round) :
  length (flat_map (round_entries k) rounds) = 2 * length rounds.
Proof.
  induction rounds as [|rd rounds IH]; [reflexivity|].
  simpl in *. rewrite IH. lia.
Qed.

Section LoopProgress.

Variable llms_with_tools : loop -> nat -> result message.
Variable reasoning_llm : nat -> result message.
Variable tools : ToolCall -> result string.
Variable schedule : list bool.

Let G (k : loop) : Graph :=
  loop_graph llms_with_tools reasoning_llm tools schedule k.

Let inv := loop_inv llms_with_tools tools.

Lemma transcript_length (rounds : list round) :
  Forall (round_ok tools) rounds ->
  length (transcript rounds) =
  length rounds + list_sum (map (fun rd => length (requested (fst rd))) rounds).
Proof.
  induction 1 as [|[r outs] rounds [_ Hrun] _ IH]; [reflexivity|].
  simpl in Hrun |- *. rewrite length_app, IH.
  rewrite (run_tools_length _ _ _ Hrun). lia.
Qed.

(** From [awaiting_model], the rounds still to come and a last response
    without tool calls take the loop to its exit. *)
Lemma loop_progress (k : loop) (name : string) (c0 : Config) (r_last : message)
      (todo : list round) :
  knows_stock k name (values c0) ->
  no_tool_calls r_last = true ->
  Forall (round_ok tools) todo ->
  forall (finished_rounds : list round) (c : Config),
    inv k name c0 c finished_rounds awaiting_model ->
    answers (llms_with_tools k) (length (llm_log (world c0)))
            (map fst (finished_rounds ++ todo) ++ [r_last]) ->
    fresh_ids (ids (messages (values c0)))
              (map fst (finished_rounds ++ todo) ++ [r_last]) ->
    exists c',
      steps_until (loop_exit k) (2 * length todo + 1) (G k) c = Ok c' /\
      inv k name c0 c' (finished_rounds ++ todo) (done r_last).
Proof.
  intros Hname Hlast Htodo.
  induction Htodo as [|[r outs] todo [Hreq Hrun] _ IH];
    intros fin c Hinv Hans Hfresh.
  - rewrite app_nil_r in *.
    destruct (inv_model _ reasoning_llm _ schedule k name c0 c fin r_last Hname Hinv)
      as [c' [Hstep Hinv']].
    + rewrite <- (length_map fst fin). eapply answers_at. exact Hans.
    + exact Hfresh.
    + rewrite Hlast in Hinv'. exists c'. split; [|exact Hinv'].
      simpl. rewrite (inv_node _ _ _ _ _ _ _ _ Hinv). simpl.
      destruct (String.eqb_spec (loop_node k) (loop_exit k)) as [E|_].
      * now apply loop_exit_not_node in E.
      * fold (G k). unfold G in *. rewrite Hstep. reflexivity.
  - simpl in Hreq, Hrun.
    assert (Hsplit : map fst (fin ++ (r, outs) :: todo) ++ [r_last]
                     = map fst fin ++ r :: (map fst todo ++ [r_last])).
    { rewrite map_app. simpl. now rewrite <- app_assoc. }
    destruct (inv_model _ reasoning_llm _ schedule k name c0 c fin r Hname Hinv)
      as [c1 [Hstep1 Hinv1]].
    + rewrite <- (length_map fst fin). eapply answers_at. rewrite <- Hsplit. exact Hans.
    + rewrite Hsplit in Hfresh.
      replace (map fst fin ++ r :: map fst todo ++ [r_last])
        with ((map fst fin ++ [r]) ++ map fst todo ++ [r_last]) in Hfresh
        by (now rewrite <- app_assoc).
      apply fresh_ids_app in Hfresh. apply Hfresh.
    + rewrite Hreq in Hinv1.
      destruct (inv_tools _ reasoning_llm _ schedule k name c0 c1 fin r outs Hinv1 Hrun)
        as [c2 [Hstep2 Hinv2]].
      replace (fin ++ (r, outs) :: todo) with ((fin ++ [(r, outs)]) ++ todo) in *
        by (now rewrite <- app_assoc).
      destruct (IH _ _ Hinv2 Hans Hfresh) as [c' [Hrun' Hinv']].
      exists c'. split; [|exact Hinv'].
      replace (2 * length ((r, outs) :: todo) + 1)
        with (S (S (2 * length todo + 1))) by (simpl; lia).
      rewrite (steps_until_step _ _ _ c c1).
      * rewrite (steps_until_step _ _ _ c1 c2); [exact Hrun' | | exact Hstep2].
        rewrite (inv_node _ _ _ _ _ _ _ _ Hinv1). apply loop_exit_not_tools.
      * rewrite (inv_node _ _ _ _ _ _ _ _ Hinv). apply loop_exit_not_node.
      * exact Hstep1.
Qed.

End LoopProgress.

(** ** Rounds and invocations of a finishing loop *)

(** C1.  For each of the three tool loops: when the model's first [N]
    answers each request at least one tool call (every call answered by the
    tool server) and answer [N+1] requests none, the loop reaches its exit
    in exactly [2N+1] steps, having run the tool node [N] times and invoked
    the model [N+1] times; the stored messages are the initial ones followed
    by each response and its tool results in order, one entry per response
    plus one per tool result, and along the run the stored list only grows
    at its end.  Message identifiers are unique, as the provider and the
    reducer assign them. *)
Theorem tool_loop_rounds
    (llms_with_tools : loop -> nat -> result message)
    (reasoning_llm : nat -> result message)
    (tools : ToolCall -> result string) (schedule : list bool)
    (k : loop) (name : string) (c0 : Config)
    (rounds : list round) (r_last : message) :
  at_node c0 = loop_node k ->
  knows_stock k name (values c0) ->
  Forall (round_ok tools) rounds ->
  no_tool_calls r_last = true ->
  answers (llms_with_tools k) (length (llm_log (world c0)))
          (map fst rounds ++ [r_last]) ->
  fresh_ids (ids (messages (values c0))) (map fst rounds ++ [r_last]) ->
  let run n := loop_steps llms_with_tools reasoning_llm tools schedule k n c0 in
  let N := length rounds in
  exists c',
    run (2 * N + 1) = Ok c' /\
    at_node c' = loop_exit k /\
    (forall j cj, run j = Ok cj -> at_node cj = loop_exit k ->
                  2 * N + 1 <= j /\ cj = c') /\
    visits (loop_tools k) (trail c') = visits (loop_tools k) (trail c0) + N /\
    visits (loop_node k) (trail c') = visits (loop_node k) (trail c0) + N + 1 /\
    length (llm_log (world c')) = length (llm_log (world c0)) + N + 1 /\
    messages (values c') = messages (values c0) ++ transcript rounds ++ [r_last] /\
    length (messages (values c')) =
      length (messages (values c0)) + (N + 1)
      + list_sum (map (fun rd => length (requested (fst rd))) rounds) /\
    (forall j j' cj cj',
        j <= j' -> run j = Ok cj -> run j' = Ok cj' ->
        exists suffix, messages (values cj') = messages (values cj) ++ suffix).
Proof.
  intros Hat Hname Hrounds Hlast Hans Hfresh run N. subst N.
  destruct (loop_progress llms_with_tools reasoning_llm tools schedule
              k name c0 r_last rounds Hname Hlast Hrounds [] c0
              (inv_start _ _ k name c0 Hat) Hans Hfresh) as [c' [Hrun Hinv]].
  simpl in Hinv.
  pose proof (inv_trail _ _ _ _ _ _ _ _ Hinv) as Htrail. simpl in Htrail.
  pose proof (inv_values _ _ _ _ _ _ _ _ Hinv) as Hvalues.
  assert (Hmodel : fresh_model (llms_with_tools k) (length (llm_log (world c0)))
                     (ids (messages (values c0)))).
  { eapply fresh_model_of_run; eauto. }
  exists c'. split; [exact Hrun|]. split; [exact (inv_node _ _ _ _ _ _ _ _ Hinv)|].
  split; [|split; [|split; [|split; [|split; [|split]]]]].
  - intros j cj Hj Hexit.
    destruct (Nat.le_gt_cases (2 * length rounds + 1) j) as [Hle|Hgt].
    + split; [exact Hle|].
      unfold run, loop_steps in Hj.
      replace j with ((2 * length rounds + 1) + (j - (2 * length rounds + 1))) in Hj by lia.
      rewrite steps_until_add in Hj. rewrite Hrun in Hj. simpl in Hj.
      rewrite steps_until_stopped in Hj by exact (inv_node _ _ _ _ _ _ _ _ Hinv).
      congruence.
    + exfalso.
      pose proof Hrun as Hrun2.
      replace (2 * length rounds + 1) with (j + (2 * length rounds + 1 - j)) in Hrun2
        by lia.
      rewrite steps_until_add in Hrun2.
      unfold run, loop_steps in Hj. rewrite Hj in Hrun2. simpl in Hrun2.
      rewrite steps_until_stopped in Hrun2 by exact Hexit.
      injection Hrun2 as ->.
      apply steps_until_trail in Hj.
      rewrite Htrail, !length_app, rounds_entries_length in Hj. simpl in Hj.
      lia.
  - rewrite Htrail, !visits_app, visits_rounds_tools.
    destruct k; unfold visits; simpl; lia.
  - rewrite Htrail, !visits_app, visits_rounds_node.
    destruct k; unfold visits; simpl; lia.
  - rewrite (inv_invocations _ _ _ _ _ _ _ _ Hinv). reflexivity.
  - rewrite Hvalues. reflexivity.
  - rewrite Hvalues. simpl.
    rewrite !length_app, (transcript_length tools rounds Hrounds).
    simpl. lia.
  - intros j j' cj cj' Hle Hj Hj'.
    unfold run, loop_steps in Hj, Hj'.
    destruct (loop_invariant _ _ _ _ _ _ _ _ _ Hat Hname Hmodel Hj) as [rs [ph Hinvj]].
    replace j' with (j + (j' - j)) in Hj' by lia.
    rewrite steps_until_add, Hj in Hj'. simpl in Hj'.
    destruct (loop_invariant_from _ _ _ _ _ _ _ _ Hname Hmodel _ _ _ _ Hinvj Hj')
      as [_ [_ [_ Hsuffix]]].
    exact Hsuffix.
Qed.

(** C2.  For each of the three tool loops: when the first response of the
    model requests no tool call, the loop reaches its exit after that one
    invocation (whatever the step budget), its output field is the text of
    the response, and the response is appended to the stored messages. *)
Theorem tool_loop_first_answer
    (llms_with_tools : loop -> nat -> result message)
    (reasoning_llm : nat -> result message)
    (tools : ToolCall -> result string) (schedule : list bool)
    (k : loop) (name : string) (c0 : Config) (r : message) :
  at_node c0 = loop_node k ->
  knows_stock k name (values c0) ->
  llms_with_tools k (length (llm_log (world c0))) = Ok r ->
  no_tool_calls r = true ->
  fresh_ids (ids (messages (values c0))) [r] ->
  exists c',
    (forall n, 1 <= n ->
       loop_steps llms_with_tools reasoning_llm tools schedule k n c0 = Ok c') /\
    at_node c' = loop_exit k /\
    length (llm_log (world c')) = length (llm_log (world c0)) + 1 /\
    visits (loop_tools k) (trail c') = visits (loop_tools k) (trail c0) /\
    loop_output k (values c') = Some (content r) /\
    messages (values c') = messages (values c0) ++ [r].
Proof.
  intros Hat Hname Hr Hno Hfresh.
  destruct (inv_model llms_with_tools reasoning_llm tools schedule
              k name c0 c0 [] r Hname (inv_start _ _ k name c0 Hat))
    as [c' [Hstep Hinv]].
  { now rewrite Nat.add_0_r. }
  { exact Hfresh. }
  rewrite Hno in Hinv.
  exists c'. split; [|split; [|split; [|split; [|split]]]].
  - intros n Hn. destruct n as [|n]; [lia|].
    unfold loop_steps. rewrite (steps_until_step _ _ _ c0 c').
    + apply steps_until_stopped. exact (inv_node _ _ _ _ _ _ _ _ Hinv).
    + rewrite Hat. apply loop_exit_not_node.
    + exact Hstep.
  - exact (inv_node _ _ _ _ _ _ _ _ Hinv).
  - rewrite (inv_invocations _ _ _ _ _ _ _ _ Hinv). simpl. lia.
  - rewrite (inv_trail _ _ _ _ _ _ _ _ Hinv). simpl.
    rewrite visits_app. destruct k; unfold visits; simpl; lia.
  - rewrite (inv_values _ _ _ _ _ _ _ _ Hinv). now destruct k.
  - rewrite (inv_values _ _ _ _ _ _ _ _ Hinv). reflexivity.
Qed.

(** ** What every run of a tool loop looks like *)

Lemma run_tools_roles (tools : ToolCall -> result string)
      (calls : list ToolCall) (outs : list message) :
  run_tools tools calls = Ok outs ->
  Forall (fun m => exists name call, role m = Tool name call) outs.
Proof.
  revert outs. induction calls as [|c calls IH]; simpl; intros outs H.
  - injection H as <-. constructor.
  - unfold run_tool in H. destruct (tools c); simpl in H; try discriminate.
    destruct (run_tools tools calls); simpl in H; try discriminate.
    injection H as <-. constructor; [simpl; eauto | now apply IH].
Qed.

Lemma writes_app (k : loop) (t1 t2 : list (string * State)) :
  writes k (t1 ++ t2) = writes k t1 + writes k t2.
Proof. unfold writes. now rewrite filter_app, length_app. Qed.

Lemma writes_rounds (k : loop) (rounds : list round) :
  writes k (flat_map (round_entries k) rounds) = 0.
Proof.
  induction rounds as [|rd rounds IH]; [reflexivity|].
  change (flat_map (round_entries k) (rd :: rounds))
    with (round_entries k rd ++ flat_map (round_entries k) rounds).
  rewrite writes_app, IH. destruct k; reflexivity.
Qed.

Lemma writes_phase (k : loop) (ph : phase) :
  writes k (phase_entries k ph) = match ph with done _ => 1 | _ => 0 end.
Proof. destruct k, ph; reflexivity. Qed.

(** One update is applied per step until the stop node is reached. *)
Lemma steps_until_count (stop : string) (n : nat) (g : Graph) (c c' : Config) :
  steps_until stop n g c = Ok c' ->
  length (trail c') = length (trail c) + n \/
  (at_node c' = stop /\ length (trail c') <= length (trail c) + n).
Proof.
  revert c. induction n as [|n IH]; simpl; intros c H.
  - injection H as <-. left. lia.
  - destruct (String.eqb_spec (at_node c) stop) as [E|_].
    + injection H as <-. right. split; [exact E | lia].
    + destruct (step g c) as [c1| |] eqn:Hstep; simpl in H; try discriminate.
      apply step_trail in Hstep.
      destruct (IH _ H) as [Hlen|[Hat Hlen]]; [left | right; split; [exact Hat|]]; lia.
Qed.

Lemma round_entries_length (k : loop) (rounds : list round) :
  length (flat_map (round_entries k) rounds) = 2 * length rounds.
Proof. induction rounds as [|rd rounds IH]; simpl; lia. Qed.

Lemma phase_entries_length (k : loop) (ph : phase) :
  length (phase_entries k ph) = length (phase_messages ph).
Proof. now destruct ph. Qed.

Lemma run_tools_total (tools : ToolCall -> result string) (calls : list ToolCall) :
  (forall call, is_ok (tools call) = true) ->
  exists outs, run_tools tools calls = Ok outs.
Proof.
  intros Hok. induction calls as [|c calls [outs IH]]; simpl; [eauto|].
  unfold run_tool. specialize (Hok c).
  destruct (tools c) as [out| |]; try discriminate.
  simpl. rewrite IH. simpl. eauto.
Qed.

(** A loop whose model and tools answer takes every step asked for. *)
Lemma loop_steps_exist
      (llms_with_tools : loop -> nat -> result message)
      (reasoning_llm : nat -> result message)
      (tools : ToolCall -> result string) (schedule : list bool)
      (k : loop) (name : string) (c0 : Config) (n : nat) :
  at_node c0 = loop_node k ->
  knows_stock k name (values c0) ->
  fresh_model (llms_with_tools k) (length (llm_log (world c0)))
              (ids (messages (values c0))) ->
  (forall i, i < n ->
     is_ok (llms_with_tools k (length (llm_log (world c0)) + i)) = true) ->
  (forall call, is_ok (tools call) = true) ->
  exists c, loop_steps llms_with_tools reasoning_llm tools schedule k n c0 = Ok c.
Proof.
  intros Hat Hname Hfresh Hmodel Htools.
  induction n as [|n IH]; [exists c0; reflexivity|].
  destruct IH as [c Hn]; [intros i Hi; apply Hmodel; lia|].
  unfold loop_steps in *. rewrite steps_until_last, Hn. cbn [rbind].
  destruct (String.eqb_spec (at_node c) (loop_exit k)) as [_|Hexit]; [eauto|].
  destruct (loop_invariant _ _ _ _ _ _ _ _ _ Hat Hname Hfresh Hn)
    as [rounds [ph Hinv]].
  pose proof (inv_node _ _ _ _ _ _ _ _ Hinv) as Hnode.
  destruct ph as [|r|r]; [| |now rewrite Hnode in Hexit].
  - assert (Hlen : length rounds < S n).
    { destruct (steps_until_count _ _ _ _ _ Hn) as [Hc|[Hc _]]; [|contradiction].
      rewrite (inv_trail _ _ _ _ _ _ _ _ Hinv) in Hc.
      rewrite !length_app, round_entries_length in Hc. simpl in Hc. lia. }
    specialize (Hmodel _ Hlen).
    destruct (llms_with_tools k _) as [r| |] eqn:Hr; try discriminate.
    destruct (inv_model llms_with_tools reasoning_llm tools schedule
                k name c0 c rounds r Hname Hinv Hr) as [c1 [Hstep _]]; [|eauto].
    apply Hfresh.
    + apply (rounds_request_tools tools). exact (inv_rounds _ _ _ _ _ _ _ _ Hinv).
    + apply answers_snoc; [|now rewrite length_map].
      pose proof (inv_answers _ _ _ _ _ _ _ _ Hinv) as H. simpl in H.
      now rewrite app_nil_r in H.
  - destruct (run_tools_total tools (requested r) Htools) as [outs Hrun].
    destruct (inv_tools llms_with_tools reasoning_llm tools schedule
                k name c0 c rounds r outs Hinv Hrun) as [c1 [Hstep _]].
    eauto.
Qed.


(** ** Prompts are sent, not stored *)

Lemma model_inputs_nth (prefix stored : list message) (bs : list (list message))
      (i : nat) (input : list message) :
  nth_error (model_inputs prefix stored bs) i = Some input ->
  input = prefix ++ stored ++ concat (firstn i bs).
Proof.
  revert stored i. induction bs as [|b bs IH]; intros stored i H.
  - destruct i; discriminate.
  - destruct i as [|i]; simpl in H.
    + injection H as <-. simpl. now rewrite app_nil_r.
    + apply IH in H. rewrite H. simpl. now rewrite <- app_assoc.
Qed.

Lemma continue_to_analyses_reads_name
      (llms_with_tools : loop -> nat -> result message)
      (tools : ToolCall -> result string) (schedule : list bool)
      (s s' : State) (w : World) :
  stock_name s = stock_name s' ->
  continue_to_analyses llms_with_tools tools schedule s w
  = continue_to_analyses llms_with_tools tools schedule s' w.
Proof. intros H. unfold continue_to_analyses. now rewrite H. Qed.

(** C10.  In every run of each tool loop, each input sent to the model is
    the loop's prompt prefix (the system prompt and, for the analysis loops,
    the user message naming the stock) followed by the messages stored at
    that moment, while the stored list is the initial one followed only by
    answers of the model and tool results.  The join starts both analysis
    graphs from the stock name alone, with no stored message, and nothing of
    the top-level state but the stock name affects it. *)
Theorem prompt_not_stored
    (llms_with_tools : loop -> nat -> result message)
    (reasoning_llm : nat -> result message)
    (tools : ToolCall -> result string) (schedule : list bool) :
  (forall (k : loop) (name : string) (c0 c : Config) (n : nat),
      at_node c0 = loop_node k ->
      knows_stock k name (values c0) ->
      fresh_model (llms_with_tools k) (length (llm_log (world c0)))
                  (ids (messages (values c0))) ->
      loop_steps llms_with_tools reasoning_llm tools schedule k n c0 = Ok c ->
      exists rounds ph sent,
        llm_log (world c) = llm_log (world c0) ++ sent /\
        sent = model_inputs (prompt_prefix k name) (messages (values c0))
                            (batches rounds ph) /\
        (forall i input, nth_error sent i = Some input ->
           exists stored rest,
             input = prompt_prefix k name ++ stored /\
             messages (values c) = stored ++ rest /\
             stored = messages (values c0) ++ concat (firstn i (batches rounds ph))) /\
        messages (values c)
        = messages (values c0) ++ transcript rounds ++ phase_messages ph /\
        (forall m, In m (transcript rounds ++ phase_messages ph) ->
           (exists i, llms_with_tools k (length (llm_log (world c0)) + i) = Ok m)
           \/ (exists tool call, role m = Tool tool call))) /\
  (forall name w,
      start (fsubgraph llms_with_tools tools) (analysis_input name) w
      = Ok {| at_node := "fundamental_analysis";
              values := mkState [] (Some name) None None None;
              world := w; trail := [] |} /\
      start (tsubgraph llms_with_tools tools) (analysis_input name) w
      = Ok {| at_node := "technical_analysis";
              values := mkState [] (Some name) None None None;
              world := w; trail := [] |}) /\
  (forall s s' w,
      stock_name s = stock_name s' ->
      continue_to_analyses llms_with_tools tools schedule s w
      = continue_to_analyses llms_with_tools tools schedule s' w).
Proof.
  split; [|split].
  - intros k name c0 c n Hat Hname Hfresh Hrun.
    destruct (loop_invariant _ _ _ _ _ _ _ _ _ Hat Hname Hfresh Hrun)
      as [rounds [ph Hinv]].
    pose proof (inv_values _ _ _ _ _ _ _ _ Hinv) as Hvalues.
    assert (Hmsgs : messages (values c)
                    = messages (values c0) ++ transcript rounds ++ phase_messages ph).
    { now rewrite Hvalues. }
    exists rounds, ph, (model_inputs (prompt_prefix k name) (messages (values c0))
                                     (batches rounds ph)).
    split; [exact (inv_log _ _ _ _ _ _ _ _ Hinv)|]. split; [reflexivity|].
    split; [|split; [exact Hmsgs|]].
    + intros i input Hi. apply model_inputs_nth in Hi.
      exists (messages (values c0) ++ concat (firstn i (batches rounds ph))),
             (concat (skipn i (batches rounds ph))).
      split; [exact Hi|]. split; [|reflexivity].
      rewrite Hmsgs, <- app_assoc, <- concat_app, firstn_skipn.
      f_equal. unfold batches. rewrite concat_app, concat_rounds. f_equal.
      destruct ph; reflexivity.
    + intros m Hm. apply in_app_or in Hm. destruct Hm as [Hm|Hm].
      * unfold transcript in Hm. apply in_flat_map in Hm.
        destruct Hm as [[r outs] [Hrd [Hm|Hm]]].
        -- left. simpl in Hm. subst m.
           assert (Hin : In r (map fst rounds ++ phase_messages ph)).
           { apply in_or_app. left. apply in_map_iff. now exists (r, outs). }
           apply In_nth_error in Hin. destruct Hin as [i Hi].
           exists i. exact (inv_answers _ _ _ _ _ _ _ _ Hinv i r Hi).
        -- right. simpl in Hm.
           pose proof (inv_rounds _ _ _ _ _ _ _ _ Hinv) as Hrounds.
           rewrite Forall_forall in Hrounds. destruct (Hrounds _ Hrd) as [_ Hr].
           simpl in Hr. apply run_tools_roles in Hr.
           rewrite Forall_forall in Hr. exact (Hr m Hm).
      * left.
        assert (Hin : In m (map fst rounds ++ phase_messages ph)).
        { apply in_or_app. now right. }
        apply In_nth_error in Hin. destruct Hin as [i Hi].
        exists i. exact (inv_answers _ _ _ _ _ _ _ _ Hinv i m Hi).
  - intros name w. split; reflexivity.
  - intros s s' w H. now apply continue_to_analyses_reads_name.
Qed.

(** ** Runs to the end and the join of two runs *)

Lemma run_finished (fuel : nat) (g : Graph) (c : Config) :
  finished c = true -> run fuel g c = Ok c.
Proof. intros H. destruct fuel; simpl; now rewrite H. Qed.

Lemma run_unfold (fuel : nat) (g : Graph) (c : Config) :
  finished c = false ->
  run (S fuel) g c = rbind (step g c) (run fuel g).
Proof. intros H. simpl. now rewrite H. Qed.

(** More fuel does not change an answer. *)
Lemma run_more (n m : nat) (g : Graph) (c : Config) :
  run n g c <> Unfinished -> n <= m -> run m g c = run n g c.
Proof.
  revert m c. induction n as [|n IH]; intros m c Hdone Hle.
  - simpl in Hdone. destruct (finished c) eqn:E; [|congruence].
    now rewrite !run_finished.
  - destruct m as [|m]; [lia|].
    simpl in *. destruct (finished c); [reflexivity|].
    destruct (step g c) as [c1| |]; simpl in *; try reflexivity.
    apply IH; [exact Hdone | lia].
Qed.

Lemma run_agree (n m : nat) (g : Graph) (c : Config) :
  run n g c <> Unfinished -> run m g c <> Unfinished -> run n g c = run m g c.
Proof.
  intros Hn Hm. destruct (Nat.le_ge_cases n m).
  - symmetry. now apply run_more.
  - now apply run_more.
Qed.

Lemma steps_until_run (n : nat) (g : Graph) (c c' : Config) :
  steps_until END n g c = Ok c' -> at_node c' = END ->
  forall fuel, n <= fuel -> run fuel g c = Ok c'.
Proof.
  revert c. induction n as [|n IH]; intros c H Hend fuel Hle.
  - simpl in H. injection H as <-. apply run_finished.
    unfold finished. now rewrite Hend, String.eqb_refl.
  - simpl in H. unfold finished in *.
    destruct (String.eqb (at_node c) END) eqn:E.
    + injection H as <-. apply run_finished. exact E.
    + destruct fuel as [|fuel]; [lia|]. simpl. unfold finished. rewrite E.
      destruct (step g c) as [c1| |]; simpl in *; try discriminate.
      apply IH; [exact H | exact Hend | lia].
Qed.

(** For the two analysis graphs the exit of the loop is the end of the
    graph: a loop that reached its exit is a finished run. *)
Lemma analysis_loop_to_end
      (llms_with_tools : loop -> nat -> result message)
      (reasoning_llm : nat -> result message)
      (tools : ToolCall -> result string) (schedule : list bool)
      (k : loop) (n : nat) (c c' : Config) :
  k <> NameResolution ->
  loop_steps llms_with_tools reasoning_llm tools schedule k n c = Ok c' ->
  at_node c' = loop_exit k ->
  forall fuel, n <= fuel ->
    run fuel (loop_graph llms_with_tools reasoning_llm tools schedule k) c = Ok c'.
Proof.
  intros Hk Hsteps Hexit fuel Hfuel.
  destruct k; [contradiction | |];
    exact (steps_until_run n _ c c' Hsteps Hexit fuel Hfuel).
Qed.

Section Gather.

Variables gf gt : Graph.

(** If the join returns, both runs ended with the configurations
    returned. *)
Lemma gather_ok (schedule : list bool) :
  forall cf ct cf' ct',
    gather gf gt schedule cf ct = Ok (cf', ct') ->
    (exists n, run n gf cf = Ok cf') /\ (exists m, run m gt ct = Ok ct').
Proof.
  induction schedule as [|b rest IH]; intros cf ct cf' ct' H; simpl in H.
  - destruct (finished cf) eqn:Ef, (finished ct) eqn:Et; simpl in H;
      try discriminate.
    injection H as <- <-. split; exists 0; now apply run_finished.
  - destruct (finished cf) eqn:Ef, (finished ct) eqn:Et; simpl in H.
    + injection H as <- <-. split; exists 0; now apply run_finished.
    + destruct b; [now apply IH|].
      destruct (step gt ct) as [ct1| |] eqn:Hs; try discriminate.
      * destruct (IH _ _ _ _ H) as [Hf [m Hm]]. split; [exact Hf|].
        exists (S m). now rewrite run_unfold, Hs.
      * now apply IH.
    + destruct b; [|now apply IH].
      destruct (step gf cf) as [cf1| |] eqn:Hs; try discriminate.
      * destruct (IH _ _ _ _ H) as [[n Hn] Ht]. split; [|exact Ht].
        exists (S n). now rewrite run_unfold, Hs.
      * now apply IH.
    + destruct b.
      * destruct (step gf cf) as [cf1| |] eqn:Hs; try discriminate.
        -- destruct (IH _ _ _ _ H) as [[n Hn] Ht]. split; [|exact Ht].
           exists (S n). now rewrite run_unfold, Hs.
        -- now apply IH.
      * destruct (step gt ct) as [ct1| |] eqn:Hs; try discriminate.
        -- destruct (IH _ _ _ _ H) as [Hf [m Hm]]. split; [exact Hf|].
           exists (S m). now rewrite run_unfold, Hs.
        -- now apply IH.
Qed.

(** If the join raises, one of the two runs raised that error. *)
Lemma gather_raise (schedule : list bool) :
  forall cf ct e,
    gather gf gt schedule cf ct = Raise e ->
    (exists n, run n gf cf = Raise e) \/ (exists m, run m gt ct = Raise e).
Proof.
  induction schedule as [|b rest IH]; intros cf ct e H; simpl in H.
  - destruct (finished cf && finished ct); discriminate.
  - destruct (finished cf && finished ct); [discriminate|].
    destruct b.
    + destruct (finished cf) eqn:Ef; [now apply IH|].
      destruct (step gf cf) as [cf1| |] eqn:Hs.
      * destruct (IH _ _ _ H) as [[n Hn]|Ht]; [left|now right].
        exists (S n). now rewrite run_unfold, Hs.
      * injection H as <-. left. exists 1. now rewrite run_unfold, Hs.
      * now apply IH.
    + destruct (finished ct) eqn:Et; [now apply IH|].
      destruct (step gt ct) as [ct1| |] eqn:Hs.
      * destruct (IH _ _ _ H) as [Hf|[m Hm]]; [now left|right].
        exists (S m). now rewrite run_unfold, Hs.
      * injection H as <-. right. exists 1. now rewrite run_unfold, Hs.
      * now apply IH.
Qed.

(** A schedule with enough turns for both runs lets the join return. *)
Lemma gather_complete (schedule : list bool) :
  forall n m cf ct cf' ct',
    run n gf cf = Ok cf' -> run m gt ct = Ok ct' ->
    n <= turns true schedule -> m <= turns false schedule ->
    gather gf gt schedule cf ct = Ok (cf', ct').
Proof.
  unfold turns.
  induction schedule as [|b rest IH]; intros n m cf ct cf' ct' Hf Ht Hn Hm.
  - simpl in Hn, Hm. assert (n = 0) by lia. assert (m = 0) by lia. subst.
    simpl in Hf, Ht.
    destruct (finished cf) eqn:Ef; [|discriminate].
    destruct (finished ct) eqn:Et; [|discriminate].
    simpl. rewrite Ef, Et. simpl. congruence.
  - simpl. destruct (finished cf) eqn:Ef, (finished ct) eqn:Et; simpl.
    + rewrite run_finished in Hf, Ht by assumption. congruence.
    + assert (Hf0 : run 0 gf cf = Ok cf').
      { rewrite run_finished in Hf |- * by assumption. exact Hf. }
      destruct b; simpl in Hn, Hm.
      * apply (IH 0 m); [exact Hf0 | exact Ht | lia | exact Hm].
      * destruct m as [|m]; [simpl in Ht; rewrite Et in Ht; discriminate|].
        rewrite run_unfold in Ht by exact Et.
        destruct (step gt ct) as [ct1| |]; simpl in Ht; try discriminate.
        apply (IH 0 m); [exact Hf0 | exact Ht | lia | lia].
    + assert (Ht0 : run 0 gt ct = Ok ct').
      { rewrite run_finished in Ht |- * by assumption. exact Ht. }
      destruct b; simpl in Hn, Hm.
      * destruct n as [|n]; [simpl in Hf; rewrite Ef in Hf; discriminate|].
        rewrite run_unfold in Hf by exact Ef.
        destruct (step gf cf) as [cf1| |]; simpl in Hf; try discriminate.
        apply (IH n 0); [exact Hf | exact Ht0 | lia | lia].
      * apply (IH n 0); [exact Hf | exact Ht0 | exact Hn | lia].
    + destruct b; simpl in Hn, Hm.
      * destruct n as [|n]; [simpl in Hf; rewrite Ef in Hf; discriminate|].
        rewrite run_unfold in Hf by exact Ef.
        destruct (step gf cf) as [cf1| |]; simpl in Hf; try discriminate.
        apply (IH n m); [exact Hf | exact Ht | lia | exact Hm].
      * destruct m as [|m]; [simpl in Ht; rewrite Et in Ht; discriminate|].
        rewrite run_unfold in Ht by exact Et.
        destruct (step gt ct) as [ct1| |]; simpl in Ht; try discriminate.
        apply (IH n m); [exact Hf | exact Ht | exact Hn | lia].
Qed.

(** A schedule that gives a raising run its turns makes the join raise. *)
Lemma gather_fails_first (schedule : list bool) :
  forall n cf ct e,
    run n gf cf = Raise e -> n <= turns true schedule ->
    exists e', gather gf gt schedule cf ct = Raise e'.
Proof.
  induction schedule as [|b rest IH]; intros n cf ct e Hf Hn.
  - simpl in Hn. assert (n = 0) by lia. subst. simpl in Hf.
    destruct (finished cf); discriminate.
  - assert (Ef : finished cf = false).
    { destruct (finished cf) eqn:E; [|reflexivity].
      rewrite run_finished in Hf by exact E. discriminate. }
    simpl. rewrite Ef. simpl. destruct b.
    + destruct n as [|n]; [simpl in Hf; rewrite Ef in Hf; discriminate|].
      rewrite run_unfold in Hf by exact Ef.
      destruct (step gf cf) as [cf1| |]; simpl in Hf; try discriminate; eauto.
      apply (IH n _ _ e); [exact Hf|]. unfold turns in *. simpl in Hn. lia.
    + assert (Hn' : n <= turns true rest) by (unfold turns in *; simpl in Hn; lia).
      destruct (finished ct); [now apply (IH n _ _ e)|].
      destruct (step gt ct) as [ct1| |]; eauto.
Qed.

Lemma gather_fails_second (schedule : list bool) :
  forall m cf ct e,
    run m gt ct = Raise e -> m <= turns false schedule ->
    exists e', gather gf gt schedule cf ct = Raise e'.
Proof.
  induction schedule as [|b rest IH]; intros m cf ct e Ht Hm.
  - simpl in Hm. assert (m = 0) by lia. subst. simpl in Ht.
    destruct (finished ct); discriminate.
  - assert (Et : finished ct = false).
    { destruct (finished ct) eqn:E; [|reflexivity].
      rewrite run_finished in Ht by exact E. discriminate. }
    simpl. rewrite Et, andb_false_r. destruct b.
    + assert (Hm' : m <= turns false rest) by (unfold turns in *; simpl in Hm; lia).
      destruct (finished cf); [now apply (IH m _ _ e)|].
      destruct (step gf cf) as [cf1| |]; eauto.
    + destruct m as [|m]; [simpl in Ht; rewrite Et in Ht; discriminate|].
      rewrite run_unfold in Ht by exact Et.
      destruct (step gt ct) as [ct1| |]; simpl in Ht; try discriminate; eauto.
      apply (IH m _ _ e); [exact Ht|]. unfold turns in *. simpl in Hm. lia.
Qed.

End Gather.

(** ** The analysis graphs stay within their schemas *)

Lemma fsubgraph_keeps_schema
      (llms_with_tools : loop -> nat -> result message)
      (tools : ToolCall -> result string) (c c' : Config) :
  step (fsubgraph llms_with_tools tools) c = Ok c' ->
  technical_analysis (values c') = technical_analysis (values c) /\
  decision (values c') = decision (values c) /\
  stock_name (values c') = stock_name (values c).
Proof.
  unfold step. cbn [nodes fsubgraph assoc].
  destruct (String.eqb (at_node c) "fundamental_analysis").
  - unfold get_fundamental_analysis, bind, lift, ainvoke, ret.
    destruct (stock_name (values c)) eqn:E; cbn [subscript rbind fst snd];
      [|discriminate].
    destruct (llms_with_tools _ _) as [r| |]; cbn [rbind fst snd]; try discriminate.
    destruct (no_tool_calls r); cbn [rbind fst snd];
      destruct (route _ _ _); cbn [rbind]; try discriminate;
      intros H; injection H as <-; repeat split; simpl; congruence.
  - destruct (String.eqb (at_node c) "fundamental_analysis_tools"); [|discriminate].
    unfold ToolNode, bind, lift, ret.
    destruct (last_message _) as [m|]; cbn [rbind]; try discriminate.
    destruct (tool_calls_attr m); cbn [rbind]; try discriminate.
    destruct (run_tools tools _); cbn [rbind fst snd]; try discriminate.
    destruct (route _ _ _); cbn [rbind]; try discriminate.
    intros H; injection H as <-; repeat split.
Qed.

Lemma tsubgraph_keeps_schema
      (llms_with_tools : loop -> nat -> result message)
      (tools : ToolCall -> result string) (c c' : Config) :
  step (tsubgraph llms_with_tools tools) c = Ok c' ->
  fundamental_analysis (values c') = fundamental_analysis (values c) /\
  decision (values c') = decision (values c) /\
  stock_name (values c') = stock_name (values c).
Proof.
  unfold step. cbn [nodes tsubgraph assoc].
  destruct (String.eqb (at_node c) "technical_analysis").
  - unfold get_technical_analysis, bind, lift, ainvoke, ret.
    destruct (stock_name (values c)) eqn:E; cbn [subscript rbind fst snd];
      [|discriminate].
    destruct (llms_with_tools _ _) as [r| |]; cbn [rbind fst snd]; try discriminate.
    destruct (no_tool_calls r); cbn [rbind fst snd];
      destruct (route _ _ _); cbn [rbind]; try discriminate;
      intros H; injection H as <-; repeat split; simpl; congruence.
  - destruct (String.eqb (at_node c) "technical_analysis_tools"); [|discriminate].
    unfold ToolNode, bind, lift, ret.
    destruct (last_message _) as [m|]; cbn [rbind]; try discriminate.
    destruct (tool_calls_attr m); cbn [rbind]; try discriminate.
    destruct (run_tools tools _); cbn [rbind fst snd]; try discriminate.
    destruct (route _ _ _); cbn [rbind]; try discriminate.
    intros H; injection H as <-; repeat split.
Qed.

(** X6.  Whatever the models and the tools answer, the state an analysis
    graph ends with holds no key outside its schema: the fundamental graph
    never sets [technical_analysis] or [decision], the technical graph never
    sets [fundamental_analysis] or [decision], and both keep the stock name
    they were given. *)
Lemma analysis_runs_in_schema
      (llms_with_tools : loop -> nat -> result message)
      (tools : ToolCall -> result string) (fuel : nat) (name : string)
      (w : World) :
  (forall c, graph_ainvoke fuel (fsubgraph llms_with_tools tools)
                           (analysis_input name) w = Ok c ->
             FundamentalAnalysisState (values c) /\ stock_name (values c) = Some name) /\
  (forall c, graph_ainvoke fuel (tsubgraph llms_with_tools tools)
                           (analysis_input name) w = Ok c ->
             TechnicalAnalysisState (values c) /\ stock_name (values c) = Some name).
Proof.
  assert (Hf : forall n c c',
             run n (fsubgraph llms_with_tools tools) c = Ok c' ->
             technical_analysis (values c') = technical_analysis (values c) /\
             decision (values c') = decision (values c) /\
             stock_name (values c') = stock_name (values c)).
  { induction n as [|n IH]; intros c c' H; simpl in H.
    - destruct (finished c); [|discriminate]. injection H as <-. repeat split.
    - destruct (finished c); [injection H as <-; repeat split|].
      destruct (step _ c) as [c1| |] eqn:Hs; simpl in H; try discriminate.
      apply fsubgraph_keeps_schema in Hs. apply IH in H.
      destruct Hs as [S1 [S2 S3]]. destruct H as [H1 [H2 H3]].
      repeat split; congruence. }
  assert (Ht : forall n c c',
             run n (tsubgraph llms_with_tools tools) c = Ok c' ->
             fundamental_analysis (values c') = fundamental_analysis (values c) /\
             decision (values c') = decision (values c) /\
             stock_name (values c') = stock_name (values c)).
  { induction n as [|n IH]; intros c c' H; simpl in H.
    - destruct (finished c); [|discriminate]. injection H as <-. repeat split.
    - destruct (finished c); [injection H as <-; repeat split|].
      destruct (step _ c) as [c1| |] eqn:Hs; simpl in H; try discriminate.
      apply tsubgraph_keeps_schema in Hs. apply IH in H.
      destruct Hs as [S1 [S2 S3]]. destruct H as [H1 [H2 H3]].
      repeat split; congruence. }
  split; intros c H; unfold graph_ainvoke in H; simpl in H.
  - apply Hf in H. destruct H as [H1 [H2 H3]]. simpl in *.
    unfold FundamentalAnalysisState. auto.
  - apply Ht in H. destruct H as [H1 [H2 H3]]. simpl in *.
    unfold TechnicalAnalysisState. auto.
Qed.

(** ** The join of the two analyses *)

Section Join.

Variable llms_with_tools : loop -> nat -> result message.
Variable reasoning_llm : nat -> result message.
Variable tools : ToolCall -> result string.

Let F := fsubgraph llms_with_tools tools.
Let T := tsubgraph llms_with_tools tools.

(** The update the join returns from the final states of both loops. *)
Let merged (fundamental_result technical_result : State) : result State :=
  rbind (subscript "fundamental_analysis"
                   (fundamental_analysis fundamental_result)) (fun fa =>
  rbind (subscript "technical_analysis"
                   (technical_analysis technical_result)) (fun ta =>
  Ok {| messages := messages fundamental_result ++ messages technical_result;
        stock_name := None;
        fundamental_analysis := Some fa;
        technical_analysis := Some ta;
        decision := None |})).

Lemma continue_to_analyses_form (schedule : list bool) (s : State) (w : World)
      (name : string) (cf ct : Config) :
  stock_name s = Some name ->
  start F (analysis_input name) fresh_world = Ok cf ->
  start T (analysis_input name) fresh_world = Ok ct ->
  continue_to_analyses llms_with_tools tools schedule s w =
  rbind (gather F T schedule cf ct) (fun results =>
  rbind (merged (values (fst results)) (values (snd results))) (fun u =>
  Ok (u, w))).
Proof.
  intros Hname Hf Ht. unfold continue_to_analyses, bind, lift.
  rewrite Hname. simpl subscript. cbn [rbind fst snd].
  fold F T. rewrite Hf, Ht. cbn [rbind fst snd].
  destruct (gather F T schedule cf ct) as [[cf' ct']| |]; simpl; try reflexivity.
  unfold merged.
  destruct (fundamental_analysis (values cf')); simpl; try reflexivity.
  destruct (technical_analysis (values ct')); reflexivity.
Qed.

Lemma graph_ainvoke_run (fuel : nat) (g : Graph) (input : State) (w : World)
      (c0 : Config) :
  start g input w = Ok c0 ->
  graph_ainvoke fuel g input w = run fuel g c0.
Proof. intros H. unfold graph_ainvoke. now rewrite H. Qed.

Lemma starts (name : string) :
  exists cf ct,
    start F (analysis_input name) fresh_world = Ok cf /\
    start T (analysis_input name) fresh_world = Ok ct.
Proof. eexists. eexists. split; reflexivity. Qed.

End Join.

(** C4.  The update returned by the join does not depend on the order in
    which the two analysis tasks advance: two completed runs of the join on
    the same state, under any two schedules, return the same update, and
    whenever the two loops run to their ends from the stock name alone, the
    update carries the messages of the fundamental loop followed by those of
    the technical loop and both analysis fields; every schedule that gives
    both tasks their turns completes with exactly that update. *)
Theorem aggregator_merge_order
    (llms_with_tools : loop -> nat -> result message)
    (tools : ToolCall -> result string)
    (state : State) (name : string) (nf nt : nat) (cf' ct' : Config) :
  stock_name state = Some name ->
  graph_ainvoke nf (fsubgraph llms_with_tools tools) (analysis_input name) fresh_world
  = Ok cf' ->
  graph_ainvoke nt (tsubgraph llms_with_tools tools) (analysis_input name) fresh_world
  = Ok ct' ->
  (forall schedule1 schedule2 w1 w2 u1 u2 w1' w2',
      continue_to_analyses llms_with_tools tools schedule1 state w1 = Ok (u1, w1') ->
      continue_to_analyses llms_with_tools tools schedule2 state w2 = Ok (u2, w2') ->
      u1 = u2) /\
  (forall schedule w u w',
      continue_to_analyses llms_with_tools tools schedule state w = Ok (u, w') ->
      messages u = messages (values cf') ++ messages (values ct') /\
      fundamental_analysis u = fundamental_analysis (values cf') /\
      technical_analysis u = technical_analysis (values ct') /\
      stock_name u = None /\ decision u = None /\ w' = w) /\
  (forall schedule w fa ta,
      nf <= turns true schedule -> nt <= turns false schedule ->
      fundamental_analysis (values cf') = Some fa ->
      technical_analysis (values ct') = Some ta ->
      continue_to_analyses llms_with_tools tools schedule state w
      = Ok ({| messages := messages (values cf') ++ messages (values ct');
               stock_name := None;
               fundamental_analysis := Some fa;
               technical_analysis := Some ta;
               decision := None |}, w)).
Proof.
  intros Hname Hf Ht.
  destruct (starts llms_with_tools tools name) as [cf [ct [Hsf Hst]]].
  rewrite (graph_ainvoke_run _ _ _ _ _ Hsf) in Hf.
  rewrite (graph_ainvoke_run _ _ _ _ _ Hst) in Ht.
  assert (Hshape : forall schedule w u w',
             continue_to_analyses llms_with_tools tools schedule state w = Ok (u, w') ->
             gather (fsubgraph llms_with_tools tools) (tsubgraph llms_with_tools tools)
                    schedule cf ct = Ok (cf', ct') /\
             messages u = messages (values cf') ++ messages (values ct') /\
             fundamental_analysis u = fundamental_analysis (values cf') /\
             technical_analysis u = technical_analysis (values ct') /\
             stock_name u = None /\ decision u = None /\ w' = w).
  { intros schedule w u w' H.
    rewrite (continue_to_analyses_form _ _ schedule state w name cf ct Hname Hsf Hst) in H.
    destruct (gather _ _ schedule cf ct) as [[cf1 ct1]| |] eqn:Hg; simpl in H;
      try discriminate.
    destruct (gather_ok _ _ _ _ _ _ _ Hg) as [[n Hn] [m Hm]].
    assert (cf1 = cf').
    { assert (E : run n (fsubgraph llms_with_tools tools) cf
                  = run nf (fsubgraph llms_with_tools tools) cf)
        by (apply run_agree; congruence).
      congruence. }
    assert (ct1 = ct').
    { assert (E : run m (tsubgraph llms_with_tools tools) ct
                  = run nt (tsubgraph llms_with_tools tools) ct)
        by (apply run_agree; congruence).
      congruence. }
    subst cf1 ct1. split; [reflexivity|].
    destruct (fundamental_analysis (values cf')) as [fa|]; simpl in H; try discriminate.
    destruct (technical_analysis (values ct')) as [ta|]; simpl in H; try discriminate.
    injection H as <- <-. simpl. repeat split. }
  split; [|split].
  - intros s1 s2 w1 w2 u1 u2 w1' w2' H1 H2.
    apply Hshape in H1. apply Hshape in H2.
    destruct H1 as [_ [Hm1 [Hf1 [Ht1 [Hs1 [Hd1 _]]]]]].
    destruct H2 as [_ [Hm2 [Hf2 [Ht2 [Hs2 [Hd2 _]]]]]].
    destruct u1, u2; simpl in *. congruence.
  - intros schedule w u w' H. now apply Hshape in H.
  - intros schedule w fa ta Hnf Hnt Hfa Hta.
    rewrite (continue_to_analyses_form _ _ schedule state w name cf ct Hname Hsf Hst).
    rewrite (gather_complete _ _ schedule nf nt cf ct cf' ct' Hf Ht Hnf Hnt).
    simpl. rewrite Hfa, Hta. reflexivity.
Qed.

Lemma step_continue_to_analyses
      (llms_with_tools : loop -> nat -> result message)
      (reasoning_llm : nat -> result message)
      (tools : ToolCall -> result string) (schedule : list bool) (c : Config) :
  at_node c = "continue_to_analyses" ->
  step (stock_graph llms_with_tools reasoning_llm tools schedule) c =
  rbind (continue_to_analyses llms_with_tools tools schedule (values c) (world c))
        (fun uw =>
           Ok {| at_node := "make_decision";
                 values := apply_update (values c) (fst uw);
                 world := snd uw;
                 trail := trail c ++ [("continue_to_analyses", fst uw)] |}).
Proof.
  intros Hat. unfold step. rewrite Hat. simpl.
  destruct (continue_to_analyses _ _ _ _ _); reflexivity.
Qed.

(** C9.  When one of the two analysis loops, run from the stock name,
    raises an error, the join returns no update under any schedule: it
    raises as soon as the schedule has given the failing task its turns,
    the error it raises is one raised by one of the loops, and the
    top-level graph, standing at the join, ends without a state. *)
Theorem aggregator_fails_as_a_whole
    (llms_with_tools : loop -> nat -> result message)
    (reasoning_llm : nat -> result message)
    (tools : ToolCall -> result string)
    (state : State) (name : string) (n : nat) (e : error) :
  stock_name state = Some name ->
  graph_ainvoke n (fsubgraph llms_with_tools tools) (analysis_input name) fresh_world
  = Raise e \/
  graph_ainvoke n (tsubgraph llms_with_tools tools) (analysis_input name) fresh_world
  = Raise e ->
  forall schedule w,
    (forall u w',
        continue_to_analyses llms_with_tools tools schedule state w <> Ok (u, w')) /\
    (forall e',
        continue_to_analyses llms_with_tools tools schedule state w = Raise e' ->
        (exists m, graph_ainvoke m (fsubgraph llms_with_tools tools)
                                 (analysis_input name) fresh_world = Raise e') \/
        (exists m, graph_ainvoke m (tsubgraph llms_with_tools tools)
                                 (analysis_input name) fresh_world = Raise e')) /\
    (n <= turns true schedule -> n <= turns false schedule ->
     exists e', continue_to_analyses llms_with_tools tools schedule state w = Raise e') /\
    (forall c fuel,
        at_node c = "continue_to_analyses" -> values c = state -> world c = w ->
        is_ok (run fuel (stock_graph llms_with_tools reasoning_llm tools schedule) c)
        = false).
Proof.
  intros Hname Hraise schedule w.
  destruct (starts llms_with_tools tools name) as [cf [ct [Hsf Hst]]].
  rewrite (graph_ainvoke_run _ _ _ _ _ Hsf), (graph_ainvoke_run _ _ _ _ _ Hst) in Hraise.
  pose proof (continue_to_analyses_form llms_with_tools tools schedule state w
                name cf ct Hname Hsf Hst) as Hform.
  assert (Hgather : forall cf1 ct1,
             gather (fsubgraph llms_with_tools tools) (tsubgraph llms_with_tools tools)
                    schedule cf ct <> Ok (cf1, ct1)).
  { intros cf1 ct1 Hg.
    destruct (gather_ok _ _ _ _ _ _ _ Hg) as [[m1 H1] [m2 H2]].
    destruct Hraise as [Hr|Hr].
    - assert (E : run m1 (fsubgraph llms_with_tools tools) cf
                  = run n (fsubgraph llms_with_tools tools) cf)
        by (apply run_agree; congruence).
      congruence.
    - assert (E : run m2 (tsubgraph llms_with_tools tools) ct
                  = run n (tsubgraph llms_with_tools tools) ct)
        by (apply run_agree; congruence).
      congruence. }
  assert (Hnot : forall u w',
             continue_to_analyses llms_with_tools tools schedule state w <> Ok (u, w')).
  { intros u w' H. rewrite Hform in H.
    destruct (gather _ _ schedule cf ct) as [[cf1 ct1]| |] eqn:Hg; simpl in H;
      try discriminate.
    exact (Hgather cf1 ct1 eq_refl). }
  split; [exact Hnot|]. split; [|split].
  - intros e' H. rewrite Hform in H.
    destruct (gather _ _ schedule cf ct) as [[cf1 ct1]| |] eqn:Hg; simpl in H;
      try discriminate.
    + exfalso. exact (Hgather cf1 ct1 eq_refl).
    + injection H as <-.
      destruct (gather_raise _ _ _ _ _ _ Hg) as [[m Hm]|[m Hm]]; [left|right];
        exists m.
      * now rewrite (graph_ainvoke_run _ _ _ _ _ Hsf).
      * now rewrite (graph_ainvoke_run _ _ _ _ _ Hst).
  - intros Hn1 Hn2. rewrite Hform.
    destruct Hraise as [Hr|Hr].
    + destruct (gather_fails_first (fsubgraph llms_with_tools tools)
                  (tsubgraph llms_with_tools tools) schedule n cf ct e Hr Hn1)
        as [e' He'].
      exists e'. now rewrite He'.
    + destruct (gather_fails_second (fsubgraph llms_with_tools tools)
                  (tsubgraph llms_with_tools tools) schedule n cf ct e Hr Hn2)
        as [e' He'].
      exists e'. now rewrite He'.
  - intros c fuel Hat Hvalues Hworld.
    assert (Hnf : finished c = false) by (unfold finished; now rewrite Hat).
    destruct fuel as [|fuel]; simpl; rewrite Hnf; [reflexivity|].
    rewrite (step_continue_to_analyses _ _ _ _ _ Hat), Hvalues, Hworld.
    destruct (continue_to_analyses llms_with_tools tools schedule state w)
      as [[u w']| |] eqn:Hc; [|reflexivity|reflexivity].
    exfalso. exact (Hnot u w' eq_refl).
Qed.

(** ** The decision step *)

Lemma prefix_occurs (needle hay : string) :
  String.prefix needle hay = true -> exists post, hay = (needle ++ post)%string.
Proof.
  revert hay. induction needle as [|c needle IH]; intros hay H.
  - now exists hay.
  - destruct hay as [|d hay]; simpl in H; [discriminate|].
    destruct (Ascii.ascii_dec c d) as [E|]; [subst d|discriminate].
    destruct (IH _ H) as [post ->]. now exists post.
Qed.

Lemma occurs_prefix (needle post : string) :
  String.prefix needle (needle ++ post)%string = true.
Proof.
  induction needle as [|c needle IH]; simpl.
  - now destruct post.
  - destruct (Ascii.ascii_dec c c); [exact IH | congruence].
Qed.

Lemma contains_occurs (needle hay : string) :
  Fmt.contains needle hay = true <-> Fmt.occurs needle hay.
Proof.
  split.
  - induction hay as [|d hay IH]; cbn [Fmt.contains]; intros H.
    + destruct (String.prefix needle "") eqn:E; [|discriminate H].
      destruct (prefix_occurs _ _ E) as [post Hp]. exists ""%string, post. exact Hp.
    + destruct (String.prefix needle (String d hay)) eqn:E.
      * destruct (prefix_occurs _ _ E) as [post Hp]. exists ""%string, post. exact Hp.
      * destruct (IH H) as [pre [post Hp]]. exists (String d pre), post.
        cbn [String.append]. now rewrite Hp.
  - intros [pre [post ->]]. induction pre as [|d pre IH].
    + cbn [String.append].
      destruct (needle ++ post)%string eqn:E; cbn [Fmt.contains];
        rewrite <- E, occurs_prefix; reflexivity.
    + cbn [String.append Fmt.contains].
      destruct (String.prefix needle (String d (pre ++ needle ++ post))); [reflexivity|].
      exact IH.
Qed.

(** The prompt is the template with the three values put in. *)
Lemma decision_prompt_filled (s : State) :
  decision_prompt s =
  Ok (nl ++ "    Based on the fundamental analysis: "
         ++ get (fundamental_analysis s) "Not available" ++ nl
         ++ "    And technical analysis: "
         ++ get (technical_analysis s) "Not available" ++ nl
         ++ "    " ++ nl
         ++ "    Make a buy, sell, or hold decision for "
         ++ get (stock_name s) "Unknown" ++ "." ++ nl
         ++ "    ")%string.
Proof. reflexivity. Qed.

(** C6.  With the three fields set to the given texts, the formatted
    decision prompt contains each text verbatim and none of the three
    placeholder tokens (indeed no brace at all). *)
Theorem decision_prompt_substitution (history : list message) (d : option string) :
  let state := {| messages := history;
                  stock_name := Some "Tata Motors Ltd. (NSE:TATAMOTORS)";
                  fundamental_analysis := Some "Strong revenue growth";
                  technical_analysis := Some "Bullish breakout";
                  decision := d |} in
  exists prompt,
    decision_prompt state = Ok prompt /\
    Fmt.occurs "Strong revenue growth" prompt /\
    Fmt.occurs "Bullish breakout" prompt /\
    Fmt.occurs "Tata Motors Ltd. (NSE:TATAMOTORS)" prompt /\
    ~ Fmt.occurs "{fundamental_analysis}" prompt /\
    ~ Fmt.occurs "{technical_analysis}" prompt /\
    ~ Fmt.occurs "{stock_name}" prompt /\
    ~ Fmt.occurs "{" prompt /\ ~ Fmt.occurs "}" prompt.
Proof.
  intros state. eexists. split; [reflexivity|].
  repeat split;
    try (apply contains_occurs; vm_compute; reflexivity);
    intros H; apply contains_occurs in H; vm_compute in H; discriminate.
Qed.

(** C7.  A state without [fundamental_analysis] gets the text
    [Not available] at the place of that field in the decision prompt; so
    does one without [technical_analysis]; one without [stock_name] gets
    [Unknown]. *)
Theorem missing_field_defaults (s : State) :
  (fundamental_analysis s = None ->
   decision_prompt s =
   Ok (nl ++ "    Based on the fundamental analysis: " ++ "Not available" ++ nl
          ++ "    And technical analysis: "
          ++ get (technical_analysis s) "Not available" ++ nl
          ++ "    " ++ nl
          ++ "    Make a buy, sell, or hold decision for "
          ++ get (stock_name s) "Unknown" ++ "." ++ nl
          ++ "    ")%string) /\
  (technical_analysis s = None ->
   decision_prompt s =
   Ok (nl ++ "    Based on the fundamental analysis: "
          ++ get (fundamental_analysis s) "Not available" ++ nl
          ++ "    And technical analysis: " ++ "Not available" ++ nl
          ++ "    " ++ nl
          ++ "    Make a buy, sell, or hold decision for "
          ++ get (stock_name s) "Unknown" ++ "." ++ nl
          ++ "    ")%string) /\
  (stock_name s = None ->
   decision_prompt s =
   Ok (nl ++ "    Based on the fundamental analysis: "
          ++ get (fundamental_analysis s) "Not available" ++ nl
          ++ "    And technical analysis: "
          ++ get (technical_analysis s) "Not available" ++ nl
          ++ "    " ++ nl
          ++ "    Make a buy, sell, or hold decision for " ++ "Unknown" ++ "." ++ nl
          ++ "    ")%string).
Proof.
  repeat split; intros H; rewrite decision_prompt_filled, H; reflexivity.
Qed.

Lemma make_decision_returns
      (reasoning_llm : nat -> result message)
      (state : State) (w : World) (prompt : string) (response : message) :
  decision_prompt state = Ok prompt ->
  reasoning_llm (length (reasoning_log w)) = Ok response ->
  make_decision reasoning_llm state w =
  Ok ({| messages := [response];
         stock_name := None;
         fundamental_analysis := None;
         technical_analysis := None;
         decision := Some (content response) |},
      {| llm_log := llm_log w;
         reasoning_log := reasoning_log w ++ [[user prompt]] |}).
Proof.
  intros Hp Hr. unfold make_decision, bind, lift. rewrite Hp.
  cbn [rbind fst snd]. unfold reasoning_ainvoke. rewrite Hr. reflexivity.
Qed.

Lemma step_make_decision
      (llms_with_tools : loop -> nat -> result message)
      (reasoning_llm : nat -> result message)
      (tools : ToolCall -> result string) (schedule : list bool) (c : Config) :
  at_node c = "make_decision" ->
  step (stock_graph llms_with_tools reasoning_llm tools schedule) c =
  rbind (make_decision reasoning_llm (values c) (world c))
        (fun uw =>
           Ok {| at_node := END;
                 values := apply_update (values c) (fst uw);
                 world := snd uw;
                 trail := trail c ++ [("make_decision", fst uw)] |}).
Proof.
  intros Hat. unfold step. rewrite Hat. simpl.
  destruct (make_decision _ _ _); reflexivity.
Qed.

(** C8.  Whatever the decision model answers, the decision step returns the
    text of the answer as the value of [decision], and the workflow ends
    with that text in its state: no step compares it with the declared
    values [buy], [sell], [hold], and a text outside them is stored like any
    other. *)
Theorem decision_not_validated
    (reasoning_llm : nat -> result message)
    (state : State) (w : World) (response : message) :
  reasoning_llm (length (reasoning_log w)) = Ok response ->
  (exists prompt u w',
      decision_prompt state = Ok prompt /\
      make_decision reasoning_llm state w = Ok (u, w') /\
      u = {| messages := [response];
             stock_name := None;
             fundamental_analysis := None;
             technical_analysis := None;
             decision := Some (content response) |} /\
      w' = {| llm_log := llm_log w;
              reasoning_log := reasoning_log w ++ [[user prompt]] |} /\
      decision (apply_update state u) = Some (content response)) /\
  (forall llms_with_tools tools schedule c,
      at_node c = "make_decision" -> values c = state -> world c = w ->
      exists c',
        run 1 (stock_graph llms_with_tools reasoning_llm tools schedule) c = Ok c' /\
        at_node c' = END /\
        decision (values c') = Some (content response)) /\
  (exists text,
      ~ In text decision_literal /\
      forall s w0, exists u w',
        make_decision (fun _ => Ok (canned text)) s w0 = Ok (u, w') /\
        decision (apply_update s u) = Some text).
Proof.
  intros Hr. split; [|split].
  - eexists. eexists. eexists.
    split; [apply decision_prompt_filled|].
    split; [exact (make_decision_returns _ _ _ _ _ (decision_prompt_filled state) Hr)|].
    repeat split.
  - intros llms_with_tools tools schedule c Hat Hvalues Hworld.
    assert (Hnf : finished c = false) by (unfold finished; now rewrite Hat).
    rewrite run_unfold by exact Hnf.
    rewrite (step_make_decision _ _ _ _ _ Hat), Hvalues, Hworld.
    rewrite (make_decision_returns _ _ _ _ _ (decision_prompt_filled state) Hr).
    cbn [rbind fst snd]. eexists. split; [reflexivity|]. split; reflexivity.
  - exists "strong buy, then hold"%string. split.
    + intros H. repeat (destruct H as [H|H]; [discriminate H|]). exact H.
    + intros s w0. eexists. eexists.
      split; [exact (make_decision_returns _ s w0 _ (canned "strong buy, then hold")
                       (decision_prompt_filled s) eq_refl)
             | reflexivity].
Qed.

(** ** End to end *)

(** C5.  Seeded with the one user message, with canned responses without
    tool calls for the name, the two analyses and the decision [buy], the
    workflow ends, under every schedule that gives both analysis tasks a
    turn, with the name, both analysis texts and the decision [buy] in its
    state, and with a message history made of the user message followed by
    the four model responses: name, fundamental, technical, decision. *)
Theorem end_to_end_scenario
    (fa ta : string) (tools : ToolCall -> result string)
    (schedule : list bool) (fuel : nat) :
  1 <= turns true schedule ->
  1 <= turns false schedule ->
  3 <= fuel ->
  exists c,
    graph_ainvoke fuel
      (stock_graph (scenario_llm fa ta) scenario_reasoning tools schedule)
      scenario_input fresh_world = Ok c /\
    values c = {| messages := [user "Analyze Reliance Industries";
                               canned scenario_name;
                               canned fa;
                               canned ta;
                               canned "buy"];
                  stock_name := Some scenario_name;
                  fundamental_analysis := Some fa;
                  technical_analysis := Some ta;
                  decision := Some "buy" |} /\
    length (filter (fun m => match role m with AI _ => true | _ => false end)
                   (messages (values c))) = 4 /\
    length (messages (values c)) = 5 /\
    map fst (trail c) = ["stock_name"; "continue_to_analyses"; "make_decision"] /\
    length (llm_log (world c)) = 1 /\
    length (reasoning_log (world c)) = 1.
Proof.
  intros Hf Ht Hfuel.
  set (g := stock_graph (scenario_llm fa ta) scenario_reasoning tools schedule).
  set (F := fsubgraph (scenario_llm fa ta) tools).
  set (T := tsubgraph (scenario_llm fa ta) tools).
  set (cf := {| at_node := "fundamental_analysis";
                values := analysis_input scenario_name;
                world := fresh_world; trail := [] |}).
  set (ct := {| at_node := "technical_analysis";
                values := analysis_input scenario_name;
                world := fresh_world; trail := [] |}).
  assert (Hsf : start F (analysis_input scenario_name) fresh_world = Ok cf)
    by reflexivity.
  assert (Hst : start T (analysis_input scenario_name) fresh_world = Ok ct)
    by reflexivity.
  pose (rf := run 1 F cf).
  assert (Hrf : run 1 F cf = rf) by reflexivity.
  pose (rt := run 1 T ct).
  assert (Hrt : run 1 T ct = rt) by reflexivity.
  vm_compute in rf. vm_compute in rt. subst rf rt.
  pose (c1 := step g {| at_node := "stock_name";
                        values := apply_update empty_state scenario_input;
                        world := fresh_world; trail := [] |}).
  assert (H1 : step g {| at_node := "stock_name";
                         values := apply_update empty_state scenario_input;
                         world := fresh_world; trail := [] |} = c1) by reflexivity.
  vm_compute in c1. subst c1.
  match type of H1 with _ = Ok ?c => set (k1 := c) in * end.
  assert (H2 : exists k2,
             step g k1 = Ok k2 /\
             at_node k2 = "make_decision" /\
             values k2 = {| messages := [user "Analyze Reliance Industries";
                                         canned scenario_name; canned fa; canned ta];
                            stock_name := Some scenario_name;
                            fundamental_analysis := Some fa;
                            technical_analysis := Some ta;
                            decision := None |} /\
             world k2 = world k1 /\
             map fst (trail k2) = ["stock_name"; "continue_to_analyses"]).
  { unfold g. rewrite step_continue_to_analyses by reflexivity.
    rewrite (continue_to_analyses_form (scenario_llm fa ta) tools schedule
               (values k1) (world k1) scenario_name cf ct eq_refl Hsf Hst).
    fold F T.
    rewrite (gather_complete F T schedule 1 1 cf ct _ _ Hrf Hrt Hf Ht).
    cbn [rbind fst snd values subscript fundamental_analysis technical_analysis].
    eexists. split; [reflexivity|]. repeat split. }
  destruct H2 as [k2 [H2 [Hat2 [Hv2 [Hw2 Ht2]]]]].
  assert (H3 : step g k2
               = Ok {| at_node := END;
                       values := apply_update (values k2)
                                   {| messages := [canned "buy"];
                                      stock_name := None;
                                      fundamental_analysis := None;
                                      technical_analysis := None;
                                      decision := Some "buy" |};
                       world := {| llm_log := llm_log (world k2);
                                   reasoning_log :=
                                     reasoning_log (world k2)
                                     ++ [[user (nl ++ "    Based on the fundamental analysis: "
                                                   ++ fa ++ nl
                                                   ++ "    And technical analysis: "
                                                   ++ ta ++ nl
                                                   ++ "    " ++ nl
                                                   ++ "    Make a buy, sell, or hold decision for "
                                                   ++ scenario_name ++ "." ++ nl
                                                   ++ "    ")%string]] |};
                       trail := trail k2
                                ++ [("make_decision",
                                     {| messages := [canned "buy"];
                                        stock_name := None;
                                        fundamental_analysis := None;
                                        technical_analysis := None;
                                        decision := Some "buy" |})] |}).
  { unfold g. rewrite step_make_decision by exact Hat2.
    rewrite (make_decision_returns scenario_reasoning (values k2) (world k2) _
               (canned "buy") (decision_prompt_filled (values k2)) eq_refl).
    rewrite Hv2. reflexivity. }
  match type of H3 with _ = Ok ?c => set (k3 := c) in * end.
  assert (Hrun : run 3 g {| at_node := "stock_name";
                            values := apply_update empty_state scenario_input;
                            world := fresh_world; trail := [] |} = Ok k3).
  { rewrite run_unfold by reflexivity. rewrite H1. cbn [rbind].
    rewrite run_unfold by reflexivity. rewrite H2. cbn [rbind].
    rewrite run_unfold by (unfold finished; now rewrite Hat2).
    rewrite H3. cbn [rbind]. apply run_finished. reflexivity. }
  exists k3. split.
  - unfold graph_ainvoke. change (start g scenario_input fresh_world)
      with (Ok {| at_node := "stock_name";
                  values := apply_update empty_state scenario_input;
                  world := fresh_world; trail := [] |}).
    cbn [rbind]. rewrite (run_more 3 fuel); [exact Hrun | | exact Hfuel].
    rewrite Hrun. discriminate.
  - unfold k3. cbn [values world trail]. rewrite Hv2, Hw2, map_app, Ht2.
    repeat split.
Qed.

(** ** The theorems at sample inputs *)

Lemma sample_answers (who : loop) :
  answers (sample_llm who) 0 [sample_request who; sample_answer who].
Proof.
  intros i r H. destruct i as [|[|i]]; simpl in H.
  - injection H as <-. reflexivity.
  - injection H as <-. reflexivity.
  - destruct i; discriminate H.
Defined.

Lemma sample_fresh (who : loop) :
  fresh_ids (ids (messages (values (sample_start who))))
            [sample_request who; sample_answer who].
Proof.
  destruct who; simpl; repeat split; intros H;
    repeat (destruct H as [H|H]; [discriminate H|]); exact H.
Defined.

Lemma sample_round_ok (who : loop) :
  Forall (round_ok sample_tools) [(sample_request who, [sample_tool_result who])].
Proof. constructor; [split; reflexivity | constructor]. Defined.

Lemma tool_loop_rounds_witness :
  (at_node (sample_start FundamentalAnalysis) = loop_node FundamentalAnalysis /\
   knows_stock FundamentalAnalysis "Tata Motors Ltd. (NSE:TATAMOTORS)"
               (values (sample_start FundamentalAnalysis)) /\
   no_tool_calls (sample_answer FundamentalAnalysis) = true) /\
  exists c',
    loop_steps sample_llm scenario_reasoning sample_tools []
               FundamentalAnalysis 3 (sample_start FundamentalAnalysis) = Ok c' /\
    at_node c' = END /\
    visits "fundamental_analysis_tools" (trail c') = 1 /\
    length (llm_log (world c')) = 2 /\
    messages (values c') = [sample_request FundamentalAnalysis;
                            sample_tool_result FundamentalAnalysis;
                            sample_answer FundamentalAnalysis].
Proof.
  split; [repeat split|].
  destruct (tool_loop_rounds sample_llm scenario_reasoning sample_tools []
              FundamentalAnalysis "Tata Motors Ltd. (NSE:TATAMOTORS)"
              (sample_start FundamentalAnalysis)
              [(sample_request FundamentalAnalysis,
                [sample_tool_result FundamentalAnalysis])]
              (sample_answer FundamentalAnalysis)
              eq_refl eq_refl (sample_round_ok FundamentalAnalysis) eq_refl
              (sample_answers FundamentalAnalysis)
              (sample_fresh FundamentalAnalysis))
    as [c' [H1 [H2 [_ [H4 [_ [H6 [H7 _]]]]]]]].
  exists c'. repeat split; assumption.
Defined.

Lemma tool_loop_first_answer_witness :
  (at_node (sample_start TechnicalAnalysis) = loop_node TechnicalAnalysis /\
   scenario_llm "FA" "TA" TechnicalAnalysis 0 = Ok (canned "TA") /\
   no_tool_calls (canned "TA") = true) /\
  exists c',
    loop_steps (scenario_llm "FA" "TA") scenario_reasoning sample_tools []
               TechnicalAnalysis 1 (sample_start TechnicalAnalysis) = Ok c' /\
    technical_analysis (values c') = Some "TA" /\
    messages (values c') = [canned "TA"].
Proof.
  split; [repeat split|].
  destruct (tool_loop_first_answer (scenario_llm "FA" "TA") scenario_reasoning
              sample_tools [] TechnicalAnalysis "Tata Motors Ltd. (NSE:TATAMOTORS)"
              (sample_start TechnicalAnalysis) (canned "TA")
              eq_refl eq_refl eq_refl eq_refl I)
    as [c' [H1 [_ [_ [_ [H5 H6]]]]]].
  exists c'. repeat split; [apply H1; apply le_n | exact H5 | exact H6].
Defined.

Lemma sample_fresh_model (who : loop) :
  fresh_model (sample_llm who) 0 (ids (messages (values (sample_start who)))).
Proof.
  apply (fresh_model_of_run (sample_llm who) 0 _
           [sample_request who] (sample_answer who)).
  - exact (sample_answers who).
  - reflexivity.
  - exact (sample_fresh who).
Defined.


Lemma prompt_not_stored_witness :
  exists c,
    loop_steps sample_llm scenario_reasoning sample_tools []
               FundamentalAnalysis 3 (sample_start FundamentalAnalysis) = Ok c /\
    exists rounds ph,
      messages (values c) = [] ++ transcript rounds ++ phase_messages ph /\
      llm_log (world c)
      = [] ++ model_inputs (prompt_prefix FundamentalAnalysis
                                          "Tata Motors Ltd. (NSE:TATAMOTORS)")
                           [] (batches rounds ph).
Proof.
  assert (Hrun : exists c,
             loop_steps sample_llm scenario_reasoning sample_tools []
                        FundamentalAnalysis 3 (sample_start FundamentalAnalysis)
             = Ok c)
    by (eexists; vm_compute; reflexivity).
  destruct Hrun as [c Hc]. exists c. split; [exact Hc|].
  destruct (proj1 (prompt_not_stored sample_llm scenario_reasoning sample_tools [])
              FundamentalAnalysis "Tata Motors Ltd. (NSE:TATAMOTORS)"
              (sample_start FundamentalAnalysis) c 3
              eq_refl eq_refl (sample_fresh_model FundamentalAnalysis) Hc)
    as [rounds [ph [sent [Hlog [Hsent [_ [Hm _]]]]]]].
  exists rounds, ph. split; [exact Hm|]. rewrite Hlog, Hsent. reflexivity.
Defined.

Lemma aggregator_merge_order_witness :
  exists cf' ct',
    graph_ainvoke 3 (fsubgraph sample_llm sample_tools)
                  (analysis_input "Tata Motors Ltd. (NSE:TATAMOTORS)") fresh_world
    = Ok cf' /\
    graph_ainvoke 3 (tsubgraph sample_llm sample_tools)
                  (analysis_input "Tata Motors Ltd. (NSE:TATAMOTORS)") fresh_world
    = Ok ct' /\
    forall schedule,
      3 <= turns true schedule -> 3 <= turns false schedule ->
      continue_to_analyses sample_llm sample_tools schedule
        (values (sample_start FundamentalAnalysis)) fresh_world
      = Ok ({| messages := messages (values cf') ++ messages (values ct');
               stock_name := None;
               fundamental_analysis := Some "Strong revenue growth";
               technical_analysis := Some "Bullish breakout";
               decision := None |}, fresh_world).
Proof.
  assert (Hf : exists cf',
             graph_ainvoke 3 (fsubgraph sample_llm sample_tools)
               (analysis_input "Tata Motors Ltd. (NSE:TATAMOTORS)") fresh_world
             = Ok cf' /\
             fundamental_analysis (values cf') = Some "Strong revenue growth")
    by (eexists; split; [vm_compute; reflexivity | reflexivity]).
  assert (Ht : exists ct',
             graph_ainvoke 3 (tsubgraph sample_llm sample_tools)
               (analysis_input "Tata Motors Ltd. (NSE:TATAMOTORS)") fresh_world
             = Ok ct' /\
             technical_analysis (values ct') = Some "Bullish breakout")
    by (eexists; split; [vm_compute; reflexivity | reflexivity]).
  destruct Hf as [cf' [Hf Hfa]]. destruct Ht as [ct' [Ht Hta]].
  exists cf', ct'. split; [exact Hf|]. split; [exact Ht|].
  intros schedule Hnf Hnt.
  exact (proj2 (proj2 (aggregator_merge_order sample_llm sample_tools
                         (values (sample_start FundamentalAnalysis))
                         "Tata Motors Ltd. (NSE:TATAMOTORS)" 3 3 cf' ct'
                         eq_refl Hf Ht))
               schedule fresh_world "Strong revenue growth" "Bullish breakout"
               Hnf Hnt Hfa Hta).
Defined.

Lemma end_to_end_scenario_witness :
  (1 <= turns true [false; true] /\ 1 <= turns false [false; true] /\ 3 <= 3) /\
  exists c,
    graph_ainvoke 3
      (stock_graph (scenario_llm "FA" "TA") scenario_reasoning sample_tools
                   [false; true])
      scenario_input fresh_world = Ok c /\
    decision (values c) = Some "buy" /\
    length (messages (values c)) = 5.
Proof.
  assert (H1 : 1 <= turns true [false; true]) by apply le_n.
  assert (H2 : 1 <= turns false [false; true]) by apply le_n.
  split; [repeat split; apply le_n|].
  destruct (end_to_end_scenario "FA" "TA" sample_tools [false; true] 3
              H1 H2 (le_n 3)) as [c [Hc [Hv [_ [Hl _]]]]].
  exists c. split; [exact Hc|]. split; [now rewrite Hv | exact Hl].
Defined.

Lemma missing_field_defaults_witness :
  fundamental_analysis empty_state = None /\
  Fmt.occurs "Based on the fundamental analysis: Not available"
             match decision_prompt empty_state with
             | Ok prompt => prompt
             | _ => ""
             end.
Proof.
  split; [reflexivity|].
  rewrite (proj1 (missing_field_defaults empty_state) eq_refl).
  apply contains_occurs. vm_compute. reflexivity.
Defined.

Lemma decision_not_validated_witness :
  ~ In "sell half" decision_literal /\
  exists u w',
    make_decision (fun _ => Ok (canned "sell half")) empty_state fresh_world
    = Ok (u, w') /\
    decision (apply_update empty_state u) = Some "sell half".
Proof.
  split.
  - intros H. repeat (destruct H as [H|H]; [discriminate H|]). exact H.
  - destruct (proj1 (decision_not_validated (fun _ => Ok (canned "sell half"))
                       empty_state fresh_world (canned "sell half") eq_refl))
      as [prompt [u [w' [_ [Hm [_ [_ Hd]]]]]]].
    exists u, w'. split; [exact Hm | exact Hd].
Defined.

Lemma aggregator_fails_as_a_whole_witness :
  graph_ainvoke 1 (fsubgraph failing_llm sample_tools)
                (analysis_input "Tata Motors Ltd. (NSE:TATAMOTORS)") fresh_world
  = Raise (ModelError "quota exceeded") /\
  (forall u w',
      continue_to_analyses failing_llm sample_tools [false; true; false]
        (values (sample_start TechnicalAnalysis)) fresh_world <> Ok (u, w')) /\
  exists e',
    continue_to_analyses failing_llm sample_tools [false; true; false]
      (values (sample_start TechnicalAnalysis)) fresh_world = Raise e'.
Proof.
  split; [reflexivity|].
  destruct (aggregator_fails_as_a_whole failing_llm scenario_reasoning sample_tools
              (values (sample_start TechnicalAnalysis))
              "Tata Motors Ltd. (NSE:TATAMOTORS)" 1 (ModelError "quota exceeded")
              eq_refl (or_introl eq_refl) [false; true; false] fresh_world)
    as [Hnot [_ [Hraise _]]].
  split; [exact Hnot|].
  apply Hraise; [apply le_n | apply le_S, le_n].
Defined.

(** * Further properties of the code *)

(** ** Missing stock name *)

(** X1.  An analysis graph invoked with an input that has no [stock_name]
    raises [KeyError] for that key at its first step, whatever the model,
    the tools and the other fields of the input; the join raises the same
    error before it starts either graph. *)
Theorem analysis_needs_stock_name
    (llms_with_tools : loop -> nat -> result message)
    (tools : ToolCall -> result string) (schedule : list bool)
    (input : State) (w : World) (fuel : nat) :
  stock_name input = None ->
  graph_ainvoke (S fuel) (fsubgraph llms_with_tools tools) input w
  = Raise (KeyError "stock_name") /\
  graph_ainvoke (S fuel) (tsubgraph llms_with_tools tools) input w
  = Raise (KeyError "stock_name") /\
  continue_to_analyses llms_with_tools tools schedule input w
  = Raise (KeyError "stock_name").
Proof.
  intros Hname. repeat split.
  - rewrite (graph_ainvoke_run (S fuel) (fsubgraph llms_with_tools tools) input w
               {| at_node := "fundamental_analysis";
                  values := apply_update empty_state input;
                  world := w; trail := [] |} eq_refl).
    rewrite run_unfold by reflexivity.
    unfold step. cbn [at_node nodes fsubgraph assoc String.eqb Ascii.eqb Bool.eqb
                      values world].
    unfold get_fundamental_analysis, bind, lift. cbn [apply_update stock_name].
    now rewrite Hname.
  - rewrite (graph_ainvoke_run (S fuel) (tsubgraph llms_with_tools tools) input w
               {| at_node := "technical_analysis";
                  values := apply_update empty_state input;
                  world := w; trail := [] |} eq_refl).
    rewrite run_unfold by reflexivity.
    unfold step. cbn [at_node nodes tsubgraph assoc String.eqb Ascii.eqb Bool.eqb
                      values world].
    unfold get_technical_analysis, bind, lift. cbn [apply_update stock_name].
    now rewrite Hname.
  - unfold continue_to_analyses, bind, lift. now rewrite Hname.
Qed.

Lemma analysis_needs_stock_name_witness :
  stock_name scenario_input = None /\
  graph_ainvoke 5 (fsubgraph sample_llm sample_tools) scenario_input fresh_world
  = Raise (KeyError "stock_name").
Proof.
  split; [reflexivity|].
  exact (proj1 (analysis_needs_stock_name sample_llm sample_tools []
                  scenario_input fresh_world 4 eq_refl)).
Defined.

(** ** Failures inside a tool loop *)

(** Steps taken before a stop are the first steps of the run to the end. *)
Lemma run_steps_until (stop : string) (g : Graph) (n : nat) :
  assoc END (nodes g) = None ->
  forall c c',
    steps_until stop n g c = Ok c' ->
    exists k, k <= n /\ forall fuel, run (k + fuel) g c = run fuel g c'.
Proof.
  intros Hend. induction n as [|n IH]; intros c c' H; simpl in H.
  - injection H as <-. exists 0. split; [lia | reflexivity].
  - destruct (String.eqb (at_node c) stop).
    + injection H as <-. exists 0. split; [lia | reflexivity].
    + destruct (step g c) as [c1| |] eqn:Hstep; simpl in H; try discriminate.
      assert (Hnf : finished c = false).
      { unfold finished. destruct (String.eqb_spec (at_node c) END) as [E|]; [|reflexivity].
        unfold step in Hstep. rewrite E, Hend in Hstep. discriminate. }
      destruct (IH _ _ H) as [k [Hk Hrun]].
      exists (S k). split; [lia|]. intros fuel.
      change (S k + fuel) with (S (k + fuel)).
      rewrite run_unfold by exact Hnf. rewrite Hstep. apply Hrun.
Qed.

Lemma steps_until_unfinished (n : nat) (g : Graph) :
  forall c c',
    steps_until END n g c = Ok c' -> finished c' = false ->
    run n g c = Unfinished.
Proof.
  induction n as [|n IH]; intros c c' H Hnf; simpl in H.
  - injection H as <-. simpl. now rewrite Hnf.
  - unfold finished in *. simpl. unfold finished.
    destruct (String.eqb (at_node c) END) eqn:E.
    + injection H as <-. congruence.
    + destruct (step g c) as [c1| |]; simpl in *; try discriminate.
      eapply IH; eauto.
Qed.

Lemma run_tools_raise (tools : ToolCall -> result string)
      (calls : list ToolCall) (e : error) :
  run_tools tools calls = Raise e ->
  exists call, In call calls /\ tools call = Raise e.
Proof.
  induction calls as [|c calls IH]; simpl; intros H; [discriminate|].
  unfold run_tool in H. destruct (tools c) as [out| |] eqn:Hc; simpl in H.
  - destruct (run_tools tools calls) as [outs| |]; simpl in H; try discriminate.
    destruct (IH H) as [call [Hin Hcall]]. exists call. auto.
  - injection H as <-. exists c. auto.
  - discriminate.
Qed.

Section LoopFailures.

Variable llms_with_tools : loop -> nat -> result message.
Variable reasoning_llm : nat -> result message.
Variable tools : ToolCall -> result string.
Variable schedule : list bool.

Let G (k : loop) : Graph :=
  loop_graph llms_with_tools reasoning_llm tools schedule k.

Let inv := loop_inv llms_with_tools tools.

Lemma loop_graph_no_end_node (k : loop) : assoc END (nodes (G k)) = None.
Proof. destruct k; reflexivity. Qed.

Lemma phase_node_not_end (k : loop) (ph : phase) :
  (forall r, ph <> done r) -> phase_node k ph <> END /\ phase_node k ph <> loop_exit k.
Proof.
  intros Hnd. destruct ph as [| |r]; [| |now destruct (Hnd r)];
    destruct k; split; discriminate.
Qed.

(** From [awaiting_model], the rounds to come leave the loop in
    [awaiting_model] again. *)
Lemma loop_rounds_progress (k : loop) (name : string) (c0 : Config)
      (todo : list round) :
  knows_stock k name (values c0) ->
  Forall (round_ok tools) todo ->
  forall (finished_rounds : list round) (c : Config),
    inv k name c0 c finished_rounds awaiting_model ->
    answers (llms_with_tools k) (length (llm_log (world c0)))
            (map fst (finished_rounds ++ todo)) ->
    fresh_ids (ids (messages (values c0))) (map fst (finished_rounds ++ todo)) ->
    exists c',
      steps_until (loop_exit k) (2 * length todo) (G k) c = Ok c' /\
      inv k name c0 c' (finished_rounds ++ todo) awaiting_model.
Proof.
  intros Hname Htodo.
  induction Htodo as [|[r outs] todo [Hreq Hrun] _ IH];
    intros fin c Hinv Hans Hfresh.
  - rewrite app_nil_r. exists c. split; [reflexivity | exact Hinv].
  - simpl in Hreq, Hrun.
    assert (Hsplit : map fst (fin ++ (r, outs) :: todo)
                     = (map fst fin ++ [r]) ++ map fst todo).
    { rewrite map_app. simpl. now rewrite <- app_assoc. }
    destruct (inv_model _ reasoning_llm _ schedule k name c0 c fin r Hname Hinv)
      as [c1 [Hstep1 Hinv1]].
    + rewrite <- (length_map fst fin). apply (answers_at _ _ _ (map fst todo)).
      rewrite Hsplit, <- app_assoc in Hans. exact Hans.
    + rewrite Hsplit in Hfresh. apply fresh_ids_app in Hfresh. apply Hfresh.
    + rewrite Hreq in Hinv1.
      destruct (inv_tools _ reasoning_llm _ schedule k name c0 c1 fin r outs Hinv1 Hrun)
        as [c2 [Hstep2 Hinv2]].
      replace (fin ++ (r, outs) :: todo) with ((fin ++ [(r, outs)]) ++ todo) in *
        by (now rewrite <- app_assoc).
      destruct (IH _ _ Hinv2 Hans Hfresh) as [c' [Hrun' Hinv']].
      exists c'. split; [|exact Hinv'].
      replace (2 * length ((r, outs) :: todo)) with (S (S (2 * length todo)))
        by (simpl; lia).
      rewrite (steps_until_step _ _ _ c c1).
      * rewrite (steps_until_step _ _ _ c1 c2); [exact Hrun' | | exact Hstep2].
        rewrite (inv_node _ _ _ _ _ _ _ _ Hinv1). apply loop_exit_not_tools.
      * rewrite (inv_node _ _ _ _ _ _ _ _ Hinv). apply loop_exit_not_node.
      * exact Hstep1.
Qed.

(** A step that raises inside a loop raises what the model or a tool
    raised. *)
Lemma inv_step_raise (k : loop) (name : string) (c0 c : Config)
      (rounds : list round) (ph : phase) (e : error) :
  knows_stock k name (values c0) ->
  fresh_model (llms_with_tools k) (length (llm_log (world c0)))
              (ids (messages (values c0))) ->
  inv k name c0 c rounds ph ->
  (forall r, ph <> done r) ->
  step (G k) c = Raise e ->
  (exists i, llms_with_tools k i = Raise e) \/
  (exists call, tools call = Raise e).
Proof.
  intros Hname Hfresh Hinv Hnd Hstep.
  destruct ph as [|r|r]; [| |now destruct (Hnd r)].
  - pose proof (inv_knows _ _ _ _ _ _ _ _ Hname Hinv) as Hknows.
    pose proof (inv_invocations _ _ _ _ _ _ _ _ Hinv) as Hlen. simpl in Hlen.
    pose proof Hstep as Hform. unfold G in Hform.
    rewrite (step_model_form _ _ _ _ _ _ _ (inv_node _ _ _ _ _ _ _ _ Hinv) Hknows)
      in Hform.
    rewrite Hlen, Nat.add_0_r in Hform.
    destruct (llms_with_tools k _) as [r| |] eqn:Hr; simpl in Hform;
      try discriminate.
    + exfalso.
      destruct (inv_model _ reasoning_llm _ schedule k name c0 c rounds r Hname Hinv Hr)
        as [c1 [Hstep1 _]].
      * apply Hfresh.
        -- apply (rounds_request_tools tools). exact (inv_rounds _ _ _ _ _ _ _ _ Hinv).
        -- apply answers_snoc; [|now rewrite length_map].
           pose proof (inv_answers _ _ _ _ _ _ _ _ Hinv) as H. simpl in H.
           now rewrite app_nil_r in H.
      * unfold G in Hstep. congruence.
    + injection Hform as <-. left. eauto.
  - pose proof Hstep as Hform. unfold G in Hform.
    rewrite (step_tools_form _ _ _ _ _ _ (inv_node _ _ _ _ _ _ _ _ Hinv)) in Hform.
    assert (Hm : messages (values c)
                 = (messages (values c0) ++ transcript rounds) ++ [r]).
    { rewrite (inv_values _ _ _ _ _ _ _ _ Hinv). simpl. now rewrite app_assoc. }
    rewrite Hm, last_message_app in Hform.
    pose proof (inv_phase _ _ _ _ _ _ _ _ Hinv) as Hph. simpl in Hph.
    assert (Hcalls : tool_calls_attr r = Some (requested r)).
    { unfold no_tool_calls, requested in *. now destruct (tool_calls_attr r). }
    rewrite Hcalls in Hform.
    destruct (run_tools tools (requested r)) as [outs| |] eqn:Hrun; simpl in Hform;
      try discriminate.
    injection Hform as <-. right.
    destruct (run_tools_raise _ _ _ Hrun) as [call [_ Hcall]]. eauto.
Qed.

End LoopFailures.

Lemma inv_model_raise
      (llms_with_tools : loop -> nat -> result message)
      (reasoning_llm : nat -> result message)
      (tools : ToolCall -> result string) (schedule : list bool)
      (k : loop) (name : string) (c0 c : Config) (rounds : list round) (e : error) :
  knows_stock k name (values c0) ->
  loop_inv llms_with_tools tools k name c0 c rounds awaiting_model ->
  llms_with_tools k (length (llm_log (world c0)) + length rounds) = Raise e ->
  step (loop_graph llms_with_tools reasoning_llm tools schedule k) c = Raise e.
Proof.
  intros Hname Hinv Hr.
  pose proof (inv_knows _ _ _ _ _ _ _ _ Hname Hinv) as Hknows.
  pose proof (inv_invocations _ _ _ _ _ _ _ _ Hinv) as Hlen. simpl in Hlen.
  rewrite (step_model_form _ _ _ _ _ _ _ (inv_node _ _ _ _ _ _ _ _ Hinv) Hknows).
  rewrite Hlen, Nat.add_0_r, Hr. reflexivity.
Qed.

Lemma inv_tools_raise
      (llms_with_tools : loop -> nat -> result message)
      (reasoning_llm : nat -> result message)
      (tools : ToolCall -> result string) (schedule : list bool)
      (k : loop) (name : string) (c0 c : Config) (rounds : list round)
      (r : message) (e : error) :
  loop_inv llms_with_tools tools k name c0 c rounds (awaiting_tools r) ->
  run_tools tools (requested r) = Raise e ->
  step (loop_graph llms_with_tools reasoning_llm tools schedule k) c = Raise e.
Proof.
  intros Hinv Hrun.
  rewrite (step_tools_form _ _ _ _ _ _ (inv_node _ _ _ _ _ _ _ _ Hinv)).
  assert (Hm : messages (values c)
               = (messages (values c0) ++ transcript rounds) ++ [r]).
  { rewrite (inv_values _ _ _ _ _ _ _ _ Hinv). simpl. now rewrite app_assoc. }
  rewrite Hm, last_message_app.
  pose proof (inv_phase _ _ _ _ _ _ _ _ Hinv) as Hph. simpl in Hph.
  assert (Hcalls : tool_calls_attr r = Some (requested r)).
  { unfold no_tool_calls, requested in *. now destruct (tool_calls_attr r). }
  now rewrite Hcalls, Hrun.
Qed.

Lemma answers_agree_prefix (model : nat -> result message) (base : nat)
      (rs rs' : list message) :
  answers model base (rs ++ rs') -> answers model base rs.
Proof.
  intros H i x Hi. apply H. rewrite nth_error_app1; [exact Hi|].
  apply nth_error_Some. congruence.
Qed.

(** A configuration inside a loop from which the next step raises: every
    budget that reaches the step makes the loop and the run raise. *)
Lemma raise_after_steps (stop : string) (g : Graph) (m : nat) (c0 c : Config)
      (e : error) :
  assoc END (nodes g) = None ->
  steps_until stop m g c0 = Ok c ->
  at_node c <> stop -> at_node c <> END ->
  step g c = Raise e ->
  forall n, m + 1 <= n ->
    steps_until stop n g c0 = Raise e /\ run n g c0 = Raise e.
Proof.
  intros Hend Hsteps Hstop Hnend Hstep n Hn. split.
  - replace n with (m + S (n - m - 1)) by lia.
    rewrite steps_until_add, Hsteps. cbn [rbind]. simpl.
    destruct (String.eqb_spec (at_node c) stop); [contradiction|].
    now rewrite Hstep.
  - destruct (run_steps_until stop g m Hend c0 c Hsteps) as [k [Hk Hrun]].
    replace n with (k + S (n - k - 1)) by lia.
    rewrite Hrun, run_unfold, Hstep; [reflexivity|].
    unfold finished. now destruct (String.eqb_spec (at_node c) END).
Qed.

(** X2.  No retry of the model: in each tool loop, when the model raises
    on the invocation that follows [N] completed rounds, the loop raises
    that error, and so does the run of its graph, for every step budget of
    at least [2N+1]. *)
Theorem model_failure_aborts_loop
    (llms_with_tools : loop -> nat -> result message)
    (reasoning_llm : nat -> result message)
    (tools : ToolCall -> result string) (schedule : list bool)
    (k : loop) (name : string) (c0 : Config) (rounds : list round) (e : error) :
  at_node c0 = loop_node k ->
  knows_stock k name (values c0) ->
  Forall (round_ok tools) rounds ->
  answers (llms_with_tools k) (length (llm_log (world c0))) (map fst rounds) ->
  llms_with_tools k (length (llm_log (world c0)) + length rounds) = Raise e ->
  fresh_ids (ids (messages (values c0))) (map fst rounds) ->
  forall n, 2 * length rounds + 1 <= n ->
    loop_steps llms_with_tools reasoning_llm tools schedule k n c0 = Raise e /\
    run n (loop_graph llms_with_tools reasoning_llm tools schedule k) c0 = Raise e.
Proof.
  intros Hat Hname Hrounds Hans Hr Hfresh n Hn.
  destruct (loop_rounds_progress llms_with_tools reasoning_llm tools schedule
              k name c0 rounds Hname Hrounds [] c0
              (inv_start _ _ k name c0 Hat) Hans Hfresh) as [c [Hsteps Hinv]].
  simpl app in Hinv.
  pose proof (inv_node _ _ _ _ _ _ _ _ Hinv) as Hnode. simpl in Hnode.
  apply (raise_after_steps (loop_exit k) _ (2 * length rounds) c0 c e).
  - apply loop_graph_no_end_node.
  - exact Hsteps.
  - rewrite Hnode. apply loop_exit_not_node.
  - rewrite Hnode. destruct k; discriminate.
  - eapply inv_model_raise; eauto.
  - exact Hn.
Qed.

(** X3.  No recovery from a failing tool: in each tool loop, when after [N]
    completed rounds the model requests tools and running the requested
    calls raises, the loop raises that error, and so does the run of its
    graph, for every step budget of at least [2N+2]. *)
Theorem tool_failure_aborts_loop
    (llms_with_tools : loop -> nat -> result message)
    (reasoning_llm : nat -> result message)
    (tools : ToolCall -> result string) (schedule : list bool)
    (k : loop) (name : string) (c0 : Config) (rounds : list round)
    (r : message) (e : error) :
  at_node c0 = loop_node k ->
  knows_stock k name (values c0) ->
  Forall (round_ok tools) rounds ->
  answers (llms_with_tools k) (length (llm_log (world c0))) (map fst rounds ++ [r]) ->
  requests_tools r ->
  run_tools tools (requested r) = Raise e ->
  fresh_ids (ids (messages (values c0))) (map fst rounds ++ [r]) ->
  forall n, 2 * length rounds + 2 <= n ->
    loop_steps llms_with_tools reasoning_llm tools schedule k n c0 = Raise e /\
    run n (loop_graph llms_with_tools reasoning_llm tools schedule k) c0 = Raise e.
Proof.
  intros Hat Hname Hrounds Hans Hreq Hrun Hfresh n Hn.
  destruct (loop_rounds_progress llms_with_tools reasoning_llm tools schedule
              k name c0 rounds Hname Hrounds [] c0
              (inv_start _ _ k name c0 Hat)) as [c [Hsteps Hinv]].
  { eapply answers_agree_prefix; exact Hans. }
  { apply fresh_ids_app in Hfresh. apply Hfresh. }
  simpl app in Hinv.
  destruct (inv_model llms_with_tools reasoning_llm tools schedule
              k name c0 c rounds r Hname Hinv) as [c1 [Hstep1 Hinv1]].
  { rewrite <- (length_map fst rounds). apply (answers_at _ _ _ []). exact Hans. }
  { exact Hfresh. }
  unfold requests_tools in Hreq. rewrite Hreq in Hinv1.
  pose proof (inv_node _ _ _ _ _ _ _ _ Hinv) as Hnode. simpl in Hnode.
  pose proof (inv_node _ _ _ _ _ _ _ _ Hinv1) as Hnode1. simpl in Hnode1.
  apply (raise_after_steps (loop_exit k) _ (2 * length rounds + 1) c0 c1 e).
  - apply loop_graph_no_end_node.
  - rewrite steps_until_add. unfold loop_steps in *. rewrite Hsteps. cbn [rbind].
    simpl. destruct (String.eqb_spec (at_node c) (loop_exit k)) as [E|_].
    + rewrite Hnode in E. now apply loop_exit_not_node in E.
    + rewrite Hstep1. reflexivity.
  - rewrite Hnode1. apply loop_exit_not_tools.
  - rewrite Hnode1. destruct k; discriminate.
  - eapply inv_tools_raise; eauto.
  - lia.
Qed.

(** ** Failures of the whole workflow *)

Section WorkflowFailures.

Variable llms_with_tools : loop -> nat -> result message.
Variable reasoning_llm : nat -> result message.
Variable tools : ToolCall -> result string.
Variable schedule : list bool.

Let G (k : loop) : Graph :=
  loop_graph llms_with_tools reasoning_llm tools schedule k.

Let inv := loop_inv llms_with_tools tools.

(** An analysis graph that ends has concluded, and one that raises raised
    what its model or a tool raised. *)
Lemma analysis_run_inv (k : loop) (name : string) (c0 : Config) (n : nat) :
  k <> NameResolution ->
  knows_stock k name (values c0) ->
  fresh_model (llms_with_tools k) (length (llm_log (world c0)))
              (ids (messages (values c0))) ->
  forall c rounds ph,
    inv k name c0 c rounds ph ->
    (forall c', run n (G k) c = Ok c' ->
                exists rounds' r, inv k name c0 c' rounds' (done r)) /\
    (forall e, run n (G k) c = Raise e ->
               (exists i, llms_with_tools k i = Raise e) \/
               (exists call, tools call = Raise e)).
Proof.
  intros Hk Hname Hfresh.
  assert (Hexit : loop_exit k = END) by (destruct k; [contradiction| |]; reflexivity).
  induction n as [|n IH]; intros c rounds ph Hinv.
  - pose proof (inv_node _ _ _ _ _ _ _ _ Hinv) as Hnode.
    simpl. unfold finished. rewrite Hnode.
    destruct ph as [| |r]; simpl.
    + destruct k; [contradiction| |]; simpl; split; intros; discriminate.
    + destruct k; [contradiction| |]; simpl; split; intros; discriminate.
    + rewrite Hexit. simpl. split; [|intros; discriminate].
      intros c' H. injection H as <-. eauto.
  - pose proof (inv_node _ _ _ _ _ _ _ _ Hinv) as Hnode.
    destruct ph as [| |r].
    + assert (Hnf : finished c = false).
      { unfold finished. rewrite Hnode. destruct k; [contradiction| |]; reflexivity. }
      rewrite run_unfold by exact Hnf.
      destruct (step (G k) c) as [c1|e1|] eqn:Hstep; cbn [rbind].
      * destruct (inv_step _ reasoning_llm _ schedule k name c0 c c1 rounds _
                    Hname Hfresh Hinv) as [rounds1 [ph1 [Hinv1 _]]];
          [rewrite Hnode; apply loop_exit_not_node | exact Hstep |].
        exact (IH _ _ _ Hinv1).
      * split; [intros; discriminate|]. intros e H. injection H as <-.
        apply (inv_step_raise llms_with_tools reasoning_llm tools schedule
                 k name c0 c rounds awaiting_model e1 Hname Hfresh Hinv);
          [discriminate | exact Hstep].
      * split; intros; discriminate.
    + assert (Hnf : finished c = false).
      { unfold finished. rewrite Hnode. destruct k; [contradiction| |]; reflexivity. }
      rewrite run_unfold by exact Hnf.
      destruct (step (G k) c) as [c1|e1|] eqn:Hstep; cbn [rbind].
      * destruct (inv_step _ reasoning_llm _ schedule k name c0 c c1 rounds _
                    Hname Hfresh Hinv) as [rounds1 [ph1 [Hinv1 _]]];
          [rewrite Hnode; apply loop_exit_not_tools | exact Hstep |].
        exact (IH _ _ _ Hinv1).
      * split; [intros; discriminate|]. intros e H. injection H as <-.
        apply (inv_step_raise llms_with_tools reasoning_llm tools schedule
                 k name c0 c rounds (awaiting_tools r) e1 Hname Hfresh Hinv);
          [discriminate | exact Hstep].
      * split; intros; discriminate.
    + rewrite run_finished.
      * split; [|intros; discriminate]. intros c' H. injection H as <-. eauto.
      * unfold finished. rewrite Hnode. simpl. rewrite Hexit. reflexivity.
Qed.

(** The start of an analysis graph and what it knows. *)
Let analysis_start (k : loop) (name : string) : Config :=
  {| at_node := loop_node k;
     values := analysis_input name;
     world := fresh_world;
     trail := [] |}.

Lemma analysis_outcome (k : loop) (name : string) (n : nat) :
  k <> NameResolution ->
  fresh_model (llms_with_tools k) 0 [] ->
  (forall c', run n (G k) (analysis_start k name) = Ok c' ->
              exists r, loop_output k (values c') = Some (content r)) /\
  (forall e, run n (G k) (analysis_start k name) = Raise e ->
             (exists i, llms_with_tools k i = Raise e) \/
             (exists call, tools call = Raise e)).
Proof.
  intros Hk Hfresh.
  assert (Hname : knows_stock k name (values (analysis_start k name)))
    by (destruct k; [contradiction| |]; reflexivity).
  destruct (analysis_run_inv k name (analysis_start k name) n Hk Hname Hfresh
              (analysis_start k name) [] awaiting_model
              (inv_start _ _ k name (analysis_start k name) eq_refl)) as [Hok Hraise].
  split; [|exact Hraise].
  intros c' H. destruct (Hok c' H) as [rounds [r Hinv]].
  exists r. rewrite (inv_values _ _ _ _ _ _ _ _ Hinv).
  destruct k; [contradiction| |]; reflexivity.
Qed.

(** From the join on, the workflow raises only what came from outside. *)
Lemma workflow_tail_raise (name : string) (c : Config) (n : nat) (e : error) :
  at_node c = "continue_to_analyses" ->
  stock_name (values c) = Some name ->
  fresh_model (llms_with_tools FundamentalAnalysis) 0 [] ->
  fresh_model (llms_with_tools TechnicalAnalysis) 0 [] ->
  run n (G NameResolution) c = Raise e ->
  raised_outside llms_with_tools reasoning_llm tools e.
Proof.
  intros Hat Hname Hff Hft Hrun.
  destruct n as [|n]; [simpl in Hrun; destruct (finished c); discriminate|].
  rewrite run_unfold in Hrun by (unfold finished; now rewrite Hat).
  unfold G, loop_graph in Hrun.
  rewrite (step_continue_to_analyses _ _ _ _ _ Hat) in Hrun.
  rewrite (continue_to_analyses_form llms_with_tools tools schedule (values c)
             (world c) name (analysis_start FundamentalAnalysis name)
             (analysis_start TechnicalAnalysis name) Hname eq_refl eq_refl) in Hrun.
  destruct (gather _ _ schedule _ _) as [[cf' ct']| |] eqn:Hg; cbn [rbind] in Hrun.
  - destruct (gather_ok _ _ _ _ _ _ _ Hg) as [[nf Hnf] [nt Hnt]].
    destruct (proj1 (analysis_outcome FundamentalAnalysis name nf
                       ltac:(discriminate) Hff) cf' Hnf) as [rf Hrf].
    destruct (proj1 (analysis_outcome TechnicalAnalysis name nt
                       ltac:(discriminate) Hft) ct' Hnt) as [rt Hrt].
    simpl in Hrf, Hrt. cbn [fst snd] in Hrun. rewrite Hrf, Hrt in Hrun.
    cbn [subscript rbind fst snd] in Hrun.
    destruct n as [|n]; [simpl in Hrun; discriminate|].
    rewrite run_unfold in Hrun by reflexivity.
    match type of Hrun with
    | context [step _ ?c2] =>
        rewrite (step_make_decision llms_with_tools reasoning_llm tools schedule
                   c2 eq_refl) in Hrun
    end.
    cbn [values world] in Hrun.
    unfold make_decision, bind, lift, ret in Hrun.
    rewrite decision_prompt_filled in Hrun. cbn [rbind fst snd] in Hrun.
    unfold reasoning_ainvoke in Hrun.
    destruct (reasoning_llm _) as [rd| |] eqn:Hd; cbn [rbind fst snd] in Hrun.
    + rewrite run_finished in Hrun by reflexivity. discriminate.
    + injection Hrun as <-. right. left. eauto.
    + discriminate.
  - injection Hrun as <-.
    destruct (gather_raise _ _ _ _ _ _ Hg) as [[m Hm]|[m Hm]].
    + destruct (proj2 (analysis_outcome FundamentalAnalysis name m
                         ltac:(discriminate) Hff) _ Hm) as [[i Hi]|Hcall].
      * left. eauto.
      * right. right. exact Hcall.
    + destruct (proj2 (analysis_outcome TechnicalAnalysis name m
                         ltac:(discriminate) Hft) _ Hm) as [[i Hi]|Hcall].
      * left. eauto.
      * right. right. exact Hcall.
  - discriminate.
Qed.

Lemma workflow_run_raise (c0 : Config) (n : nat) :
  fresh_model (llms_with_tools NameResolution) (length (llm_log (world c0)))
              (ids (messages (values c0))) ->
  fresh_model (llms_with_tools FundamentalAnalysis) 0 [] ->
  fresh_model (llms_with_tools TechnicalAnalysis) 0 [] ->
  forall c rounds ph e,
    inv NameResolution "" c0 c rounds ph ->
    run n (G NameResolution) c = Raise e ->
    raised_outside llms_with_tools reasoning_llm tools e.
Proof.
  intros Hfn Hff Hft. induction n as [|n IH]; intros c rounds ph e Hinv Hrun.
  - simpl in Hrun. destruct (finished c); discriminate.
  - pose proof (inv_node _ _ _ _ _ _ _ _ Hinv) as Hnode.
    destruct ph as [| |r].
    + rewrite run_unfold in Hrun by (unfold finished; now rewrite Hnode).
      destruct (step (G NameResolution) c) as [c1|e1|] eqn:Hstep; cbn [rbind] in Hrun.
      * destruct (inv_step _ reasoning_llm _ schedule NameResolution "" c0 c c1 rounds _
                    I Hfn Hinv) as [rounds1 [ph1 [Hinv1 _]]];
          [rewrite Hnode; discriminate | exact Hstep |].
        exact (IH _ _ _ _ Hinv1 Hrun).
      * injection Hrun as <-.
        destruct (inv_step_raise llms_with_tools reasoning_llm tools schedule
                    NameResolution "" c0 c rounds awaiting_model e1 I Hfn Hinv)
          as [[i Hi]|Hcall]; [discriminate | exact Hstep | |].
        -- left. eauto.
        -- right. right. exact Hcall.
      * discriminate.
    + rewrite run_unfold in Hrun by (unfold finished; now rewrite Hnode).
      destruct (step (G NameResolution) c) as [c1|e1|] eqn:Hstep; cbn [rbind] in Hrun.
      * destruct (inv_step _ reasoning_llm _ schedule NameResolution "" c0 c c1 rounds _
                    I Hfn Hinv) as [rounds1 [ph1 [Hinv1 _]]];
          [rewrite Hnode; discriminate | exact Hstep |].
        exact (IH _ _ _ _ Hinv1 Hrun).
      * injection Hrun as <-.
        destruct (inv_step_raise llms_with_tools reasoning_llm tools schedule
                    NameResolution "" c0 c rounds (awaiting_tools r) e1 I Hfn Hinv)
          as [[i Hi]|Hcall]; [discriminate | exact Hstep | |].
        -- left. eauto.
        -- right. right. exact Hcall.
      * discriminate.
    + apply (workflow_tail_raise (content r) c (S n) e); auto.
      rewrite (inv_values _ _ _ _ _ _ _ _ Hinv). reflexivity.
Qed.

End WorkflowFailures.

(** ** The step limit of the runtime *)

Lemma run_within_raise (limit : nat) (g : Graph) :
  forall c e,
    run_within limit g c = Raise e ->
    run limit g c = Raise e \/ e = GraphRecursionError.
Proof.
  induction limit as [|l IH]; intros c e H; simpl in *.
  - destruct (finished c); [discriminate|]. injection H as <-. now right.
  - destruct (finished c); [discriminate|].
    destruct (step g c) as [c1|e1|]; simpl in *; [now apply IH | | discriminate].
    injection H as <-. now left.
Qed.

(** A run that is still inside a loop after [n] steps has used up a limit
    of [n]. *)
Lemma steps_until_run_within (stop : string) (g : Graph) (n : nat) :
  assoc END (nodes g) = None ->
  forall c c',
    steps_until stop n g c = Ok c' -> at_node c' <> stop ->
    forall limit, run_within (n + limit) g c = run_within limit g c'.
Proof.
  intros Hend. induction n as [|n IH]; intros c c' H Hstop limit; simpl in H.
  - injection H as <-. reflexivity.
  - destruct (String.eqb_spec (at_node c) stop) as [E|_].
    + injection H as <-. contradiction.
    + destruct (step g c) as [c1| |] eqn:Hstep; simpl in H; try discriminate.
      assert (Hnf : finished c = false).
      { unfold finished. destruct (String.eqb_spec (at_node c) END) as [E|]; [|reflexivity].
        unfold step in Hstep. rewrite E, Hend in Hstep. discriminate. }
      cbn [Nat.add run_within]. rewrite Hnf, Hstep. cbn [rbind].
      now apply IH.
Qed.

Lemma gather_within_ok (gf gt : Graph) (schedule : list bool) :
  forall limit_f limit_t cf ct p,
    gather_within gf gt schedule limit_f limit_t cf ct = Ok p ->
    gather gf gt schedule cf ct = Ok p.
Proof.
  induction schedule as [|b rest IH]; intros lf lt cf ct p H; simpl in *;
    destruct (finished cf && finished ct); try exact H; try discriminate.
  destruct b.
  - destruct (finished cf); [now apply IH in H|].
    destruct lf as [|lf]; [discriminate|].
    destruct (step gf cf); [now apply IH in H | discriminate | now apply IH in H].
  - destruct (finished ct); [now apply IH in H|].
    destruct lt as [|lt]; [discriminate|].
    destruct (step gt ct); [now apply IH in H | discriminate | now apply IH in H].
Qed.

Lemma gather_within_raise (gf gt : Graph) (schedule : list bool) :
  forall limit_f limit_t cf ct e,
    gather_within gf gt schedule limit_f limit_t cf ct = Raise e ->
    gather gf gt schedule cf ct = Raise e \/ e = GraphRecursionError.
Proof.
  induction schedule as [|b rest IH]; intros lf lt cf ct e H; simpl in *;
    destruct (finished cf && finished ct); try discriminate.
  destruct b.
  - destruct (finished cf); [now apply IH in H|].
    destruct lf as [|lf]; [injection H as <-; now right|].
    destruct (step gf cf); [now apply IH in H | now left | now apply IH in H].
  - destruct (finished ct); [now apply IH in H|].
    destruct lt as [|lt]; [injection H as <-; now right|].
    destruct (step gt ct); [now apply IH in H | now left | now apply IH in H].
Qed.

Section StepLimit.

Variable llms_with_tools : loop -> nat -> result message.
Variable reasoning_llm : nat -> result message.
Variable tools : ToolCall -> result string.
Variable schedule : list bool.
Variable analyses_limit : nat.

Let W : Graph :=
  stock_graph_within llms_with_tools reasoning_llm tools analyses_limit schedule.
Let G : Graph := stock_graph llms_with_tools reasoning_llm tools schedule.

(** The join under the limit returns what the join returns, or raises the
    error of the limit. *)
Lemma continue_to_analyses_within_sim (s : State) (w : World) :
  (forall x,
      continue_to_analyses_within llms_with_tools tools analyses_limit schedule s w
      = Ok x ->
      continue_to_analyses llms_with_tools tools schedule s w = Ok x) /\
  (forall e,
      continue_to_analyses_within llms_with_tools tools analyses_limit schedule s w
      = Raise e ->
      continue_to_analyses llms_with_tools tools schedule s w = Raise e
      \/ e = GraphRecursionError).
Proof.
  unfold continue_to_analyses_within, continue_to_analyses, bind, lift.
  destruct (stock_name s) as [name|]; cbn [subscript rbind fst snd];
    [|split; intros; auto].
  destruct (starts llms_with_tools tools name) as [cf [ct [Hf Ht]]].
  rewrite Hf, Ht. cbn [rbind fst snd].
  destruct (gather_within _ _ schedule _ _ cf ct) as [[cf' ct']|e1|] eqn:Hg.
  - rewrite (gather_within_ok _ _ _ _ _ _ _ _ Hg). split; intros; auto.
  - cbn [rbind]. split; [intros; discriminate|].
    intros e H. injection H as <-.
    destruct (gather_within_raise _ _ _ _ _ _ _ _ Hg) as [Hg'| ->];
      [left; now rewrite Hg' | now right].
  - cbn [rbind]. split; intros; discriminate.
Qed.

(** Outside the join both workflows take the same steps. *)
Lemma step_within_other (c : Config) :
  at_node c <> "continue_to_analyses" -> step W c = step G c.
Proof.
  intros Hne. unfold step, W, G.
  cbn [nodes stock_graph_within stock_graph assoc].
  destruct (String.eqb (at_node c) "stock_name"); [reflexivity|].
  destruct (String.eqb (at_node c) "stock_name_tools"); [reflexivity|].
  destruct (String.eqb_spec (at_node c) "continue_to_analyses"); [contradiction|].
  reflexivity.
Qed.

Lemma step_within_sim (c : Config) :
  (forall c', step W c = Ok c' -> step G c = Ok c') /\
  (forall e, step W c = Raise e -> step G c = Raise e \/ e = GraphRecursionError).
Proof.
  destruct (String.eqb_spec (at_node c) "continue_to_analyses") as [Hat|Hne].
  - destruct (continue_to_analyses_within_sim (values c) (world c)) as [Hok Hraise].
    unfold G. rewrite (step_continue_to_analyses _ _ _ _ _ Hat).
    unfold W, step. rewrite Hat.
    cbn [nodes stock_graph_within assoc String.eqb Ascii.eqb Bool.eqb].
    destruct (continue_to_analyses_within _ _ _ _ _ _) as [x|e1|].
    + rewrite (Hok x eq_refl). split; intros; auto.
    + cbn [rbind]. split; [intros; discriminate|].
      intros e H. injection H as <-.
      destruct (Hraise e1 eq_refl) as [H| ->]; [left; now rewrite H | now right].
    + cbn [rbind]. split; intros; discriminate.
  - rewrite (step_within_other c Hne). split; intros; auto.
Qed.

Lemma run_within_workflow_raise (limit : nat) :
  forall c e,
    run_within limit W c = Raise e ->
    run limit G c = Raise e \/ e = GraphRecursionError.
Proof.
  induction limit as [|l IH]; intros c e H; simpl in *.
  - destruct (finished c); [discriminate|]. injection H as <-. now right.
  - destruct (finished c); [discriminate|].
    destruct (step_within_sim c) as [Hok Hraise].
    destruct (step W c) as [c1|e1|]; cbn [rbind] in *.
    + rewrite (Hok c1 eq_refl). cbn [rbind]. now apply IH.
    + injection H as <-. destruct (Hraise e1 eq_refl) as [H| ->];
        [left; now rewrite H | now right].
    + discriminate.
Qed.

(** The name loop is the same loop in both workflows. *)
Lemma steps_until_join_within (n : nat) :
  forall c,
    steps_until "continue_to_analyses" n W c
    = steps_until "continue_to_analyses" n G c.
Proof.
  induction n as [|n IH]; intros c; simpl; [reflexivity|].
  destruct (String.eqb_spec (at_node c) "continue_to_analyses") as [_|Hne];
    [reflexivity|].
  rewrite (step_within_other c Hne).
  destruct (step G c); simpl; auto.
Qed.

End StepLimit.



(** X7.  A tool loop has no iteration cap of its own: when every answer of
    the model requests tools and every requested call is answered, the loop
    is still running after any number of steps, one update per step, and
    what ends the run is the step limit of the runtime: under every limit
    the run of the loop's graph raises [GraphRecursionError]. *)
Theorem tool_loop_has_no_cap
    (llms_with_tools : loop -> nat -> result message)
    (reasoning_llm : nat -> result message)
    (tools : ToolCall -> result string) (schedule : list bool)
    (k : loop) (name : string) (c0 : Config) :
  at_node c0 = loop_node k ->
  knows_stock k name (values c0) ->
  fresh_model (llms_with_tools k) (length (llm_log (world c0)))
              (ids (messages (values c0))) ->
  (forall i, exists r outs,
      llms_with_tools k (length (llm_log (world c0)) + i) = Ok r /\
      requests_tools r /\
      run_tools tools (requested r) = Ok outs) ->
  forall n,
    (exists c,
        loop_steps llms_with_tools reasoning_llm tools schedule k n c0 = Ok c /\
        at_node c <> loop_exit k /\
        length (trail c) = length (trail c0) + n /\
        n <= 2 * (length (llm_log (world c)) - length (llm_log (world c0))) <= n + 1) /\
    run_within n (loop_graph llms_with_tools reasoning_llm tools schedule k) c0
    = Raise GraphRecursionError /\
    (k = NameResolution ->
     forall analyses_limit,
       run_within n (stock_graph_within llms_with_tools reasoning_llm tools
                                        analyses_limit schedule) c0
       = Raise GraphRecursionError).
Proof.
  intros Hat Hname Hfresh Hmodel n.
  assert (Hmain : exists c rounds ph,
             loop_steps llms_with_tools reasoning_llm tools schedule k n c0 = Ok c /\
             loop_inv llms_with_tools tools k name c0 c rounds ph /\
             (forall r, ph <> done r) /\
             length (trail c) = length (trail c0) + n /\
             2 * length rounds + length (phase_messages ph) = n).
  { induction n as [|n IH].
    - exists c0, [], awaiting_model. split; [reflexivity|].
      split; [now apply inv_start|]. split; [discriminate|]. split; [lia|reflexivity].
    - destruct IH as [c [rounds [ph [Hn [Hinv [Hnd [Htrail Hcount]]]]]]].
      pose proof (inv_node _ _ _ _ _ _ _ _ Hinv) as Hnode.
      destruct (phase_node_not_end k ph Hnd) as [_ Hnexit].
      rewrite <- Hnode in Hnexit.
      unfold loop_steps in *. rewrite steps_until_last, Hn. cbn [rbind].
      destruct (String.eqb_spec (at_node c) (loop_exit k)) as [E|_]; [contradiction|].
      destruct ph as [|r|r]; [| |now destruct (Hnd r)].
      + destruct (Hmodel (length rounds)) as [r [outs [Hr [Hreq Hrun]]]].
        destruct (inv_model llms_with_tools reasoning_llm tools schedule
                    k name c0 c rounds r Hname Hinv Hr) as [c1 [Hstep Hinv1]].
        { apply Hfresh.
          - apply (rounds_request_tools tools).
            exact (inv_rounds _ _ _ _ _ _ _ _ Hinv).
          - apply answers_snoc; [|now rewrite length_map].
            pose proof (inv_answers _ _ _ _ _ _ _ _ Hinv) as H. simpl in H.
            now rewrite app_nil_r in H. }
        unfold requests_tools in Hreq. rewrite Hreq in Hinv1.
        exists c1, rounds, (awaiting_tools r). split; [exact Hstep|].
        split; [exact Hinv1|]. split; [discriminate|].
        split; [rewrite (step_trail _ _ _ Hstep); lia|]. simpl in *. lia.
      + pose proof (inv_answers _ _ _ _ _ _ _ _ Hinv) as Hans. simpl in Hans.
        pose proof (answers_at _ _ _ [] _ Hans) as Hr.
        rewrite length_map in Hr.
        destruct (Hmodel (length rounds)) as [r' [outs [Hr' [_ Hrun]]]].
        assert (r' = r) by congruence. subst r'.
        destruct (inv_tools llms_with_tools reasoning_llm tools schedule
                    k name c0 c rounds r outs Hinv Hrun) as [c1 [Hstep Hinv1]].
        exists c1, (rounds ++ [(r, outs)]), awaiting_model. split; [exact Hstep|].
        split; [exact Hinv1|]. split; [discriminate|].
        split; [rewrite (step_trail _ _ _ Hstep); lia|].
        rewrite length_app. simpl in *. lia. }
  destruct Hmain as [c [rounds [ph [Hn [Hinv [Hnd [Htrail Hcount]]]]]]].
  pose proof (inv_node _ _ _ _ _ _ _ _ Hinv) as Hnode.
  destruct (phase_node_not_end k ph Hnd) as [Hnend Hnexit].
  rewrite <- Hnode in Hnend, Hnexit.
  assert (Hnf : finished c = false).
  { unfold finished. now destruct (String.eqb_spec (at_node c) END). }
  split; [|split].
  - exists c. split; [exact Hn|]. split; [exact Hnexit|]. split; [exact Htrail|].
    rewrite (inv_invocations _ _ _ _ _ _ _ _ Hinv).
    destruct ph as [|r|r]; [| |now destruct (Hnd r)];
      cbn [phase_messages length] in *; lia.
  - unfold loop_steps in Hn.
    pose proof (steps_until_run_within (loop_exit k) _ n
                  (loop_graph_no_end_node llms_with_tools reasoning_llm tools
                                          schedule k)
                  c0 c Hn Hnexit 0) as Hrun.
    rewrite Nat.add_0_r in Hrun. rewrite Hrun. simpl. now rewrite Hnf.
  - intros -> analyses_limit. unfold loop_steps in Hn. simpl in Hn, Hnexit.
    rewrite <- (steps_until_join_within llms_with_tools reasoning_llm tools
                  schedule analyses_limit) in Hn.
    pose proof (steps_until_run_within "continue_to_analyses"
                  (stock_graph_within llms_with_tools reasoning_llm tools
                                      analyses_limit schedule)
                  n eq_refl c0 c Hn Hnexit 0) as Hrun.
    rewrite Nat.add_0_r in Hrun. rewrite Hrun. simpl. now rewrite Hnf.
Qed.

(** ** Runs that end within the limits *)

Lemma run_within_ok (limit : nat) (g : Graph) :
  forall c c', run_within limit g c = Ok c' <-> run limit g c = Ok c'.
Proof.
  induction limit as [|l IH]; intros c c'; simpl.
  - destruct (finished c); split; intros H; try exact H; discriminate.
  - destruct (finished c); [tauto|].
    destruct (step g c) as [c1|e1|]; simpl; [apply IH | |]; split; intros H;
      discriminate.
Qed.

(** The join of two runs that end within their limits is the join under
    the limits. *)
Lemma gather_within_complete (gf gt : Graph) (schedule : list bool) :
  forall limit_f limit_t cf ct p,
    gather gf gt schedule cf ct = Ok p ->
    is_ok (run limit_f gf cf) = true ->
    is_ok (run limit_t gt ct) = true ->
    gather_within gf gt schedule limit_f limit_t cf ct = Ok p.
Proof.
  induction schedule as [|b rest IH]; intros lf lt cf ct p H Hf Ht; simpl in *;
    destruct (finished cf && finished ct); try exact H; try discriminate.
  destruct b.
  - destruct (finished cf) eqn:Ef; [now apply IH|].
    destruct lf as [|lf]; simpl in Hf; rewrite Ef in Hf; [discriminate|].
    destruct (step gf cf) as [cf1|e1|]; simpl in Hf; try discriminate.
    now apply IH.
  - destruct (finished ct) eqn:Et; [now apply IH|].
    destruct lt as [|lt]; simpl in Ht; rewrite Et in Ht; [discriminate|].
    destruct (step gt ct) as [ct1|e1|]; simpl in Ht; try discriminate.
    now apply IH.
Qed.

Section WithinLimits.

Variable llms_with_tools : loop -> nat -> result message.
Variable reasoning_llm : nat -> result message.
Variable tools : ToolCall -> result string.
Variable schedule : list bool.
Variable analyses_limit : nat.

Let W : Graph :=
  stock_graph_within llms_with_tools reasoning_llm tools analyses_limit schedule.
Let G : Graph := stock_graph llms_with_tools reasoning_llm tools schedule.

(** Both analyses of [name] end within the limit of the analyses. *)
Let fit (name : string) : Prop :=
  is_ok (graph_ainvoke analyses_limit (fsubgraph llms_with_tools tools)
                       (analysis_input name) fresh_world) = true /\
  is_ok (graph_ainvoke analyses_limit (tsubgraph llms_with_tools tools)
                       (analysis_input name) fresh_world) = true.

Lemma continue_to_analyses_within_complete (s : State) (w : World)
      (x : State * World) :
  continue_to_analyses llms_with_tools tools schedule s w = Ok x ->
  (forall name, stock_name s = Some name -> fit name) ->
  continue_to_analyses_within llms_with_tools tools analyses_limit schedule s w
  = Ok x.
Proof.
  unfold continue_to_analyses_within, continue_to_analyses, bind, lift, fit,
    graph_ainvoke.
  intros H Hfit.
  destruct (stock_name s) as [name|]; cbn [subscript rbind fst snd] in *;
    [|discriminate].
  destruct (Hfit name eq_refl) as [Hf Ht].
  destruct (starts llms_with_tools tools name) as [cf [ct [Ef Et]]].
  rewrite Ef, Et in *. cbn [rbind fst snd] in *.
  destruct (gather _ _ schedule cf ct) as [[cf' ct']| |] eqn:Hg;
    cbn [rbind fst snd] in H; try discriminate.
  rewrite (gather_within_complete _ _ _ _ _ _ _ _ Hg Hf Ht).
  exact H.
Qed.

Lemma continue_to_analyses_name (s : State) (w : World) (x : State * World) :
  continue_to_analyses llms_with_tools tools schedule s w = Ok x ->
  stock_name (fst x) = None.
Proof.
  unfold continue_to_analyses, bind, lift, ret.
  destruct (stock_name s) as [name|]; cbn [subscript rbind fst snd];
    [|discriminate].
  destruct (starts llms_with_tools tools name) as [cf [ct [Ef Et]]].
  rewrite Ef, Et. cbn [rbind fst snd].
  destruct (gather _ _ schedule cf ct) as [[cf' ct']| |];
    cbn [rbind fst snd]; try discriminate.
  destruct (fundamental_analysis (values cf'));
    cbn [subscript rbind fst snd]; try discriminate.
  destruct (technical_analysis (values ct'));
    cbn [subscript rbind fst snd]; try discriminate.
  intros E. injection E as <-. reflexivity.
Qed.

Lemma make_decision_name (s : State) (w : World) (x : State * World) :
  make_decision reasoning_llm s w = Ok x -> stock_name (fst x) = None.
Proof.
  unfold make_decision, bind, lift, ret. rewrite decision_prompt_filled.
  cbn [rbind fst snd]. unfold reasoning_ainvoke.
  destruct (reasoning_llm _); cbn [rbind fst snd]; intros H; try discriminate.
  injection H as <-. reflexivity.
Qed.

Lemma step_within_join (c : Config) :
  at_node c = "continue_to_analyses" ->
  step W c =
  rbind (continue_to_analyses_within llms_with_tools tools analyses_limit schedule
                                     (values c) (world c))
        (fun uw =>
           Ok {| at_node := "make_decision";
                 values := apply_update (values c) (fst uw);
                 world := snd uw;
                 trail := trail c ++ [("continue_to_analyses", fst uw)] |}).
Proof.
  intros Hat. unfold step. rewrite Hat. simpl.
  destruct (continue_to_analyses_within _ _ _ _ _ _); reflexivity.
Qed.

(** From the join to the end the stock name stays, and the steps are the
    steps under the limits. *)
Lemma run_within_from_join (limit : nat) (c1 c : Config) :
  at_node c1 = "continue_to_analyses" ->
  run limit G c1 = Ok c ->
  (forall name, stock_name (values c) = Some name -> fit name) ->
  run_within limit W c1 = Ok c.
Proof.
  intros Hat Hrun Hfit.
  assert (Hnf1 : finished c1 = false) by (unfold finished; now rewrite Hat).
  destruct limit as [|l]; [simpl in Hrun; rewrite Hnf1 in Hrun; discriminate|].
  rewrite run_unfold in Hrun by exact Hnf1.
  unfold G in Hrun. rewrite (step_continue_to_analyses _ _ _ _ _ Hat) in Hrun.
  destruct (continue_to_analyses _ _ _ _ _) as [x| |] eqn:Hj;
    cbn [rbind] in Hrun; try discriminate.
  pose proof (continue_to_analyses_name _ _ _ Hj) as Hn2.
  set (c2 := {| at_node := "make_decision";
                values := apply_update (values c1) (fst x);
                world := snd x;
                trail := trail c1 ++ [("continue_to_analyses", fst x)] |}) in *.
  destruct l as [|l]; [simpl in Hrun; discriminate|].
  rewrite run_unfold in Hrun by reflexivity.
  rewrite (step_make_decision llms_with_tools reasoning_llm tools schedule
             c2 eq_refl) in Hrun.
  destruct (make_decision _ _ _) as [x3| |] eqn:Hd; cbn [rbind] in Hrun;
    try discriminate.
  rewrite run_finished in Hrun by reflexivity.
  pose proof (make_decision_name _ _ _ Hd) as Hn3.
  assert (Hname : forall name, stock_name (values c1) = Some name -> fit name).
  { intros name Hname. apply Hfit. injection Hrun as <-.
    cbn [values apply_update stock_name c2]. rewrite Hn3, Hn2. exact Hname. }
  pose proof (continue_to_analyses_within_complete _ _ _ Hj Hname) as Hjw.
  cbn [run_within]. rewrite Hnf1.
  rewrite (step_within_join c1 Hat), Hjw. cbn [rbind]. fold c2.
  change (finished c2) with false. cbv iota. unfold W.
  rewrite (step_within_other llms_with_tools reasoning_llm tools schedule
             analyses_limit c2) by discriminate.
  rewrite (step_make_decision llms_with_tools reasoning_llm tools schedule
             c2 eq_refl), Hd.
  cbn [rbind]. destruct l; exact Hrun.
Qed.

Lemma run_within_complete (limit : nat) :
  forall c1 c,
    run limit G c1 = Ok c ->
    (forall name, stock_name (values c) = Some name -> fit name) ->
    run_within limit W c1 = Ok c.
Proof.
  induction limit as [|l IH]; intros c1 c Hrun Hfit.
  - simpl in *. destruct (finished c1); [exact Hrun | discriminate].
  - destruct (String.eqb_spec (at_node c1) "continue_to_analyses") as [Hat|Hne].
    + now apply run_within_from_join.
    + simpl in *. destruct (finished c1); [exact Hrun|].
      unfold W at 1.
      rewrite (step_within_other llms_with_tools reasoning_llm tools schedule
                 analyses_limit c1 Hne).
      fold G. destruct (step G c1) as [c2| |]; cbn [rbind] in *; try discriminate.
      now apply IH.
Qed.

Lemma run_within_sound (limit : nat) :
  forall c1 c, run_within limit W c1 = Ok c -> run limit G c1 = Ok c.
Proof.
  induction limit as [|l IH]; intros c1 c H; simpl in *.
  - destruct (finished c1); [exact H | discriminate].
  - destruct (finished c1); [exact H|].
    destruct (step_within_sim llms_with_tools reasoning_llm tools schedule
                              analyses_limit c1) as [Hok _].
    fold W in Hok. fold G in Hok.
    destruct (step W c1) as [c2| |]; cbn [rbind] in H; try discriminate.
    rewrite (Hok c2 eq_refl). cbn [rbind]. now apply IH.
Qed.

End WithinLimits.


(** ** The workflow as a whole *)

Lemma fresh_ids_names (seen : list string) (batch : list message) :
  fresh_ids seen batch <-> fresh_names seen (ids batch).
Proof.
  revert seen. induction batch as [|m batch IH]; intros seen; simpl.
  - tauto.
  - destruct (id m) as [i|]; simpl; [|apply IH].
    rewrite IH. tauto.
Qed.

Lemma fresh_ids_same_ids (seen : list string) (b b' : list message) :
  ids b = ids b' -> fresh_ids seen b -> fresh_ids seen b'.
Proof. intros E H. apply fresh_ids_names. rewrite <- E. now apply fresh_ids_names. Qed.

Lemma transcript_last_ids (tools : ToolCall -> result string)
      (rounds : list round) (r : message) :
  Forall (round_ok tools) rounds ->
  ids (transcript rounds ++ [r]) = ids (map fst rounds ++ [r]).
Proof.
  intros H. rewrite !ids_app. f_equal. now apply (transcript_ids tools).
Qed.

(** X8.  The steps compose: when each of the three tool loops is answered
    by rounds of tool requests followed by a response without tool calls,
    and the reasoning model answers, the workflow ends, under every schedule
    that gives the analysis tasks their turns and every step budget of at
    least [2N+3] for [N] name-resolution rounds, with the text of each final
    response in its field and with the history: the input messages, the
    name-resolution transcript, the fundamental transcript, the technical
    transcript, the decision response.  The stock name found by the first
    loop is what the analyses and the decision prompt are given. *)
Theorem workflow_composes
    (llms_with_tools : loop -> nat -> result message)
    (reasoning_llm : nat -> result message)
    (tools : ToolCall -> result string) (schedule : list bool) (fuel : nat)
    (init : list message)
    (rounds_n rounds_f rounds_t : list round) (r_n r_f r_t r_d : message) :
  Forall (round_ok tools) rounds_n -> no_tool_calls r_n = true ->
  Forall (round_ok tools) rounds_f -> no_tool_calls r_f = true ->
  Forall (round_ok tools) rounds_t -> no_tool_calls r_t = true ->
  answers (llms_with_tools NameResolution) 0 (map fst rounds_n ++ [r_n]) ->
  answers (llms_with_tools FundamentalAnalysis) 0 (map fst rounds_f ++ [r_f]) ->
  answers (llms_with_tools TechnicalAnalysis) 0 (map fst rounds_t ++ [r_t]) ->
  reasoning_llm 0 = Ok r_d ->
  fresh_ids [] (init ++ (map fst rounds_n ++ [r_n])
                     ++ (map fst rounds_f ++ [r_f])
                     ++ (map fst rounds_t ++ [r_t]) ++ [r_d]) ->
  2 * length rounds_f + 1 <= turns true schedule ->
  2 * length rounds_t + 1 <= turns false schedule ->
  2 * length rounds_n + 3 <= fuel ->
  exists c,
    graph_ainvoke fuel (stock_graph llms_with_tools reasoning_llm tools schedule)
                  (mkState init None None None None) fresh_world = Ok c /\
    values c = {| messages := init ++ (transcript rounds_n ++ [r_n])
                                   ++ (transcript rounds_f ++ [r_f])
                                   ++ (transcript rounds_t ++ [r_t]) ++ [r_d];
                  stock_name := Some (content r_n);
                  fundamental_analysis := Some (content r_f);
                  technical_analysis := Some (content r_t);
                  decision := Some (content r_d) |} /\
    length (llm_log (world c)) = length rounds_n + 1 /\
    reasoning_log (world c)
    = [[user (nl ++ "    Based on the fundamental analysis: " ++ content r_f ++ nl
                 ++ "    And technical analysis: " ++ content r_t ++ nl
                 ++ "    " ++ nl
                 ++ "    Make a buy, sell, or hold decision for "
                 ++ content r_n ++ "." ++ nl ++ "    ")%string]].
Proof.
  intros Hrn Hln Hrf Hlf Hrt Hlt Han Haf Hat Hd Hfresh Hsf Hst Hfuel.
  set (B := map fst rounds_n ++ [r_n]) in *.
  set (C := map fst rounds_f ++ [r_f]) in *.
  set (D := map fst rounds_t ++ [r_t]) in *.
  (* the pieces of freshness *)
  destruct (fresh_ids_app _ _ _ Hfresh) as [FA F1]. simpl app in F1.
  destruct (fresh_ids_app _ _ _ F1) as [FB F2].
  rewrite app_assoc in F2.
  destruct (fresh_ids_app _ _ _ F2) as [FCD FE].
  destruct (fresh_ids_app _ _ _ FCD) as [FC' FD'].
  assert (FC : fresh_ids [] C) by (eapply fresh_ids_ext; [|exact FC']; contradiction).
  assert (FD : fresh_ids [] D) by (eapply fresh_ids_ext; [|exact FD']; contradiction).
  assert (IdsN : ids (transcript rounds_n ++ [r_n]) = ids B)
    by (now apply (transcript_last_ids tools)).
  assert (IdsF : ids (transcript rounds_f ++ [r_f]) = ids C)
    by (now apply (transcript_last_ids tools)).
  assert (IdsT : ids (transcript rounds_t ++ [r_t]) = ids D)
    by (now apply (transcript_last_ids tools)).
  assert (Fmerge : fresh_ids (ids (init ++ transcript rounds_n ++ [r_n]))
                     ((transcript rounds_f ++ [r_f]) ++ (transcript rounds_t ++ [r_t]))).
  { rewrite (ids_app init (transcript rounds_n ++ [r_n])), IdsN.
    apply (fresh_ids_same_ids _ (C ++ D)); [|exact FCD].
    now rewrite (ids_app C D),
      (ids_app (transcript rounds_f ++ [r_f]) (transcript rounds_t ++ [r_t])),
      IdsF, IdsT. }
  assert (Flast : fresh_ids
                    (ids ((init ++ transcript rounds_n ++ [r_n])
                          ++ (transcript rounds_f ++ [r_f])
                          ++ (transcript rounds_t ++ [r_t])))
                    [r_d]).
  { rewrite (ids_app (init ++ transcript rounds_n ++ [r_n])),
      (ids_app init (transcript rounds_n ++ [r_n])), IdsN,
      (ids_app (transcript rounds_f ++ [r_f]) (transcript rounds_t ++ [r_t])),
      IdsF, IdsT, <- (ids_app C D).
    exact FE. }
  (* the start *)
  set (g := stock_graph llms_with_tools reasoning_llm tools schedule).
  set (c0 := {| at_node := "stock_name";
                values := mkState init None None None None;
                world := fresh_world; trail := [] |}).
  assert (Hstart : start g (mkState init None None None None) fresh_world = Ok c0).
  { unfold start. cbn [g stock_graph edges assoc String.eqb Ascii.eqb Bool.eqb START].
    unfold c0. do 2 f_equal. unfold apply_update. cbn.
    f_equal. change (fold_left add_message init []) with (add_messages [] init).
    now apply add_messages_fresh. }
  rewrite (graph_ainvoke_run fuel g _ fresh_world c0 Hstart).
  (* the name loop *)
  destruct (loop_progress llms_with_tools reasoning_llm tools schedule
              NameResolution "" c0 r_n rounds_n I Hln Hrn [] c0
              (inv_start _ _ NameResolution "" c0 eq_refl) Han FB)
    as [c1 [Hsteps1 Hinv1]].
  simpl app in Hinv1.
  destruct (run_steps_until _ _ _ (loop_graph_no_end_node llms_with_tools reasoning_llm
                                     tools schedule NameResolution)
                            c0 c1 Hsteps1) as [k [Hk Hrun1]].
  cbn [loop_graph] in Hrun1. fold g in Hrun1.
  pose proof (inv_node _ _ _ _ _ _ _ _ Hinv1) as Hnode1. cbn in Hnode1.
  pose proof (inv_values _ _ _ _ _ _ _ _ Hinv1) as Hv1.
  pose proof (inv_reasoning _ _ _ _ _ _ _ _ Hinv1) as Hreason1. cbn in Hreason1.
  pose proof (inv_invocations _ _ _ _ _ _ _ _ Hinv1) as Hlog1. cbn in Hlog1.
  (* the two analysis loops *)
  set (name := content r_n).
  set (cf := {| at_node := "fundamental_analysis"; values := analysis_input name;
                world := fresh_world; trail := [] |}).
  set (ct := {| at_node := "technical_analysis"; values := analysis_input name;
                world := fresh_world; trail := [] |}).
  destruct (loop_progress llms_with_tools reasoning_llm tools schedule
              FundamentalAnalysis name cf r_f rounds_f eq_refl Hlf Hrf [] cf
              (inv_start _ _ FundamentalAnalysis name cf eq_refl) Haf FC)
    as [cf' [Hstepsf Hinvf]].
  destruct (loop_progress llms_with_tools reasoning_llm tools schedule
              TechnicalAnalysis name ct r_t rounds_t eq_refl Hlt Hrt [] ct
              (inv_start _ _ TechnicalAnalysis name ct eq_refl) Hat FD)
    as [ct' [Hstepst Hinvt]].
  simpl app in Hinvf, Hinvt.
  pose proof (steps_until_run _ _ cf cf' Hstepsf (inv_node _ _ _ _ _ _ _ _ Hinvf)
                (2 * length rounds_f + 1) (le_n _)) as Hrunf.
  pose proof (steps_until_run _ _ ct ct' Hstepst (inv_node _ _ _ _ _ _ _ _ Hinvt)
                (2 * length rounds_t + 1) (le_n _)) as Hrunt.
  cbn [loop_graph] in Hrunf, Hrunt.
  pose proof (inv_values _ _ _ _ _ _ _ _ Hinvf) as Hvf.
  pose proof (inv_values _ _ _ _ _ _ _ _ Hinvt) as Hvt.
  (* the join *)
  assert (Hname1 : stock_name (values c1) = Some name) by (now rewrite Hv1).
  set (u := {| messages := (transcript rounds_f ++ [r_f]) ++ (transcript rounds_t ++ [r_t]);
               stock_name := None;
               fundamental_analysis := Some (content r_f);
               technical_analysis := Some (content r_t);
               decision := None |}).
  assert (Hjoin : continue_to_analyses llms_with_tools tools schedule
                    (values c1) (world c1) = Ok (u, world c1)).
  { rewrite (continue_to_analyses_form llms_with_tools tools schedule (values c1)
               (world c1) name cf ct Hname1 eq_refl eq_refl).
    rewrite (gather_complete _ _ schedule _ _ cf ct cf' ct' Hrunf Hrunt Hsf Hst).
    cbn [rbind fst snd]. rewrite Hvf, Hvt. reflexivity. }
  set (c2 := {| at_node := "make_decision";
                values := apply_update (values c1) u;
                world := world c1;
                trail := trail c1 ++ [("continue_to_analyses", u)] |}).
  assert (Hstep2 : step g c1 = Ok c2).
  { unfold g. rewrite (step_continue_to_analyses _ _ _ _ _ Hnode1), Hjoin.
    reflexivity. }
  assert (Hm1 : messages (values c1) = init ++ transcript rounds_n ++ [r_n])
    by (now rewrite Hv1).
  assert (Hm2 : messages (values c2)
                = (init ++ transcript rounds_n ++ [r_n])
                  ++ (transcript rounds_f ++ [r_f])
                  ++ (transcript rounds_t ++ [r_t])).
  { cbn [c2 values apply_update messages u]. rewrite Hm1.
    now apply add_messages_fresh. }
  (* the decision *)
  assert (Hs2 : stock_name (values c2) = Some name)
    by (cbn [c2 values apply_update stock_name u last_value]; exact Hname1).
  set (u3 := {| messages := [r_d];
                stock_name := None;
                fundamental_analysis := None;
                technical_analysis := None;
                decision := Some (content r_d) |}).
  set (prompt := (nl ++ "    Based on the fundamental analysis: " ++ content r_f ++ nl
                     ++ "    And technical analysis: " ++ content r_t ++ nl
                     ++ "    " ++ nl
                     ++ "    Make a buy, sell, or hold decision for "
                     ++ name ++ "." ++ nl ++ "    ")%string).
  assert (Hprompt : decision_prompt (values c2) = Ok prompt).
  { rewrite decision_prompt_filled, Hs2. reflexivity. }
  set (c3 := {| at_node := END;
                values := apply_update (values c2) u3;
                world := {| llm_log := llm_log (world c2);
                            reasoning_log := reasoning_log (world c2)
                                             ++ [[user prompt]] |};
                trail := trail c2 ++ [("make_decision", u3)] |}).
  assert (Hstep3 : step g c2 = Ok c3).
  { unfold g. rewrite (step_make_decision _ _ _ _ c2 eq_refl).
    rewrite (make_decision_returns reasoning_llm (values c2) (world c2) prompt r_d
               Hprompt).
    - reflexivity.
    - cbn [c2 world]. rewrite Hreason1. exact Hd. }
  exists c3. split.
  - replace fuel with (k + S (S (fuel - k - 2))) by lia.
    rewrite Hrun1.
    rewrite run_unfold by (unfold finished; now rewrite Hnode1).
    rewrite Hstep2. cbn [rbind].
    rewrite run_unfold by reflexivity.
    rewrite Hstep3. cbn [rbind]. apply run_finished. reflexivity.
  - split; [|split].
    + apply State_ext.
      * cbn [c3 values apply_update messages u3]. rewrite Hm2.
        rewrite add_messages_fresh by exact Flast.
        now rewrite <- !app_assoc.
      * cbn [c3 values apply_update stock_name u3 last_value]. exact Hs2.
      * reflexivity.
      * reflexivity.
      * reflexivity.
    + cbn [c3 world llm_log c2]. rewrite Hlog1. reflexivity.
    + cbn [c3 world reasoning_log c2]. rewrite Hreason1. reflexivity.
Qed.

(** ** The decision step on any state, and the configuration *)

Lemma string_append_assoc (s1 s2 s3 : string) :
  ((s1 ++ s2) ++ s3 = s1 ++ (s2 ++ s3))%string.
Proof. induction s1 as [|c s1 IH]; simpl; [reflexivity | now rewrite IH]. Qed.

(** X9.  The decision step fails only when its model does: for every
    state, whatever the texts it holds (braces and placeholder tokens
    included), formatting the prompt succeeds, each value is inserted as it
    is, and [make_decision] raises exactly what the reasoning model
    raises. *)
Theorem decision_step_fails_only_with_model
    (reasoning_llm : nat -> result message) (state : State) (w : World) :
  (exists prompt,
      decision_prompt state = Ok prompt /\
      Fmt.occurs (get (fundamental_analysis state) "Not available") prompt /\
      Fmt.occurs (get (technical_analysis state) "Not available") prompt /\
      Fmt.occurs (get (stock_name state) "Unknown") prompt /\
      make_decision reasoning_llm state w =
      rbind (reasoning_llm (length (reasoning_log w))) (fun response =>
      Ok ({| messages := [response];
             stock_name := None;
             fundamental_analysis := None;
             technical_analysis := None;
             decision := Some (content response) |},
          {| llm_log := llm_log w;
             reasoning_log := reasoning_log w ++ [[user prompt]] |}))) /\
  (forall e, make_decision reasoning_llm state w = Raise e ->
             reasoning_llm (length (reasoning_log w)) = Raise e).
Proof.
  assert (Hform : make_decision reasoning_llm state w =
                  rbind (reasoning_llm (length (reasoning_log w))) (fun response =>
                  Ok ({| messages := [response];
                         stock_name := None;
                         fundamental_analysis := None;
                         technical_analysis := None;
                         decision := Some (content response) |},
                      {| llm_log := llm_log w;
                         reasoning_log :=
                           reasoning_log w
                           ++ [[user (nl ++ "    Based on the fundamental analysis: "
                                         ++ get (fundamental_analysis state) "Not available"
                                         ++ nl ++ "    And technical analysis: "
                                         ++ get (technical_analysis state) "Not available"
                                         ++ nl ++ "    " ++ nl
                                         ++ "    Make a buy, sell, or hold decision for "
                                         ++ get (stock_name state) "Unknown" ++ "."
                                         ++ nl ++ "    ")%string]] |}))).
  { unfold make_decision, bind, lift, ret. rewrite decision_prompt_filled.
    cbn [rbind fst snd]. unfold reasoning_ainvoke.
    destruct (reasoning_llm _); reflexivity. }
  split.
  - eexists. split; [apply decision_prompt_filled|].
    split; [|split; [|split; [|exact Hform]]].
    + exists (nl ++ "    Based on the fundamental analysis: ")%string. eexists.
      rewrite !string_append_assoc. reflexivity.
    + exists (nl ++ "    Based on the fundamental analysis: "
                 ++ get (fundamental_analysis state) "Not available" ++ nl
                 ++ "    And technical analysis: ")%string. eexists.
      rewrite !string_append_assoc. reflexivity.
    + exists (nl ++ "    Based on the fundamental analysis: "
                 ++ get (fundamental_analysis state) "Not available" ++ nl
                 ++ "    And technical analysis: "
                 ++ get (technical_analysis state) "Not available" ++ nl
                 ++ "    " ++ nl
                 ++ "    Make a buy, sell, or hold decision for ")%string. eexists.
      rewrite !string_append_assoc. reflexivity.
  - intros e H. rewrite Hform in H.
    destruct (reasoning_llm _); simpl in H; congruence.
Qed.



(** ** The further theorems at sample inputs *)

Lemma model_failure_aborts_loop_witness :
  flaky_llm NameResolution 1 = Raise (ModelError "timed out") /\
  run 3 (loop_graph flaky_llm scenario_reasoning sample_tools [] NameResolution)
      (sample_start NameResolution)
  = Raise (ModelError "timed out").
Proof.
  split; [reflexivity|].
  assert (Hans : answers (flaky_llm NameResolution) 0
                         (map fst [(sample_request NameResolution,
                                    [sample_tool_result NameResolution])])).
  { intros i r H. destruct i as [|i]; simpl in H.
    - injection H as <-. reflexivity.
    - destruct i; discriminate H. }
  assert (Hfresh : fresh_ids (ids (messages (values (sample_start NameResolution))))
                             (map fst [(sample_request NameResolution,
                                        [sample_tool_result NameResolution])])).
  { simpl. split; [intros H; exact H | exact I]. }
  exact (proj2 (model_failure_aborts_loop flaky_llm scenario_reasoning sample_tools []
                  NameResolution "" (sample_start NameResolution)
                  [(sample_request NameResolution, [sample_tool_result NameResolution])]
                  (ModelError "timed out")
                  eq_refl I (sample_round_ok NameResolution) Hans eq_refl Hfresh
                  3 (le_n 3))).
Defined.

Lemma tool_failure_aborts_loop_witness :
  run_tools broken_tools (requested (sample_request FundamentalAnalysis))
  = Raise (ToolError "server is down") /\
  run 2 (loop_graph sample_llm scenario_reasoning broken_tools []
                    FundamentalAnalysis)
      (sample_start FundamentalAnalysis)
  = Raise (ToolError "server is down").
Proof.
  split; [reflexivity|].
  assert (Hans : answers (sample_llm FundamentalAnalysis) 0
                         (map fst (@nil round) ++ [sample_request FundamentalAnalysis])).
  { intros i r H. destruct i as [|i]; simpl in H.
    - injection H as <-. reflexivity.
    - destruct i; discriminate H. }
  assert (Hfresh : fresh_ids (ids (messages (values (sample_start FundamentalAnalysis))))
                             (map fst (@nil round) ++ [sample_request FundamentalAnalysis])).
  { simpl. split; [intros H; exact H | exact I]. }
  exact (proj2 (tool_failure_aborts_loop sample_llm scenario_reasoning broken_tools []
                  FundamentalAnalysis "Tata Motors Ltd. (NSE:TATAMOTORS)"
                  (sample_start FundamentalAnalysis) (@nil round)
                  (sample_request FundamentalAnalysis)
                  (ToolError "server is down")
                  eq_refl eq_refl (Forall_nil _) Hans eq_refl eq_refl Hfresh
                  2 (le_n 2))).
Defined.

Lemma failing_fresh_model (seen : list string) :
  fresh_model (failing_llm FundamentalAnalysis) 0 seen.
Proof.
  intros rs r _ Hans. exfalso.
  destruct rs as [|x rs]; [pose proof (Hans 0 r eq_refl) as H
                          | pose proof (Hans 0 x eq_refl) as H];
    discriminate H.
Defined.



Lemma analysis_runs_in_schema_witness :
  exists c,
    graph_ainvoke 3 (fsubgraph sample_llm sample_tools)
                  (analysis_input "Tata Motors Ltd. (NSE:TATAMOTORS)") fresh_world
    = Ok c /\
    FundamentalAnalysisState (values c).
Proof.
  assert (Hrun : exists c,
             graph_ainvoke 3 (fsubgraph sample_llm sample_tools)
               (analysis_input "Tata Motors Ltd. (NSE:TATAMOTORS)") fresh_world
             = Ok c)
    by (eexists; vm_compute; reflexivity).
  destruct Hrun as [c Hc]. exists c. split; [exact Hc|].
  exact (proj1 (proj1 (analysis_runs_in_schema sample_llm sample_tools 3
                         "Tata Motors Ltd. (NSE:TATAMOTORS)" fresh_world) c Hc)).
Defined.

Lemma eager_fresh_model (who : loop) (seen : list string) :
  fresh_model (eager_llm who) 0 seen.
Proof.
  intros rs r _ Hans. apply unnamed_fresh. apply Forall_forall.
  intros m Hin. apply In_nth_error in Hin. destruct Hin as [i Hi].
  pose proof (Hans i m Hi) as H. injection H as <-. reflexivity.
Defined.

Lemma tool_loop_has_no_cap_witness :
  run_within 25 (loop_graph eager_llm scenario_reasoning sample_tools []
                            FundamentalAnalysis)
             (sample_start FundamentalAnalysis)
  = Raise GraphRecursionError /\
  run_within 25 (stock_graph_within eager_llm scenario_reasoning sample_tools 25 [])
             (sample_start NameResolution)
  = Raise GraphRecursionError.
Proof.
  split.
  - exact (proj1 (proj2 (tool_loop_has_no_cap eager_llm scenario_reasoning
                           sample_tools [] FundamentalAnalysis
                           "Tata Motors Ltd. (NSE:TATAMOTORS)"
                           (sample_start FundamentalAnalysis)
                           eq_refl eq_refl (eager_fresh_model _ _)
                           (fun i => ex_intro _ _ (ex_intro _ _
                                       (conj eq_refl (conj eq_refl eq_refl))))
                           25))).
  - exact (proj2 (proj2 (tool_loop_has_no_cap eager_llm scenario_reasoning
                           sample_tools [] NameResolution ""
                           (sample_start NameResolution)
                           eq_refl I (eager_fresh_model _ _)
                           (fun i => ex_intro _ _ (ex_intro _ _
                                       (conj eq_refl (conj eq_refl eq_refl))))
                           25)) eq_refl 25).
Defined.

Lemma sample_workflow_fresh :
  fresh_ids [] ([user "Analyze Tata Motors"]
                ++ (map fst [(sample_request NameResolution,
                              [sample_tool_result NameResolution])]
                    ++ [sample_answer NameResolution])
                ++ (map fst [(sample_request FundamentalAnalysis,
                              [sample_tool_result FundamentalAnalysis])]
                    ++ [sample_answer FundamentalAnalysis])
                ++ (map fst [(sample_request TechnicalAnalysis,
                              [sample_tool_result TechnicalAnalysis])]
                    ++ [sample_answer TechnicalAnalysis])
                ++ [canned "buy"]).
Proof.
  simpl. repeat split; intros H;
    repeat (destruct H as [H|H]; [discriminate H|]); exact H.
Defined.

Lemma workflow_composes_witness :
  exists c,
    graph_ainvoke 5
      (stock_graph sample_llm scenario_reasoning sample_tools
                   [false; true; true; false; false; true])
      (mkState [user "Analyze Tata Motors"] None None None None) fresh_world
    = Ok c /\
    stock_name (values c) = Some "Tata Motors Ltd. (NSE:TATAMOTORS)" /\
    decision (values c) = Some "buy" /\
    length (messages (values c)) = 11.
Proof.
  assert (Ht : 3 <= turns true [false; true; true; false; false; true])
    by apply le_n.
  assert (Hf : 3 <= turns false [false; true; true; false; false; true])
    by apply le_n.
  destruct (workflow_composes sample_llm scenario_reasoning sample_tools
              [false; true; true; false; false; true] 5
              [user "Analyze Tata Motors"]
              [(sample_request NameResolution, [sample_tool_result NameResolution])]
              [(sample_request FundamentalAnalysis,
                [sample_tool_result FundamentalAnalysis])]
              [(sample_request TechnicalAnalysis,
                [sample_tool_result TechnicalAnalysis])]
              (sample_answer NameResolution) (sample_answer FundamentalAnalysis)
              (sample_answer TechnicalAnalysis) (canned "buy")
              (sample_round_ok NameResolution) eq_refl
              (sample_round_ok FundamentalAnalysis) eq_refl
              (sample_round_ok TechnicalAnalysis) eq_refl
              (sample_answers NameResolution) (sample_answers FundamentalAnalysis)
              (sample_answers TechnicalAnalysis) eq_refl
              sample_workflow_fresh Ht Hf (le_n 5))
    as [c [Hc [Hv _]]].
  exists c. split; [exact Hc|]. rewrite Hv. repeat split.
Defined.

